(** * Comparateur facturation kine: the text layer, the two extractors, the
      reconciler, the workbook, the name of the download and the keyword
      patch of [streamlit_app.py], embedded and verified.

    Modelling conventions.
    - A Python [str] is a list of characters ([pystr]).  Characters are the
      code points below 256; [isspace] is Python's [str.isspace] on that
      range and [upper_char] maps the ASCII letters, every other character
      being left as it is (text is taken to carry no lower-case letter
      outside ASCII).  The module [Unicode] embeds the two normalizers once
      more over every text: a [str] is a list of code points and
      [str.upper] goes through the full upper-case table.
    - A spreadsheet cell is a tagged value ([cell]); a table is a list of
      rows, a row a list of cells, as [df.iterrows()] hands them over after
      [read_excel_robust] has decoded the file.
    - Positional access [row.iloc[i]] raises [IndexError] out of range; the
      extractors live in the error monad [result].
    - The floats of [cell] are finite.  The module [Infinite] embeds the two
      extractors once more over cells that may be [inf] or [-inf], where
      [int] raises [OverflowError].
    - A [dict] keeps its keys in insertion order and overwrites the value of
      a key already present ([dict_set]).
    - [sort_values] on several columns is a stable sort in the lexicographic
      order of the columns, texts being compared code point by code point.
    - The workbook is the list of the sheets handed to the writer; decoding
      and writing the files, the log file and the pages of the interface are
      left to their libraries. *)

From Stdlib Require Import List Ascii String ZArith QArith Bool Lia Permutation.
From Stdlib Require Import DecimalString.
From Stdlib Require DecimalZ DecimalPos.
Import ListNotations.

#[local] Close Scope Q_scope.
#[local] Open Scope list_scope.
#[local] Open Scope char_scope.
#[local] Open Scope nat_scope.

(** ** Python strings *)

Definition pystr := list ascii.

Definition str (s : string) : pystr := list_ascii_of_string s.

Definition pystr_eqb (a b : pystr) : bool :=
  if list_eq_dec ascii_dec a b then true else false.

(** [str.isspace] on one character: TAB..CR, FS..US, SPACE, NEL, NBSP. *)
Definition isspace (c : ascii) : bool :=
  let n := nat_of_ascii c in
  ((9 <=? n) && (n <=? 13)) || ((28 <=? n) && (n <=? 32))
  || (n =? 133) || (n =? 160).

Definition upper_char (c : ascii) : ascii :=
  let n := nat_of_ascii c in
  if (97 <=? n) && (n <=? 122) then ascii_of_nat (n - 32) else c.

Definition upper (s : pystr) : pystr := map upper_char s.

Fixpoint lstrip (s : pystr) : pystr :=
  match s with
  | [] => []
  | c :: t => if isspace c then lstrip t else s
  end.

Fixpoint rstrip (s : pystr) : pystr :=
  match s with
  | [] => []
  | c :: t =>
      match rstrip t with
      | [] => if isspace c then [] else [c]
      | t' => c :: t'
      end
  end.

(** [s.strip()] *)
Definition strip (s : pystr) : pystr := rstrip (lstrip s).

(** [re.sub(r'\s+', ' ', s)]: every maximal run of white space becomes one
    space.  [in_ws] tells that the previous character was white space. *)
Fixpoint collapse_from (in_ws : bool) (s : pystr) : pystr :=
  match s with
  | [] => []
  | c :: t =>
      if isspace c
      then (if in_ws then collapse_from true t else " " :: collapse_from true t)
      else c :: collapse_from false t
  end.

Definition collapse_ws (s : pystr) : pystr := collapse_from false s.

Definition is_AZ (c : ascii) : bool :=
  let n := nat_of_ascii c in (65 <=? n) && (n <=? 90).

(** Does [s] match [^\([A-Z]\)] ? *)
Definition has_paren_prefix (s : pystr) : bool :=
  match s with
  | a :: c :: b :: _ => Ascii.eqb a "(" && is_AZ c && Ascii.eqb b ")"
  | _ => false
  end.

(** [re.sub(r'^\([A-Z]\)\s*', '', s)]: the pattern is anchored, so it
    matches at most once, at the start. *)
Definition strip_paren_prefix (s : pystr) : pystr :=
  match s with
  | a :: c :: b :: t =>
      if Ascii.eqb a "(" && is_AZ c && Ascii.eqb b ")" then lstrip t else s
  | _ => s
  end.

(** [s.replace(',', '')] *)
Definition remove_commas (s : pystr) : pystr :=
  filter (fun c => negb (Ascii.eqb c ",")) s.

Fixpoint starts_with (p s : pystr) : bool :=
  match p, s with
  | [], _ => true
  | _ :: _, [] => false
  | a :: p', b :: s' => Ascii.eqb a b && starts_with p' s'
  end.

(** [sub in s] *)
Fixpoint contains (sub s : pystr) : bool :=
  starts_with sub s ||
  match s with
  | [] => false
  | _ :: t => contains sub t
  end.

(** ** Normalizer and code decomposer *)

Definition normalize_code (code : pystr) : pystr :=
  let code := upper (strip code) in
  collapse_ws code.

Definition normalize_name (name : pystr) : pystr :=
  let name := upper (strip name) in
  let name := strip_paren_prefix name in
  let name := remove_commas name in
  collapse_ws name.

Definition parse_billing_code (code_str : pystr) : list pystr :=
  let codes := [] in
  let code_str := upper (strip code_str) in
  let codes := if contains (str "M24") code_str then codes ++ [str "M 24"] else codes in
  let codes := if contains (str "M6") code_str || contains (str "M 6") code_str
               then codes ++ [str "M 6"] else codes in
  let codes := if contains (str "K-1") code_str then codes ++ [str "K-1"] else codes in
  let codes := if contains (str "RECOND") code_str then codes ++ [str "RECOND"] else codes in
  let codes := if contains (str "K3/4") code_str then codes ++ [str "K3/4"] else codes in
  let codes := if contains (str "K20") code_str then codes ++ [str "K 20"] else codes in
  let codes := if contains (str "K15") code_str then codes ++ [str "K 15"] else codes in
  codes.

(** ** Cells of a decoded table *)

(** A finite float is seen by the extractors through [bool], [int] and
    [str] only: the value is kept as a rational, the decimal text [repr]
    prints is kept with it. *)
Record pyfloat := { f_val : Q; f_str : pystr }.

(** A native date value ([datetime], [Timestamp]): its [day] attribute and
    the text [str] prints. *)
Record pydate := { dt_day : Z; dt_str : pystr }.

Inductive cell :=
| CNaN                     (* blank cell, as pandas decodes it *)
| CNone                    (* [None] *)
| CStr (s : pystr)
| CInt (z : Z)
| CFloat (f : pyfloat)
| CDate (d : pydate).

(** [pd.notna(c)] *)
Definition notna (c : cell) : bool :=
  match c with
  | CNaN | CNone => false
  | _ => true
  end.

(** [bool(c)] *)
Definition truthy (c : cell) : bool :=
  match c with
  | CNaN => true
  | CNone => false
  | CStr s => match s with [] => false | _ => true end
  | CInt z => negb (z =? 0)%Z
  | CFloat f => negb (Qnum (f_val f) =? 0)%Z
  | CDate _ => true
  end.

(** [str(z)] for an integer *)
Definition str_int (z : Z) : pystr := str (NilZero.string_of_int (Z.to_int z)).

(** [int(f)] for a finite float: truncation towards zero *)
Definition int_of_float (f : pyfloat) : Z :=
  Z.quot (Qnum (f_val f)) (Z.pos (Qden (f_val f))).

(** [str(c)] *)
Definition py_str (c : cell) : pystr :=
  match c with
  | CNaN => str "nan"
  | CNone => str "None"
  | CStr s => s
  | CInt z => str_int z
  | CFloat f => f_str f
  | CDate d => dt_str d
  end.

(** ** Exceptions *)

Inductive exn := IndexError | ValueError | AttributeError.

Inductive result (A : Type) : Type :=
| Ok (a : A)
| Raise (e : exn).
Arguments Ok {A} a.
Arguments Raise {A} e.

Definition bind {A B} (m : result A) (k : A -> result B) : result B :=
  match m with
  | Ok a => k a
  | Raise e => Raise e
  end.

Notation "x <- m ;; k" := (bind m (fun x => k))
  (at level 61, m at next level, right associativity).

Fixpoint mapM {A B} (f : A -> result B) (l : list A) : result (list B) :=
  match l with
  | [] => Ok []
  | a :: t => b <- f a ;; bs <- mapM f t ;; Ok (b :: bs)
  end.

Fixpoint foldM {S A} (f : S -> A -> result S) (l : list A) (s : S) : result S :=
  match l with
  | [] => Ok s
  | a :: t => s' <- f s a ;; foldM f t s'
  end.

Definition row := list cell.

(** [row.iloc[i]] *)
Definition iloc (r : row) (i : nat) : result cell :=
  match nth_error r i with
  | Some c => Ok c
  | None => Raise IndexError
  end.

(** [row.iloc[i] if len(row) > i and pd.notna(row.iloc[i]) else None] *)
Definition cell_or_none (r : row) (i : nat) : cell :=
  if i <? List.length r
  then match nth_error r i with
       | Some c => if notna c then c else CNone
       | None => CNone
       end
  else CNone.

(** [str(int(v)) if isinstance(v, float) else str(v)]; [int(nan)] raises. *)
Definition dossier_text (v : cell) : result pystr :=
  match v with
  | CNaN => Raise ValueError
  | CFloat f => Ok (str_int (int_of_float f))
  | _ => Ok (py_str v)
  end.

(** Methods of [str] called on a value of any type. *)
Definition as_str (v : cell) : result pystr :=
  match v with
  | CStr s => Ok s
  | _ => Raise AttributeError
  end.

Definition py_normalize_code (v : cell) : result pystr :=
  s <- as_str v ;; Ok (normalize_code s).

Definition py_normalize_name (v : cell) : result pystr :=
  s <- as_str v ;; Ok (normalize_name s).

Definition py_parse_billing_code (v : cell) : result (list pystr) :=
  s <- as_str v ;; Ok (parse_billing_code s).

(** ** Billing records *)

Inductive origin := MA_FACTURATION | RAPPORT_HOPITAL.

Record record := {
  date : Z;
  dossier : pystr;
  nom : option pystr;
  code : pystr;
  source : origin
}.

(** ** The date pattern [^(\d{1,2})[/\-](\d{1,2})[/\-](\d{4})] *)

Definition is_digit (c : ascii) : bool :=
  let n := nat_of_ascii c in (48 <=? n) && (n <=? 57).

Definition digit_val (c : ascii) : Z := Z.of_nat (nat_of_ascii c - 48).

Definition is_date_sep (c : ascii) : bool := Ascii.eqb c "/" || Ascii.eqb c "-".

(** [(\d{1,2})[/\-]]: the value of the digits and the text after the
    separator.  Two digits are tried first; a digit is no separator, so
    backing off to one digit succeeds only when the second character is
    the separator. *)
Definition digits12_sep (s : pystr) : option (Z * pystr) :=
  match s with
  | a :: b :: t =>
      if is_digit a && is_digit b
      then match t with
           | c :: t' => if is_date_sep c then Some (10 * digit_val a + digit_val b, t')%Z
                        else None
           | [] => None
           end
      else if is_digit a && is_date_sep b then Some (digit_val a, t) else None
  | _ => None
  end.

Definition digits4 (s : pystr) : bool :=
  match s with
  | a :: b :: c :: d :: _ => is_digit a && is_digit b && is_digit c && is_digit d
  | _ => false
  end.

(** [int(match.group(1))] when the pattern matches *)
Definition date_match (s : pystr) : option Z :=
  match digits12_sep s with
  | Some (d, r1) =>
      match digits12_sep r1 with
      | Some (_, r2) => if digits4 r2 then Some d else None
      | None => None
      end
  | None => None
  end.

(** ** Personal-log extractor *)

Record my_state := {
  current_date : option Z;
  my_records : list record
}.

(** [bool(current_date)] *)
Definition day_truthy (d : option Z) : bool :=
  match d with
  | Some z => negb (z =? 0)%Z
  | None => false
  end.

(** The update of [current_date] by the date cell of a row. *)
Definition next_date (current_date : option Z) (date_val : cell) : option Z :=
  if truthy date_val then
    match date_val with
    | CDate d => Some (dt_day d)
    | CStr s =>
        match date_match s with
        | Some d => Some d
        | None => current_date
        end
    | _ => current_date
    end
  else current_date.

Definition my_record (current_date : Z) (dossier nom : cell) (code : pystr)
  : result record :=
  d <- dossier_text dossier ;;
  Ok {| date := current_date;
        dossier := d;
        nom := Some (normalize_name (py_str nom));
        code := normalize_code code;
        source := MA_FACTURATION |}.

(** The records one row appends, given the day in force. *)
Definition my_row_records (current_date : option Z) (r : row) : result (list record) :=
  let dossier := cell_or_none r 1 in
  let nom := cell_or_none r 2 in
  let codes_str := cell_or_none r 3 in
  if truthy dossier && truthy nom && truthy codes_str && day_truthy current_date
  then
    match current_date with
    | Some d => mapM (my_record d dossier nom) (parse_billing_code (py_str codes_str))
    | None => Ok []
    end
  else Ok [].

(** One iteration of the loop of [parse_my_billing]. *)
Definition my_billing_row (st : my_state) (r : row) : result my_state :=
  c0 <- iloc r 0 ;;
  let date_val := if notna c0 then c0 else CNone in
  let current_date := next_date (current_date st) date_val in
  new <- my_row_records current_date r ;;
  Ok {| current_date := current_date; my_records := my_records st ++ new |}.

Definition my_init : my_state := {| current_date := None; my_records := [] |}.

Definition parse_my_billing (df : list row) : result (list record) :=
  st <- foldM my_billing_row df my_init ;; Ok (my_records st).

(** ** Facility-report extractor *)

Definition NAME_HEADERS : list pystr :=
  [str "PATIENT"; str "NOM"; str "NOM PATIENT"].

(** The degree sign is the code point 176. *)
Definition DOSSIER_HEADERS : list pystr :=
  [str "DOSSIER"; str "N" ++ ["176"] ++ str " DOSSIER"; str "NUMERO DOSSIER";
   str "N" ++ ["176"] ++ str "DOSSIER"].

Definition CODE_HEADERS : list pystr :=
  [str "CODE"; str "CODE INTERNE"; str "CODES"].

Definition mem_str (s : pystr) (l : list pystr) : bool := existsb (pystr_eqb s) l.

(** [v and str(v).strip().upper() in labels] *)
Definition header_cell (labels : list pystr) (v : cell) : bool :=
  truthy v && mem_str (upper (strip (py_str v))) labels.

Definition is_header_row (r : row) : bool :=
  header_cell NAME_HEADERS (cell_or_none r 0)
  || header_cell DOSSIER_HEADERS (cell_or_none r 1)
  || header_cell CODE_HEADERS (cell_or_none r 2).

Record hosp_state := {
  current_name : option pystr;
  current_dossier : option pystr;
  hosp_records : list record
}.

(** [bool(current_dossier)] *)
Definition dossier_truthy (d : option pystr) : bool :=
  match d with
  | Some (_ :: _) => true
  | _ => false
  end.

(** [str(int(v)) if v and isinstance(v, float) else str(v) if v else None] *)
Definition next_dossier (dossier_val : cell) : result (option pystr) :=
  if truthy dossier_val
  then d <- dossier_text dossier_val ;; Ok (Some d)
  else Ok None.

(** The day columns: one record per day 1..31 whose cell, at column
    [6 + (day - 1)], is present and not blank after trimming. *)
Definition day_records (name : option pystr) (dos code : pystr) (r : row) : list record :=
  flat_map
    (fun day =>
       let col_idx := 6 + (day - 1) in
       if col_idx <? List.length r
       then match nth_error r col_idx with
            | Some cell_val =>
                if notna cell_val
                   && negb (pystr_eqb (strip (py_str cell_val)) [])
                then [ {| date := Z.of_nat day; dossier := dos; nom := name;
                          code := code; source := RAPPORT_HOPITAL |} ]
                else []
            | None => []
            end
       else [])
    (seq 1 31).

(** One iteration of the loop of [parse_hospital_report]. *)
Definition hospital_row (st : hosp_state) (r : row) : result hosp_state :=
  c0 <- iloc r 0 ;;
  let nom_val := if notna c0 then c0 else CNone in
  let dossier_val := cell_or_none r 1 in
  let code_val := cell_or_none r 2 in
  if header_cell NAME_HEADERS nom_val then Ok st
  else if header_cell DOSSIER_HEADERS dossier_val then Ok st
  else if header_cell CODE_HEADERS code_val then Ok st
  else
    st1 <- (if truthy nom_val
            then d <- next_dossier dossier_val ;;
                 Ok {| current_name := Some (normalize_name (py_str nom_val));
                       current_dossier := d;
                       hosp_records := hosp_records st |}
            else Ok st) ;;
    if dossier_truthy (current_dossier st1) && truthy code_val
    then
      match current_dossier st1 with
      | Some dos =>
          let code := normalize_code (py_str code_val) in
          Ok {| current_name := current_name st1;
                current_dossier := current_dossier st1;
                hosp_records :=
                  hosp_records st1 ++ day_records (current_name st1) dos code r |}
      | None => Ok st1
      end
    else Ok st1.

Definition hosp_init : hosp_state :=
  {| current_name := None; current_dossier := None; hosp_records := [] |}.

Definition parse_hospital_report (df : list row) : result (list record) :=
  st <- foldM hospital_row df hosp_init ;; Ok (hosp_records st).

(** ** Reconciler *)

Definition key : Type := pystr * pystr * Z.

Definition make_key (r : record) : key := (dossier r, code r, date r).

Definition key_eqb (a b : key) : bool :=
  let '(d1, c1, n1) := a in
  let '(d2, c2, n2) := b in
  pystr_eqb d1 d2 && pystr_eqb c1 c2 && (n1 =? n2)%Z.

Definition dict := list (key * record).

(** [d[k] = v] on an insertion-ordered dictionary *)
Fixpoint dict_set (d : dict) (k : key) (v : record) : dict :=
  match d with
  | [] => [(k, v)]
  | (k', v') :: t =>
      if key_eqb k' k then (k', v) :: t else (k', v') :: dict_set t k v
  end.

(** [k in d] *)
Definition dict_mem (k : key) (d : dict) : bool :=
  existsb (fun kv => key_eqb (fst kv) k) d.

Fixpoint dict_get (d : dict) (k : key) : option record :=
  match d with
  | [] => None
  | (k', v) :: t => if key_eqb k' k then Some v else dict_get t k
  end.

(** [{make_key(r): r for r in records}] *)
Definition dict_of_records (records : list record) : dict :=
  fold_left (fun d r => dict_set d (make_key r) r) records [].

Definition compare_records (my_records hospital_records : list record)
  : list record * list record * list record :=
  let my_keys := dict_of_records my_records in
  let hosp_keys := dict_of_records hospital_records in
  let '(matched, only_in_my) :=
    fold_left
      (fun '(matched, only_in_my) '(key, record) =>
         if dict_mem key hosp_keys
         then (matched ++ [record], only_in_my)
         else (matched, only_in_my ++ [record]))
      my_keys ([], []) in
  let only_in_hospital :=
    fold_left
      (fun only_in_hospital '(key, record) =>
         if negb (dict_mem key my_keys)
         then only_in_hospital ++ [record]
         else only_in_hospital)
      hosp_keys [] in
  (matched, only_in_my, only_in_hospital).

(** ** Vocabulary of the text statements *)

(** [m] occurs in [s] as a substring. *)
Definition occurs (m s : pystr) : Prop := exists a b, s = a ++ m ++ b.

(** The detection table of the code decomposer as the specification
    prints it: the markers of a line and the atomic code it emits. *)
Definition spec_vocabulary : list (list pystr * pystr) :=
  [ ([str "M24"], str "M 24");
    ([str "M6"; str "M 6"], str "M 6");
    ([str "K-1"], str "K-1");
    ([str "RECOND"], str "RECOND");
    ([str "K3/4"], str "K3/4");
    ([str "K20"], str "K 20");
    ([str "K15"], str "K 15") ].

(** A line of the table fires on the text [u]. *)
Definition marker_hit (u : pystr) (line : list pystr * pystr) : bool :=
  existsb (fun m => contains m u) (fst line).

(** Every white-space character is a space and no two are adjacent. *)
Fixpoint tidy_from (prev_ws : bool) (s : pystr) : bool :=
  match s with
  | [] => true
  | c :: t =>
      if isspace c
      then Ascii.eqb c " " && negb prev_ws && tidy_from true t
      else tidy_from false t
  end.

(** The character is its own upper case. *)
Definition upper_fixed_char (c : ascii) : bool := Ascii.eqb (upper_char c) c.

(** Upper-cased already, and no comma. *)
Definition clean_char (c : ascii) : bool :=
  Ascii.eqb (upper_char c) c && negb (Ascii.eqb c ",").

Definition all_space (s : pystr) : bool := forallb isspace s.

(** ** Vocabulary of the reconciler statements *)

(** [k] is one of the keys [ks]. *)
Definition key_mem (k : key) (ks : list key) : bool := existsb (key_eqb k) ks.

(** The distinct keys of a list of keys, each at its first occurrence. *)
Definition distinct_keys (ks : list key) : list key :=
  fold_left (fun acc k => if key_mem k acc then acc else acc ++ [k]) ks [].

(** The last record of [records] filed under the key [k]. *)
Definition last_with_key (k : key) (records : list record) : option record :=
  find (fun r => key_eqb (make_key r) k) (rev records).

Definition keys_of (records : list record) : list key := map make_key records.

(** ** Vocabulary of the extractor statements *)

(** The day a date-like cell carries: a native date, or a text whose
    prefix has the shape D[/-]M[/-]YYYY. *)
Definition date_like (c : cell) : option Z :=
  match c with
  | CDate d => Some (dt_day d)
  | CStr s => date_match s
  | _ => None
  end.

(** The canonical text of a present file-number cell. *)
Definition dossier_str (v : cell) : pystr :=
  match v with
  | CFloat f => str_int (int_of_float f)
  | _ => py_str v
  end.

(** The numeric value zero: integer [0] or float [0.0]. *)
Definition zero_cell (c : cell) : bool :=
  match c with
  | CInt z => (z =? 0)%Z
  | CFloat f => (Qnum (f_val f) =? 0)%Z
  | _ => false
  end.



(** A row with at least one column whose date cell carries no day. *)
Definition undated (r : row) : Prop :=
  r <> [] /\ date_like (cell_or_none r 0) = None.

(** The records a personal-log row gives under the day [d]. *)
Definition expected_my_records (d : Z) (r : row) : list record :=
  let dossier := cell_or_none r 1 in
  let nom := cell_or_none r 2 in
  let codes_str := cell_or_none r 3 in
  if truthy dossier && truthy nom && truthy codes_str && negb (d =? 0)%Z
  then map (fun c => {| date := d;
                        dossier := dossier_str dossier;
                        nom := Some (normalize_name (py_str nom));
                        code := normalize_code c;
                        source := MA_FACTURATION |})
           (parse_billing_code (py_str codes_str))
  else [].

(** Column [i] is a text cell whose trimmed, upper-cased text is one of
    [labels]. *)
Definition label_at (labels : list pystr) (r : row) (i : nat) : Prop :=
  exists s, nth_error r i = Some (CStr s) /\ In (upper (strip s)) labels.

(** A row that has a first column and does not name a patient. *)
Definition anonymous (r : row) : Prop :=
  r <> [] /\ truthy (cell_or_none r 0) = false.

(** A row that has a first column and supplies no file number. *)
Definition no_dossier (r : row) : Prop :=
  r <> [] /\ truthy (cell_or_none r 1) = false.

(** The loop body of [parse_hospital_report] on a row with a first column,
    where nothing is raised: the carry-forward update, the records of the
    day columns, and the two together. *)
Definition update_patient (st : hosp_state) (r : row) : hosp_state :=
  let nom_val := cell_or_none r 0 in
  let dossier_val := cell_or_none r 1 in
  if truthy nom_val
  then {| current_name := Some (normalize_name (py_str nom_val));
          current_dossier :=
            if truthy dossier_val then Some (dossier_str dossier_val) else None;
          hosp_records := hosp_records st |}
  else st.

Definition emit_days (st : hosp_state) (r : row) : list record :=
  match current_dossier st with
  | Some dos =>
      if dossier_truthy (Some dos) && truthy (cell_or_none r 2)
      then day_records (current_name st) dos
             (normalize_code (py_str (cell_or_none r 2))) r
      else []
  | None => []
  end.

Definition hospital_step (st : hosp_state) (r : row) : hosp_state :=
  if is_header_row r then st
  else
    let st1 := update_patient st r in
    {| current_name := current_name st1;
       current_dossier := current_dossier st1;
       hosp_records := hosp_records st1 ++ emit_days st1 r |}.






(** ** Sample tables *)

Definition unused_columns : row := [CNaN; CNaN; CNaN].

(** A facility row: name, file number, code, three unused columns, then
    the day cells. *)
Definition hosp_row (name dos code : cell) (days : row) : row :=
  name :: dos :: code :: unused_columns ++ days.


Definition my_table_carry : list row :=
  [ [CNaN; CInt 100; CStr (str "AVANT"); CStr (str "K-1")];
    [CStr (str "05/01/2024"); CInt 101; CStr (str "Martin"); CStr (str "K-1 + RECOND")];
    [CNaN; CInt 102; CStr (str "Dupont"); CStr (str "M24")];
    [CNaN; CFloat {| f_val := 103 # 1; f_str := str "103.0" |}; CStr (str "Durand");
     CStr (str "k20")] ].

Definition hosp_table_cleared : list row :=
  [ hosp_row (CStr (str "DUPONT")) (CInt 101) (CStr (str "K-1")) [CStr (str "X")];
    hosp_row (CStr (str "MARTIN")) CNaN (CStr (str "K-1")) [CNaN; CStr (str "X")];
    hosp_row CNaN CNaN (CStr (str "M 6")) [CNaN; CNaN; CStr (str "X")] ].

Definition hosp_table_header : list row :=
  [ hosp_row (CStr (str "DUPONT")) (CInt 101) (CStr (str "K-1")) [CStr (str "X")];
    hosp_row (CStr (str "Nom patient")) (CInt 999) (CStr (str "M 6")) [CStr (str "X")];
    hosp_row CNaN CNaN (CStr (str "M 6")) [CNaN; CStr (str "X")] ].

Definition hosp_table_zero : list row :=
  [ hosp_row (CStr (str "DUPONT")) (CInt 101) (CStr (str "K-1")) [CStr (str "X")];
    hosp_row (CStr (str "MARTIN")) (CInt 0) (CStr (str "K-1")) [CNaN; CStr (str "X")];
    hosp_row CNaN CNaN (CStr (str "M 6")) [CNaN; CNaN; CStr (str "X")];
    hosp_row (CStr (str "DURAND")) (CInt 104) (CStr (str "K 20")) [CStr (str "X")] ].



(** ** Sample records *)

Definition mk_record (d : Z) (file name c : string) (o : origin) : record :=
  {| date := d; dossier := str file; nom := Some (str name); code := str c;
     source := o |}.

Definition martin_k1_mine := mk_record 5 "101" "MARTIN" "K-1" MA_FACTURATION.
Definition martin_k1_hosp := mk_record 5 "101" "MARTIN" "K-1" RAPPORT_HOPITAL.
Definition martin_m6_hosp := mk_record 6 "101" "MARTIN" "M 6" RAPPORT_HOPITAL.
Definition dupont_mine := mk_record 5 "102" "DUPONT" "K-1" MA_FACTURATION.
Definition dupont_jean_hosp := mk_record 5 "102" "DUPONT JEAN" "K-1" RAPPORT_HOPITAL.

(** ** The whole comparison, as [main] runs it *)

(** [parse_my_billing], [parse_hospital_report], then [compare_records]
    on the two decoded tables. *)
Definition run_comparison (my_df hosp_df : list row)
  : result (list record * list record * list record) :=
  my_records <- parse_my_billing my_df ;;
  hospital_records <- parse_hospital_report hosp_df ;;
  Ok (compare_records my_records hospital_records).

(** ** The name of the downloaded file *)

(** The characters of the file-name pattern: backslash, slash, star,
    question mark, colon, double quote, the angle brackets and the bar. *)
Definition forbidden_char (c : ascii) : bool :=
  let n := nat_of_ascii c in
  (n =? 92) || (n =? 47) || (n =? 42) || (n =? 63) || (n =? 58)
  || (n =? 34) || (n =? 60) || (n =? 62) || (n =? 124).

(** [re.sub] of that class by an underscore. *)
Definition sanitize (s : pystr) : pystr :=
  map (fun c => if forbidden_char c then "_" else c) s.

(** [selected_billing_sheet or "export"] *)
Definition sheet_or_export (selected : option pystr) : pystr :=
  match selected with
  | Some (c :: s) => c :: s
  | _ => str "export"
  end.

Definition safe_sheet_name (selected : option pystr) : pystr :=
  sanitize (sheet_or_export selected).

(** The fields of [datetime.now()] that the time stamp prints. *)
Record clock := {
  c_day : nat; c_month : nat; c_year : nat; c_hour : nat; c_minute : nat
}.

Definition digit_char (n : nat) : ascii := ascii_of_nat (48 + n mod 10).

Definition pad2 (n : nat) : pystr := [digit_char (n / 10); digit_char n].

Definition pad4 (n : nat) : pystr :=
  [digit_char (n / 1000); digit_char (n / 100); digit_char (n / 10); digit_char n].

(** [now.strftime("%d%m%Y_%H%M")] *)
Definition timestamp (now : clock) : pystr :=
  pad2 (c_day now) ++ pad2 (c_month now) ++ pad4 (c_year now) ++ str "_"
  ++ pad2 (c_hour now) ++ pad2 (c_minute now).

(** [f"comparaison_{safe_sheet_name}_{timestamp}.xlsx"] *)
Definition output_filename (selected : option pystr) (now : clock) : pystr :=
  str "comparaison_" ++ safe_sheet_name selected ++ str "_" ++ timestamp now
  ++ str ".xlsx".

(** ** The workbook of [create_excel_output] *)

(** The two values of the column [statut]: the text ends in
    [Manquant dans rapport hôpital] for a record of the personal log and in
    [Manquant dans ma facturation] for a record of the facility report.
    The texts share their beginning and part at [r] against [m], so the
    second sorts before the first. *)
Inductive statut := MANQUANT_HOPITAL | MANQUANT_FACTURATION.

(** The end of the text of a status, where the two differ. *)
Definition statut_text (s : statut) : pystr :=
  match s with
  | MANQUANT_HOPITAL => str "rapport h" ++ ["244"] ++ str "pital"
  | MANQUANT_FACTURATION => str "ma facturation"
  end.

(** A row of the sheet [Differences]: the copied record and its status. *)
Record diff_row := { d_record : record; d_statut : statut }.

(** Python's order on [str]: lexicographic on the code points. *)
Fixpoint pystr_compare (a b : pystr) : comparison :=
  match a, b with
  | [], [] => Eq
  | [], _ :: _ => Lt
  | _ :: _, [] => Gt
  | x :: a', y :: b' =>
      match Nat.compare (nat_of_ascii x) (nat_of_ascii y) with
      | Eq => pystr_compare a' b'
      | c => c
      end
  end.

Definition lex (c1 c2 : comparison) : comparison :=
  match c1 with
  | Eq => c2
  | c => c
  end.

(** The order of [sort_values(['date', 'dossier'])]. *)
Definition record_compare (x y : record) : comparison :=
  lex (Z.compare (date x) (date y)) (pystr_compare (dossier x) (dossier y)).

(** The order of [sort_values(['date', 'dossier', 'statut'])]. *)
Definition diff_compare (x y : diff_row) : comparison :=
  lex (record_compare (d_record x) (d_record y))
      (pystr_compare (statut_text (d_statut x)) (statut_text (d_statut y))).

Definition leb_of {A} (cmp : A -> A -> comparison) (x y : A) : bool :=
  match cmp x y with
  | Gt => false
  | _ => true
  end.

(** [sort_values] on several columns is a stable sort: a row goes before
    the first row of the sorted rest that is not below it. *)
Fixpoint insert_row {A} (cmp : A -> A -> comparison) (x : A) (l : list A) : list A :=
  match l with
  | [] => [x]
  | y :: t => if leb_of cmp x y then x :: y :: t else y :: insert_row cmp x t
  end.

Definition sort_values {A} (cmp : A -> A -> comparison) (l : list A) : list A :=
  fold_right (insert_row cmp) [] l.

(** The list [differences] before it is sorted. *)
Definition differences (only_mine only_hospital : list record) : list diff_row :=
  map (fun r => {| d_record := r; d_statut := MANQUANT_HOPITAL |}) only_mine
  ++ map (fun r => {| d_record := r; d_statut := MANQUANT_FACTURATION |}) only_hospital.

Inductive sheet :=
| DifferencesSheet (rows : list diff_row)
| SuccessSheet                       (* the one-cell frame [Bravo tout est en ordre !] *)
| RecordsSheet (rows : list record).

(** The sheets handed to the writer, in the order written, each under
    its name. *)
Definition create_excel_output
  (my_records hospital_records only_mine only_hospital : list record)
  : list (pystr * sheet) :=
  let differences := differences only_mine only_hospital in
  [ (str "Differences",
     match differences with
     | _ :: _ => DifferencesSheet (sort_values diff_compare differences)
     | [] => SuccessSheet
     end) ]
  ++ match my_records with
     | _ :: _ => [(str "Ma_Facturation", RecordsSheet (sort_values record_compare my_records))]
     | [] => []
     end
  ++ match hospital_records with
     | _ :: _ => [(str "Rapport_Hopital",
                   RecordsSheet (sort_values record_compare hospital_records))]
     | [] => []
     end.

(** ** The keyword patch of the style constructors *)

(** Keyword arguments: a dictionary from names to values, in insertion
    order. *)
Definition kwargs (V : Type) : Type := list (pystr * V).

Fixpoint kw_get {V} (kw : kwargs V) (k : pystr) : option V :=
  match kw with
  | [] => None
  | (k', v) :: t => if pystr_eqb k' k then Some v else kw_get t k
  end.

(** [kw.pop(k)] when [k] is present: the dictionary without [k]. *)
Fixpoint kw_remove {V} (kw : kwargs V) (k : pystr) : kwargs V :=
  match kw with
  | [] => []
  | (k', v) :: t => if pystr_eqb k' k then t else (k', v) :: kw_remove t k
  end.

(** [kw[k] = v] *)
Fixpoint kw_set {V} (kw : kwargs V) (k : pystr) (v : V) : kwargs V :=
  match kw with
  | [] => [(k, v)]
  | (k', v') :: t => if pystr_eqb k' k then (k', v) :: t else (k', v') :: kw_set t k v
  end.

(** What [_patched_named_cell_style_init] and [_patched_named_style_init]
    pass on: [if 'biltinId' in kwargs: kwargs['builtinId'] =
    kwargs.pop('biltinId')]. *)
Definition patch_kwargs {V} (kw : kwargs V) : kwargs V :=
  match kw_get kw (str "biltinId") with
  | Some v => kw_set (kw_remove kw (str "biltinId")) (str "builtinId") v
  | None => kw
  end.

(** ** Vocabulary of the further reconciler statements *)

(** The records a side keeps once indexed: one per key, the last filed. *)
Definition dedup_records (records : list record) : list record :=
  map snd (dict_of_records records).

Definition matched_of (c : list record * list record * list record) := fst (fst c).
Definition only_in_my_of (c : list record * list record * list record) := snd (fst c).
Definition only_in_hospital_of (c : list record * list record * list record) := snd c.

(** ** Vocabulary of the further extractor statements *)

(** Two rows that agree on the columns the personal log reads: 0 to 3. *)
Definition same_my_columns (r r' : row) : Prop :=
  forall i, i < 4 -> nth_error r i = nth_error r' i.

(** Two rows that agree on the columns the facility report reads: 0 to 2
    and the day columns 6 to 36. *)
Definition same_hosp_columns (r r' : row) : Prop :=
  forall i, i < 3 \/ 6 <= i < 37 -> nth_error r i = nth_error r' i.

(** The cell of the day [day] is there, is not blank and does not print
    as white space only. *)
Definition day_marked (r : row) (day : nat) : bool :=
  match nth_error r (5 + day) with
  | Some c => notna c && negb (pystr_eqb (strip (py_str c)) [])
  | None => false
  end.

(** The state with its records set aside. *)
Definition carried (st : hosp_state) : hosp_state :=
  {| current_name := current_name st;
     current_dossier := current_dossier st;
     hosp_records := [] |}.

(** ** Vocabulary of the further text statements *)

(** The value of a string of decimal digits. *)
Definition dec_value (s : pystr) : Z :=
  fold_left (fun acc c => 10 * acc + digit_val c)%Z s 0%Z.

Definition all_digits (s : pystr) : bool := forallb is_digit s.

(** The shape the date pattern accepts: one or two digits, a separator,
    one or two digits, a separator, four digits, then anything. *)
Definition date_shape (s : pystr) (d : Z) : Prop :=
  exists D M Y rest s1 s2,
    s = D ++ s1 :: M ++ s2 :: Y ++ rest /\
    all_digits D = true /\ 1 <= List.length D <= 2 /\
    all_digits M = true /\ 1 <= List.length M <= 2 /\
    all_digits Y = true /\ List.length Y = 4 /\
    is_date_sep s1 = true /\ is_date_sep s2 = true /\
    d = dec_value D.

(** ** Vocabulary of the file-name and workbook statements *)

Definition allowed_char (c : ascii) : bool := negb (forbidden_char c).

(** Every row is at most the row that follows it. *)
Fixpoint sorted_by {A} (cmp : A -> A -> comparison) (l : list A) : bool :=
  match l with
  | x :: (y :: _) as t => leb_of cmp x y && sorted_by cmp t
  | _ => true
  end.

(** The workbook written after the comparison of two record lists. *)
Definition workbook_of (mine theirs : list record) : list (pystr * sheet) :=
  let c := compare_records mine theirs in
  create_excel_output mine theirs (only_in_my_of c) (only_in_hospital_of c).

(** A facility table whose second row names a patient over a zero file
    number and holds a code-header label; and one whose second row has
    the number zero as name. *)
Definition hosp_table_zero_header : list row :=
  [ hosp_row (CStr (str "DUPONT")) (CInt 101) (CStr (str "K-1")) [CStr (str "X")];
    hosp_row (CStr (str "MARTIN")) (CInt 0) (CStr (str "Code")) [CNaN; CStr (str "X")];
    hosp_row CNaN CNaN (CStr (str "M 6")) [CNaN; CNaN; CStr (str "X")] ].

Definition hosp_table_zero_name : list row :=
  [ hosp_row (CStr (str "DUPONT")) (CInt 101) (CStr (str "K-1")) [CStr (str "X")];
    hosp_row (CInt 0) (CInt 0) (CStr (str "K-1")) [CNaN; CStr (str "X")] ].

(** ** The text layer over Unicode

    A Python [str] of any text is a list of code points.  [str.isspace],
    the characters of the patterns and the collapsing of white space are
    as in the source; [str.upper] maps the text code point by code point
    through the full upper-case mapping of the Unicode tables
    ([upper_of]: one code point to one or more). *)

Module Unicode.

Definition ustr := list N.

(** The code points of a text given in Latin-1. *)
Definition of_string (s : string) : ustr :=
  map N_of_ascii (list_ascii_of_string s).

#[local] Open Scope N_scope.

(** [str.isspace] on one code point, and the class [\s] of [re]. *)
Definition isspace (c : N) : bool :=
  ((9 <=? c) && (c <=? 13)) || ((28 <=? c) && (c <=? 32))
  || (c =? 133) || (c =? 160) || (c =? 5760)
  || ((8192 <=? c) && (c <=? 8202))
  || (c =? 8232) || (c =? 8233) || (c =? 8239) || (c =? 8287) || (c =? 12288).

Fixpoint lstrip (s : ustr) : ustr :=
  match s with
  | [] => []
  | c :: t => if isspace c then lstrip t else s
  end.

Fixpoint rstrip (s : ustr) : ustr :=
  match s with
  | [] => []
  | c :: t =>
      match rstrip t with
      | [] => if isspace c then [] else [c]
      | t' => c :: t'
      end
  end.

(** [s.strip()] *)
Definition strip (s : ustr) : ustr := rstrip (lstrip s).

(** [re.sub(r'\s+', ' ', s)] *)
Fixpoint collapse_from (in_ws : bool) (s : ustr) : ustr :=
  match s with
  | [] => []
  | c :: t =>
      if isspace c
      then (if in_ws then collapse_from true t else 32 :: collapse_from true t)
      else c :: collapse_from false t
  end.

Definition collapse_ws (s : ustr) : ustr := collapse_from false s.

Definition is_AZ (c : N) : bool := (65 <=? c) && (c <=? 90).

(** Does [s] match [^\([A-Z]\)] ? *)
Definition has_paren_prefix (s : ustr) : bool :=
  match s with
  | a :: c :: b :: _ => (a =? 40) && is_AZ c && (b =? 41)
  | _ => false
  end.

(** [re.sub(r'^\([A-Z]\)\s*', '', s)] *)
Definition strip_paren_prefix (s : ustr) : ustr :=
  match s with
  | a :: c :: b :: t =>
      if (a =? 40) && is_AZ c && (b =? 41) then lstrip t else s
  | _ => s
  end.

(** [s.replace(',', '')] *)
Definition remove_commas (s : ustr) : ustr :=
  filter (fun c => negb (c =? 44)) s.

(** The code points [str.upper] changes, each with its upper case
    (Unicode 14.0): the simple mappings and the special ones, under which
    one code point becomes two or three.  [str.upper] maps a text code
    point by code point, whatever surrounds it. *)
Definition upper_table : list (N * list N) :=
  [(97, [65]); (98, [66]); (99, [67]); (100, [68]); (101, [69]); (102, [70]);
   (103, [71]); (104, [72]); (105, [73]); (106, [74]); (107, [75]);
   (108, [76]); (109, [77]); (110, [78]); (111, [79]); (112, [80]);
   (113, [81]); (114, [82]); (115, [83]); (116, [84]); (117, [85]);
   (118, [86]); (119, [87]); (120, [88]); (121, [89]); (122, [90]);
   (181, [924]); (223, [83; 83]); (224, [192]); (225, [193]); (226, [194]);
   (227, [195]); (228, [196]); (229, [197]); (230, [198]); (231, [199]);
   (232, [200]); (233, [201]); (234, [202]); (235, [203]); (236, [204]);
   (237, [205]); (238, [206]); (239, [207]); (240, [208]); (241, [209]);
   (242, [210]); (243, [211]); (244, [212]); (245, [213]); (246, [214]);
   (248, [216]); (249, [217]); (250, [218]); (251, [219]); (252, [220]);
   (253, [221]); (254, [222]); (255, [376]); (257, [256]); (259, [258]);
   (261, [260]); (263, [262]); (265, [264]); (267, [266]); (269, [268]);
   (271, [270]); (273, [272]); (275, [274]); (277, [276]); (279, [278]);
   (281, [280]); (283, [282]); (285, [284]); (287, [286]); (289, [288]);
   (291, [290]); (293, [292]); (295, [294]); (297, [296]); (299, [298]);
   (301, [300]); (303, [302]); (305, [73]); (307, [306]); (309, [308]);
   (311, [310]); (314, [313]); (316, [315]); (318, [317]); (320, [319]);
   (322, [321]); (324, [323]); (326, [325]); (328, [327]); (329, [700; 78]);
   (331, [330]); (333, [332]); (335, [334]); (337, [336]); (339, [338]);
   (341, [340]); (343, [342]); (345, [344]); (347, [346]); (349, [348]);
   (351, [350]); (353, [352]); (355, [354]); (357, [356]); (359, [358]);
   (361, [360]); (363, [362]); (365, [364]); (367, [366]); (369, [368]);
   (371, [370]); (373, [372]); (375, [374]); (378, [377]); (380, [379]);
   (382, [381]); (383, [83]); (384, [579]); (387, [386]); (389, [388]);
   (392, [391]); (396, [395]); (402, [401]); (405, [502]); (409, [408]);
   (410, [573]); (414, [544]); (417, [416]); (419, [418]); (421, [420]);
   (424, [423]); (429, [428]); (432, [431]); (436, [435]); (438, [437]);
   (441, [440]); (445, [444]); (447, [503]); (453, [452]); (454, [452]);
   (456, [455]); (457, [455]); (459, [458]); (460, [458]); (462, [461]);
   (464, [463]); (466, [465]); (468, [467]); (470, [469]); (472, [471]);
   (474, [473]); (476, [475]); (477, [398]); (479, [478]); (481, [480]);
   (483, [482]); (485, [484]); (487, [486]); (489, [488]); (491, [490]);
   (493, [492]); (495, [494]); (496, [74; 780]); (498, [497]); (499, [497]);
   (501, [500]); (505, [504]); (507, [506]); (509, [508]); (511, [510]);
   (513, [512]); (515, [514]); (517, [516]); (519, [518]); (521, [520]);
   (523, [522]); (525, [524]); (527, [526]); (529, [528]); (531, [530]);
   (533, [532]); (535, [534]); (537, [536]); (539, [538]); (541, [540]);
   (543, [542]); (547, [546]); (549, [548]); (551, [550]); (553, [552]);
   (555, [554]); (557, [556]); (559, [558]); (561, [560]); (563, [562]);
   (572, [571]); (575, [11390]); (576, [11391]); (578, [577]); (583, [582]);
   (585, [584]); (587, [586]); (589, [588]); (591, [590]); (592, [11375]);
   (593, [11373]); (594, [11376]); (595, [385]); (596, [390]); (598, [393]);
   (599, [394]); (601, [399]); (603, [400]); (604, [42923]); (608, [403]);
   (609, [42924]); (611, [404]); (613, [42893]); (614, [42922]);
   (616, [407]); (617, [406]); (618, [42926]); (619, [11362]);
   (620, [42925]); (623, [412]); (625, [11374]); (626, [413]); (629, [415]);
   (637, [11364]); (640, [422]); (642, [42949]); (643, [425]);
   (647, [42929]); (648, [430]); (649, [580]); (650, [433]); (651, [434]);
   (652, [581]); (658, [439]); (669, [42930]); (670, [42928]); (837, [921]);
   (881, [880]); (883, [882]); (887, [886]); (891, [1021]); (892, [1022]);
   (893, [1023]); (912, [921; 776; 769]); (940, [902]); (941, [904]);
   (942, [905]); (943, [906]); (944, [933; 776; 769]); (945, [913]);
   (946, [914]); (947, [915]); (948, [916]); (949, [917]); (950, [918]);
   (951, [919]); (952, [920]); (953, [921]); (954, [922]); (955, [923]);
   (956, [924]); (957, [925]); (958, [926]); (959, [927]); (960, [928]);
   (961, [929]); (962, [931]); (963, [931]); (964, [932]); (965, [933]);
   (966, [934]); (967, [935]); (968, [936]); (969, [937]); (970, [938]);
   (971, [939]); (972, [908]); (973, [910]); (974, [911]); (976, [914]);
   (977, [920]); (981, [934]); (982, [928]); (983, [975]); (985, [984]);
   (987, [986]); (989, [988]); (991, [990]); (993, [992]); (995, [994]);
   (997, [996]); (999, [998]); (1001, [1000]); (1003, [1002]);
   (1005, [1004]); (1007, [1006]); (1008, [922]); (1009, [929]);
   (1010, [1017]); (1011, [895]); (1013, [917]); (1016, [1015]);
   (1019, [1018]); (1072, [1040]); (1073, [1041]); (1074, [1042]);
   (1075, [1043]); (1076, [1044]); (1077, [1045]); (1078, [1046]);
   (1079, [1047]); (1080, [1048]); (1081, [1049]); (1082, [1050]);
   (1083, [1051]); (1084, [1052]); (1085, [1053]); (1086, [1054]);
   (1087, [1055]); (1088, [1056]); (1089, [1057]); (1090, [1058]);
   (1091, [1059]); (1092, [1060]); (1093, [1061]); (1094, [1062]);
   (1095, [1063]); (1096, [1064]); (1097, [1065]); (1098, [1066]);
   (1099, [1067]); (1100, [1068]); (1101, [1069]); (1102, [1070]);
   (1103, [1071]); (1104, [1024]); (1105, [1025]); (1106, [1026]);
   (1107, [1027]); (1108, [1028]); (1109, [1029]); (1110, [1030]);
   (1111, [1031]); (1112, [1032]); (1113, [1033]); (1114, [1034]);
   (1115, [1035]); (1116, [1036]); (1117, [1037]); (1118, [1038]);
   (1119, [1039]); (1121, [1120]); (1123, [1122]); (1125, [1124]);
   (1127, [1126]); (1129, [1128]); (1131, [1130]); (1133, [1132]);
   (1135, [1134]); (1137, [1136]); (1139, [1138]); (1141, [1140]);
   (1143, [1142]); (1145, [1144]); (1147, [1146]); (1149, [1148]);
   (1151, [1150]); (1153, [1152]); (1163, [1162]); (1165, [1164]);
   (1167, [1166]); (1169, [1168]); (1171, [1170]); (1173, [1172]);
   (1175, [1174]); (1177, [1176]); (1179, [1178]); (1181, [1180]);
   (1183, [1182]); (1185, [1184]); (1187, [1186]); (1189, [1188]);
   (1191, [1190]); (1193, [1192]); (1195, [1194]); (1197, [1196]);
   (1199, [1198]); (1201, [1200]); (1203, [1202]); (1205, [1204]);
   (1207, [1206]); (1209, [1208]); (1211, [1210]); (1213, [1212]);
   (1215, [1214]); (1218, [1217]); (1220, [1219]); (1222, [1221]);
   (1224, [1223]); (1226, [1225]); (1228, [1227]); (1230, [1229]);
   (1231, [1216]); (1233, [1232]); (1235, [1234]); (1237, [1236]);
   (1239, [1238]); (1241, [1240]); (1243, [1242]); (1245, [1244]);
   (1247, [1246]); (1249, [1248]); (1251, [1250]); (1253, [1252]);
   (1255, [1254]); (1257, [1256]); (1259, [1258]); (1261, [1260]);
   (1263, [1262]); (1265, [1264]); (1267, [1266]); (1269, [1268]);
   (1271, [1270]); (1273, [1272]); (1275, [1274]); (1277, [1276]);
   (1279, [1278]); (1281, [1280]); (1283, [1282]); (1285, [1284]);
   (1287, [1286]); (1289, [1288]); (1291, [1290]); (1293, [1292]);
   (1295, [1294]); (1297, [1296]); (1299, [1298]); (1301, [1300]);
   (1303, [1302]); (1305, [1304]); (1307, [1306]); (1309, [1308]);
   (1311, [1310]); (1313, [1312]); (1315, [1314]); (1317, [1316]);
   (1319, [1318]); (1321, [1320]); (1323, [1322]); (1325, [1324]);
   (1327, [1326]); (1377, [1329]); (1378, [1330]); (1379, [1331]);
   (1380, [1332]); (1381, [1333]); (1382, [1334]); (1383, [1335]);
   (1384, [1336]); (1385, [1337]); (1386, [1338]); (1387, [1339]);
   (1388, [1340]); (1389, [1341]); (1390, [1342]); (1391, [1343]);
   (1392, [1344]); (1393, [1345]); (1394, [1346]); (1395, [1347]);
   (1396, [1348]); (1397, [1349]); (1398, [1350]); (1399, [1351]);
   (1400, [1352]); (1401, [1353]); (1402, [1354]); (1403, [1355]);
   (1404, [1356]); (1405, [1357]); (1406, [1358]); (1407, [1359]);
   (1408, [1360]); (1409, [1361]); (1410, [1362]); (1411, [1363]);
   (1412, [1364]); (1413, [1365]); (1414, [1366]); (1415, [1333; 1362]);
   (4304, [7312]); (4305, [7313]); (4306, [7314]); (4307, [7315]);
   (4308, [7316]); (4309, [7317]); (4310, [7318]); (4311, [7319]);
   (4312, [7320]); (4313, [7321]); (4314, [7322]); (4315, [7323]);
   (4316, [7324]); (4317, [7325]); (4318, [7326]); (4319, [7327]);
   (4320, [7328]); (4321, [7329]); (4322, [7330]); (4323, [7331]);
   (4324, [7332]); (4325, [7333]); (4326, [7334]); (4327, [7335]);
   (4328, [7336]); (4329, [7337]); (4330, [7338]); (4331, [7339]);
   (4332, [7340]); (4333, [7341]); (4334, [7342]); (4335, [7343]);
   (4336, [7344]); (4337, [7345]); (4338, [7346]); (4339, [7347]);
   (4340, [7348]); (4341, [7349]); (4342, [7350]); (4343, [7351]);
   (4344, [7352]); (4345, [7353]); (4346, [7354]); (4349, [7357]);
   (4350, [7358]); (4351, [7359]); (5112, [5104]); (5113, [5105]);
   (5114, [5106]); (5115, [5107]); (5116, [5108]); (5117, [5109]);
   (7296, [1042]); (7297, [1044]); (7298, [1054]); (7299, [1057]);
   (7300, [1058]); (7301, [1058]); (7302, [1066]); (7303, [1122]);
   (7304, [42570]); (7545, [42877]); (7549, [11363]); (7566, [42950]);
   (7681, [7680]); (7683, [7682]); (7685, [7684]); (7687, [7686]);
   (7689, [7688]); (7691, [7690]); (7693, [7692]); (7695, [7694]);
   (7697, [7696]); (7699, [7698]); (7701, [7700]); (7703, [7702]);
   (7705, [7704]); (7707, [7706]); (7709, [7708]); (7711, [7710]);
   (7713, [7712]); (7715, [7714]); (7717, [7716]); (7719, [7718]);
   (7721, [7720]); (7723, [7722]); (7725, [7724]); (7727, [7726]);
   (7729, [7728]); (7731, [7730]); (7733, [7732]); (7735, [7734]);
   (7737, [7736]); (7739, [7738]); (7741, [7740]); (7743, [7742]);
   (7745, [7744]); (7747, [7746]); (7749, [7748]); (7751, [7750]);
   (7753, [7752]); (7755, [7754]); (7757, [7756]); (7759, [7758]);
   (7761, [7760]); (7763, [7762]); (7765, [7764]); (7767, [7766]);
   (7769, [7768]); (7771, [7770]); (7773, [7772]); (7775, [7774]);
   (7777, [7776]); (7779, [7778]); (7781, [7780]); (7783, [7782]);
   (7785, [7784]); (7787, [7786]); (7789, [7788]); (7791, [7790]);
   (7793, [7792]); (7795, [7794]); (7797, [7796]); (7799, [7798]);
   (7801, [7800]); (7803, [7802]); (7805, [7804]); (7807, [7806]);
   (7809, [7808]); (7811, [7810]); (7813, [7812]); (7815, [7814]);
   (7817, [7816]); (7819, [7818]); (7821, [7820]); (7823, [7822]);
   (7825, [7824]); (7827, [7826]); (7829, [7828]); (7830, [72; 817]);
   (7831, [84; 776]); (7832, [87; 778]); (7833, [89; 778]);
   (7834, [65; 702]); (7835, [7776]); (7841, [7840]); (7843, [7842]);
   (7845, [7844]); (7847, [7846]); (7849, [7848]); (7851, [7850]);
   (7853, [7852]); (7855, [7854]); (7857, [7856]); (7859, [7858]);
   (7861, [7860]); (7863, [7862]); (7865, [7864]); (7867, [7866]);
   (7869, [7868]); (7871, [7870]); (7873, [7872]); (7875, [7874]);
   (7877, [7876]); (7879, [7878]); (7881, [7880]); (7883, [7882]);
   (7885, [7884]); (7887, [7886]); (7889, [7888]); (7891, [7890]);
   (7893, [7892]); (7895, [7894]); (7897, [7896]); (7899, [7898]);
   (7901, [7900]); (7903, [7902]); (7905, [7904]); (7907, [7906]);
   (7909, [7908]); (7911, [7910]); (7913, [7912]); (7915, [7914]);
   (7917, [7916]); (7919, [7918]); (7921, [7920]); (7923, [7922]);
   (7925, [7924]); (7927, [7926]); (7929, [7928]); (7931, [7930]);
   (7933, [7932]); (7935, [7934]); (7936, [7944]); (7937, [7945]);
   (7938, [7946]); (7939, [7947]); (7940, [7948]); (7941, [7949]);
   (7942, [7950]); (7943, [7951]); (7952, [7960]); (7953, [7961]);
   (7954, [7962]); (7955, [7963]); (7956, [7964]); (7957, [7965]);
   (7968, [7976]); (7969, [7977]); (7970, [7978]); (7971, [7979]);
   (7972, [7980]); (7973, [7981]); (7974, [7982]); (7975, [7983]);
   (7984, [7992]); (7985, [7993]); (7986, [7994]); (7987, [7995]);
   (7988, [7996]); (7989, [7997]); (7990, [7998]); (7991, [7999]);
   (8000, [8008]); (8001, [8009]); (8002, [8010]); (8003, [8011]);
   (8004, [8012]); (8005, [8013]); (8016, [933; 787]); (8017, [8025]);
   (8018, [933; 787; 768]); (8019, [8027]); (8020, [933; 787; 769]);
   (8021, [8029]); (8022, [933; 787; 834]); (8023, [8031]); (8032, [8040]);
   (8033, [8041]); (8034, [8042]); (8035, [8043]); (8036, [8044]);
   (8037, [8045]); (8038, [8046]); (8039, [8047]); (8048, [8122]);
   (8049, [8123]); (8050, [8136]); (8051, [8137]); (8052, [8138]);
   (8053, [8139]); (8054, [8154]); (8055, [8155]); (8056, [8184]);
   (8057, [8185]); (8058, [8170]); (8059, [8171]); (8060, [8186]);
   (8061, [8187]); (8064, [7944; 921]); (8065, [7945; 921]);
   (8066, [7946; 921]); (8067, [7947; 921]); (8068, [7948; 921]);
   (8069, [7949; 921]); (8070, [7950; 921]); (8071, [7951; 921]);
   (8072, [7944; 921]); (8073, [7945; 921]); (8074, [7946; 921]);
   (8075, [7947; 921]); (8076, [7948; 921]); (8077, [7949; 921]);
   (8078, [7950; 921]); (8079, [7951; 921]); (8080, [7976; 921]);
   (8081, [7977; 921]); (8082, [7978; 921]); (8083, [7979; 921]);
   (8084, [7980; 921]); (8085, [7981; 921]); (8086, [7982; 921]);
   (8087, [7983; 921]); (8088, [7976; 921]); (8089, [7977; 921]);
   (8090, [7978; 921]); (8091, [7979; 921]); (8092, [7980; 921]);
   (8093, [7981; 921]); (8094, [7982; 921]); (8095, [7983; 921]);
   (8096, [8040; 921]); (8097, [8041; 921]); (8098, [8042; 921]);
   (8099, [8043; 921]); (8100, [8044; 921]); (8101, [8045; 921]);
   (8102, [8046; 921]); (8103, [8047; 921]); (8104, [8040; 921]);
   (8105, [8041; 921]); (8106, [8042; 921]); (8107, [8043; 921]);
   (8108, [8044; 921]); (8109, [8045; 921]); (8110, [8046; 921]);
   (8111, [8047; 921]); (8112, [8120]); (8113, [8121]); (8114, [8122; 921]);
   (8115, [913; 921]); (8116, [902; 921]); (8118, [913; 834]);
   (8119, [913; 834; 921]); (8124, [913; 921]); (8126, [921]);
   (8130, [8138; 921]); (8131, [919; 921]); (8132, [905; 921]);
   (8134, [919; 834]); (8135, [919; 834; 921]); (8140, [919; 921]);
   (8144, [8152]); (8145, [8153]); (8146, [921; 776; 768]);
   (8147, [921; 776; 769]); (8150, [921; 834]); (8151, [921; 776; 834]);
   (8160, [8168]); (8161, [8169]); (8162, [933; 776; 768]);
   (8163, [933; 776; 769]); (8164, [929; 787]); (8165, [8172]);
   (8166, [933; 834]); (8167, [933; 776; 834]); (8178, [8186; 921]);
   (8179, [937; 921]); (8180, [911; 921]); (8182, [937; 834]);
   (8183, [937; 834; 921]); (8188, [937; 921]); (8526, [8498]);
   (8560, [8544]); (8561, [8545]); (8562, [8546]); (8563, [8547]);
   (8564, [8548]); (8565, [8549]); (8566, [8550]); (8567, [8551]);
   (8568, [8552]); (8569, [8553]); (8570, [8554]); (8571, [8555]);
   (8572, [8556]); (8573, [8557]); (8574, [8558]); (8575, [8559]);
   (8580, [8579]); (9424, [9398]); (9425, [9399]); (9426, [9400]);
   (9427, [9401]); (9428, [9402]); (9429, [9403]); (9430, [9404]);
   (9431, [9405]); (9432, [9406]); (9433, [9407]); (9434, [9408]);
   (9435, [9409]); (9436, [9410]); (9437, [9411]); (9438, [9412]);
   (9439, [9413]); (9440, [9414]); (9441, [9415]); (9442, [9416]);
   (9443, [9417]); (9444, [9418]); (9445, [9419]); (9446, [9420]);
   (9447, [9421]); (9448, [9422]); (9449, [9423]); (11312, [11264]);
   (11313, [11265]); (11314, [11266]); (11315, [11267]); (11316, [11268]);
   (11317, [11269]); (11318, [11270]); (11319, [11271]); (11320, [11272]);
   (11321, [11273]); (11322, [11274]); (11323, [11275]); (11324, [11276]);
   (11325, [11277]); (11326, [11278]); (11327, [11279]); (11328, [11280]);
   (11329, [11281]); (11330, [11282]); (11331, [11283]); (11332, [11284]);
   (11333, [11285]); (11334, [11286]); (11335, [11287]); (11336, [11288]);
   (11337, [11289]); (11338, [11290]); (11339, [11291]); (11340, [11292]);
   (11341, [11293]); (11342, [11294]); (11343, [11295]); (11344, [11296]);
   (11345, [11297]); (11346, [11298]); (11347, [11299]); (11348, [11300]);
   (11349, [11301]); (11350, [11302]); (11351, [11303]); (11352, [11304]);
   (11353, [11305]); (11354, [11306]); (11355, [11307]); (11356, [11308]);
   (11357, [11309]); (11358, [11310]); (11359, [11311]); (11361, [11360]);
   (11365, [570]); (11366, [574]); (11368, [11367]); (11370, [11369]);
   (11372, [11371]); (11379, [11378]); (11382, [11381]); (11393, [11392]);
   (11395, [11394]); (11397, [11396]); (11399, [11398]); (11401, [11400]);
   (11403, [11402]); (11405, [11404]); (11407, [11406]); (11409, [11408]);
   (11411, [11410]); (11413, [11412]); (11415, [11414]); (11417, [11416]);
   (11419, [11418]); (11421, [11420]); (11423, [11422]); (11425, [11424]);
   (11427, [11426]); (11429, [11428]); (11431, [11430]); (11433, [11432]);
   (11435, [11434]); (11437, [11436]); (11439, [11438]); (11441, [11440]);
   (11443, [11442]); (11445, [11444]); (11447, [11446]); (11449, [11448]);
   (11451, [11450]); (11453, [11452]); (11455, [11454]); (11457, [11456]);
   (11459, [11458]); (11461, [11460]); (11463, [11462]); (11465, [11464]);
   (11467, [11466]); (11469, [11468]); (11471, [11470]); (11473, [11472]);
   (11475, [11474]); (11477, [11476]); (11479, [11478]); (11481, [11480]);
   (11483, [11482]); (11485, [11484]); (11487, [11486]); (11489, [11488]);
   (11491, [11490]); (11500, [11499]); (11502, [11501]); (11507, [11506]);
   (11520, [4256]); (11521, [4257]); (11522, [4258]); (11523, [4259]);
   (11524, [4260]); (11525, [4261]); (11526, [4262]); (11527, [4263]);
   (11528, [4264]); (11529, [4265]); (11530, [4266]); (11531, [4267]);
   (11532, [4268]); (11533, [4269]); (11534, [4270]); (11535, [4271]);
   (11536, [4272]); (11537, [4273]); (11538, [4274]); (11539, [4275]);
   (11540, [4276]); (11541, [4277]); (11542, [4278]); (11543, [4279]);
   (11544, [4280]); (11545, [4281]); (11546, [4282]); (11547, [4283]);
   (11548, [4284]); (11549, [4285]); (11550, [4286]); (11551, [4287]);
   (11552, [4288]); (11553, [4289]); (11554, [4290]); (11555, [4291]);
   (11556, [4292]); (11557, [4293]); (11559, [4295]); (11565, [4301]);
   (42561, [42560]); (42563, [42562]); (42565, [42564]); (42567, [42566]);
   (42569, [42568]); (42571, [42570]); (42573, [42572]); (42575, [42574]);
   (42577, [42576]); (42579, [42578]); (42581, [42580]); (42583, [42582]);
   (42585, [42584]); (42587, [42586]); (42589, [42588]); (42591, [42590]);
   (42593, [42592]); (42595, [42594]); (42597, [42596]); (42599, [42598]);
   (42601, [42600]); (42603, [42602]); (42605, [42604]); (42625, [42624]);
   (42627, [42626]); (42629, [42628]); (42631, [42630]); (42633, [42632]);
   (42635, [42634]); (42637, [42636]); (42639, [42638]); (42641, [42640]);
   (42643, [42642]); (42645, [42644]); (42647, [42646]); (42649, [42648]);
   (42651, [42650]); (42787, [42786]); (42789, [42788]); (42791, [42790]);
   (42793, [42792]); (42795, [42794]); (42797, [42796]); (42799, [42798]);
   (42803, [42802]); (42805, [42804]); (42807, [42806]); (42809, [42808]);
   (42811, [42810]); (42813, [42812]); (42815, [42814]); (42817, [42816]);
   (42819, [42818]); (42821, [42820]); (42823, [42822]); (42825, [42824]);
   (42827, [42826]); (42829, [42828]); (42831, [42830]); (42833, [42832]);
   (42835, [42834]); (42837, [42836]); (42839, [42838]); (42841, [42840]);
   (42843, [42842]); (42845, [42844]); (42847, [42846]); (42849, [42848]);
   (42851, [42850]); (42853, [42852]); (42855, [42854]); (42857, [42856]);
   (42859, [42858]); (42861, [42860]); (42863, [42862]); (42874, [42873]);
   (42876, [42875]); (42879, [42878]); (42881, [42880]); (42883, [42882]);
   (42885, [42884]); (42887, [42886]); (42892, [42891]); (42897, [42896]);
   (42899, [42898]); (42900, [42948]); (42903, [42902]); (42905, [42904]);
   (42907, [42906]); (42909, [42908]); (42911, [42910]); (42913, [42912]);
   (42915, [42914]); (42917, [42916]); (42919, [42918]); (42921, [42920]);
   (42933, [42932]); (42935, [42934]); (42937, [42936]); (42939, [42938]);
   (42941, [42940]); (42943, [42942]); (42945, [42944]); (42947, [42946]);
   (42952, [42951]); (42954, [42953]); (42961, [42960]); (42967, [42966]);
   (42969, [42968]); (42998, [42997]); (43859, [42931]); (43888, [5024]);
   (43889, [5025]); (43890, [5026]); (43891, [5027]); (43892, [5028]);
   (43893, [5029]); (43894, [5030]); (43895, [5031]); (43896, [5032]);
   (43897, [5033]); (43898, [5034]); (43899, [5035]); (43900, [5036]);
   (43901, [5037]); (43902, [5038]); (43903, [5039]); (43904, [5040]);
   (43905, [5041]); (43906, [5042]); (43907, [5043]); (43908, [5044]);
   (43909, [5045]); (43910, [5046]); (43911, [5047]); (43912, [5048]);
   (43913, [5049]); (43914, [5050]); (43915, [5051]); (43916, [5052]);
   (43917, [5053]); (43918, [5054]); (43919, [5055]); (43920, [5056]);
   (43921, [5057]); (43922, [5058]); (43923, [5059]); (43924, [5060]);
   (43925, [5061]); (43926, [5062]); (43927, [5063]); (43928, [5064]);
   (43929, [5065]); (43930, [5066]); (43931, [5067]); (43932, [5068]);
   (43933, [5069]); (43934, [5070]); (43935, [5071]); (43936, [5072]);
   (43937, [5073]); (43938, [5074]); (43939, [5075]); (43940, [5076]);
   (43941, [5077]); (43942, [5078]); (43943, [5079]); (43944, [5080]);
   (43945, [5081]); (43946, [5082]); (43947, [5083]); (43948, [5084]);
   (43949, [5085]); (43950, [5086]); (43951, [5087]); (43952, [5088]);
   (43953, [5089]); (43954, [5090]); (43955, [5091]); (43956, [5092]);
   (43957, [5093]); (43958, [5094]); (43959, [5095]); (43960, [5096]);
   (43961, [5097]); (43962, [5098]); (43963, [5099]); (43964, [5100]);
   (43965, [5101]); (43966, [5102]); (43967, [5103]); (64256, [70; 70]);
   (64257, [70; 73]); (64258, [70; 76]); (64259, [70; 70; 73]);
   (64260, [70; 70; 76]); (64261, [83; 84]); (64262, [83; 84]);
   (64275, [1348; 1350]); (64276, [1348; 1333]); (64277, [1348; 1339]);
   (64278, [1358; 1350]); (64279, [1348; 1341]); (65345, [65313]);
   (65346, [65314]); (65347, [65315]); (65348, [65316]); (65349, [65317]);
   (65350, [65318]); (65351, [65319]); (65352, [65320]); (65353, [65321]);
   (65354, [65322]); (65355, [65323]); (65356, [65324]); (65357, [65325]);
   (65358, [65326]); (65359, [65327]); (65360, [65328]); (65361, [65329]);
   (65362, [65330]); (65363, [65331]); (65364, [65332]); (65365, [65333]);
   (65366, [65334]); (65367, [65335]); (65368, [65336]); (65369, [65337]);
   (65370, [65338]); (66600, [66560]); (66601, [66561]); (66602, [66562]);
   (66603, [66563]); (66604, [66564]); (66605, [66565]); (66606, [66566]);
   (66607, [66567]); (66608, [66568]); (66609, [66569]); (66610, [66570]);
   (66611, [66571]); (66612, [66572]); (66613, [66573]); (66614, [66574]);
   (66615, [66575]); (66616, [66576]); (66617, [66577]); (66618, [66578]);
   (66619, [66579]); (66620, [66580]); (66621, [66581]); (66622, [66582]);
   (66623, [66583]); (66624, [66584]); (66625, [66585]); (66626, [66586]);
   (66627, [66587]); (66628, [66588]); (66629, [66589]); (66630, [66590]);
   (66631, [66591]); (66632, [66592]); (66633, [66593]); (66634, [66594]);
   (66635, [66595]); (66636, [66596]); (66637, [66597]); (66638, [66598]);
   (66639, [66599]); (66776, [66736]); (66777, [66737]); (66778, [66738]);
   (66779, [66739]); (66780, [66740]); (66781, [66741]); (66782, [66742]);
   (66783, [66743]); (66784, [66744]); (66785, [66745]); (66786, [66746]);
   (66787, [66747]); (66788, [66748]); (66789, [66749]); (66790, [66750]);
   (66791, [66751]); (66792, [66752]); (66793, [66753]); (66794, [66754]);
   (66795, [66755]); (66796, [66756]); (66797, [66757]); (66798, [66758]);
   (66799, [66759]); (66800, [66760]); (66801, [66761]); (66802, [66762]);
   (66803, [66763]); (66804, [66764]); (66805, [66765]); (66806, [66766]);
   (66807, [66767]); (66808, [66768]); (66809, [66769]); (66810, [66770]);
   (66811, [66771]); (66967, [66928]); (66968, [66929]); (66969, [66930]);
   (66970, [66931]); (66971, [66932]); (66972, [66933]); (66973, [66934]);
   (66974, [66935]); (66975, [66936]); (66976, [66937]); (66977, [66938]);
   (66979, [66940]); (66980, [66941]); (66981, [66942]); (66982, [66943]);
   (66983, [66944]); (66984, [66945]); (66985, [66946]); (66986, [66947]);
   (66987, [66948]); (66988, [66949]); (66989, [66950]); (66990, [66951]);
   (66991, [66952]); (66992, [66953]); (66993, [66954]); (66995, [66956]);
   (66996, [66957]); (66997, [66958]); (66998, [66959]); (66999, [66960]);
   (67000, [66961]); (67001, [66962]); (67003, [66964]); (67004, [66965]);
   (68800, [68736]); (68801, [68737]); (68802, [68738]); (68803, [68739]);
   (68804, [68740]); (68805, [68741]); (68806, [68742]); (68807, [68743]);
   (68808, [68744]); (68809, [68745]); (68810, [68746]); (68811, [68747]);
   (68812, [68748]); (68813, [68749]); (68814, [68750]); (68815, [68751]);
   (68816, [68752]); (68817, [68753]); (68818, [68754]); (68819, [68755]);
   (68820, [68756]); (68821, [68757]); (68822, [68758]); (68823, [68759]);
   (68824, [68760]); (68825, [68761]); (68826, [68762]); (68827, [68763]);
   (68828, [68764]); (68829, [68765]); (68830, [68766]); (68831, [68767]);
   (68832, [68768]); (68833, [68769]); (68834, [68770]); (68835, [68771]);
   (68836, [68772]); (68837, [68773]); (68838, [68774]); (68839, [68775]);
   (68840, [68776]); (68841, [68777]); (68842, [68778]); (68843, [68779]);
   (68844, [68780]); (68845, [68781]); (68846, [68782]); (68847, [68783]);
   (68848, [68784]); (68849, [68785]); (68850, [68786]); (71872, [71840]);
   (71873, [71841]); (71874, [71842]); (71875, [71843]); (71876, [71844]);
   (71877, [71845]); (71878, [71846]); (71879, [71847]); (71880, [71848]);
   (71881, [71849]); (71882, [71850]); (71883, [71851]); (71884, [71852]);
   (71885, [71853]); (71886, [71854]); (71887, [71855]); (71888, [71856]);
   (71889, [71857]); (71890, [71858]); (71891, [71859]); (71892, [71860]);
   (71893, [71861]); (71894, [71862]); (71895, [71863]); (71896, [71864]);
   (71897, [71865]); (71898, [71866]); (71899, [71867]); (71900, [71868]);
   (71901, [71869]); (71902, [71870]); (71903, [71871]); (93792, [93760]);
   (93793, [93761]); (93794, [93762]); (93795, [93763]); (93796, [93764]);
   (93797, [93765]); (93798, [93766]); (93799, [93767]); (93800, [93768]);
   (93801, [93769]); (93802, [93770]); (93803, [93771]); (93804, [93772]);
   (93805, [93773]); (93806, [93774]); (93807, [93775]); (93808, [93776]);
   (93809, [93777]); (93810, [93778]); (93811, [93779]); (93812, [93780]);
   (93813, [93781]); (93814, [93782]); (93815, [93783]); (93816, [93784]);
   (93817, [93785]); (93818, [93786]); (93819, [93787]); (93820, [93788]);
   (93821, [93789]); (93822, [93790]); (93823, [93791]); (125218, [125184]);
   (125219, [125185]); (125220, [125186]); (125221, [125187]);
   (125222, [125188]); (125223, [125189]); (125224, [125190]);
   (125225, [125191]); (125226, [125192]); (125227, [125193]);
   (125228, [125194]); (125229, [125195]); (125230, [125196]);
   (125231, [125197]); (125232, [125198]); (125233, [125199]);
   (125234, [125200]); (125235, [125201]); (125236, [125202]);
   (125237, [125203]); (125238, [125204]); (125239, [125205]);
   (125240, [125206]); (125241, [125207]); (125242, [125208]);
   (125243, [125209]); (125244, [125210]); (125245, [125211]);
   (125246, [125212]); (125247, [125213]); (125248, [125214]);
   (125249, [125215]); (125250, [125216]); (125251, [125217])].

Fixpoint lookup (c : N) (t : list (N * ustr)) : option ustr :=
  match t with
  | [] => None
  | (k, v) :: t => if k =? c then Some v else lookup c t
  end.

(** The upper case of one code point. *)
Definition upper_of (c : N) : ustr :=
  match lookup c upper_table with
  | Some v => v
  | None => [c]
  end.

(** [s.upper()] *)
Definition upper (s : ustr) : ustr := flat_map upper_of s.

Definition normalize_code (code : ustr) : ustr :=
  let code := upper (strip code) in
  collapse_ws code.

Definition normalize_name (name : ustr) : ustr :=
  let name := upper (strip name) in
  let name := strip_paren_prefix name in
  let name := remove_commas name in
  collapse_ws name.

Fixpoint ustr_eqb (a b : ustr) : bool :=
  match a, b with
  | [], [] => true
  | x :: a, y :: b => (x =? y) && ustr_eqb a b
  | _, _ => false
  end.

(** Every white-space code point is a space and no two are adjacent. *)
Fixpoint tidy_from (prev_ws : bool) (s : ustr) : bool :=
  match s with
  | [] => true
  | c :: t =>
      if isspace c
      then (c =? 32) && negb prev_ws && tidy_from true t
      else tidy_from false t
  end.

Definition all_space (s : ustr) : bool := forallb isspace s.

End Unicode.

(** ** Infinite floats *)

(** A float cell can also hold [inf] or [-inf].  Such a value is present
    for [pd.notna] and truthy, [str] prints it as [inf] or [-inf], it has
    no [day] attribute and is no [str]; [int] raises [OverflowError] on
    it, which it does on no finite float.  The two extractors are embedded
    once more over rows that may hold such cells. *)
Module Infinite.

Inductive xcell :=
| Fin (c : cell)            (* a cell as above *)
| Inf (negative : bool).    (* [inf], [-inf] *)

Definition xrow := list xcell.

Inductive xexn := Exn (e : exn) | OverflowError.

Inductive xresult (A : Type) : Type :=
| XOk (a : A)
| XRaise (e : xexn).
Arguments XOk {A} a.
Arguments XRaise {A} e.

Definition xbind {A B} (m : xresult A) (k : A -> xresult B) : xresult B :=
  match m with
  | XOk a => k a
  | XRaise e => XRaise e
  end.

Notation "x <~ m ;; k" := (xbind m (fun x => k))
  (at level 61, m at next level, right associativity).

Definition lift {A} (m : result A) : xresult A :=
  match m with
  | Ok a => XOk a
  | Raise e => XRaise (Exn e)
  end.

Fixpoint mapM {A B} (f : A -> xresult B) (l : list A) : xresult (list B) :=
  match l with
  | [] => XOk []
  | a :: t => b <~ f a ;; bs <~ mapM f t ;; XOk (b :: bs)
  end.

Fixpoint foldM {S A} (f : S -> A -> xresult S) (l : list A) (s : S) : xresult S :=
  match l with
  | [] => XOk s
  | a :: t => s' <~ f s a ;; foldM f t s'
  end.

(** [pd.notna(c)] *)
Definition notna (c : xcell) : bool :=
  match c with
  | Fin c => notna c
  | Inf _ => true
  end.

(** [bool(c)] *)
Definition truthy (c : xcell) : bool :=
  match c with
  | Fin c => truthy c
  | Inf _ => true
  end.

(** [str(c)] *)
Definition py_str (c : xcell) : pystr :=
  match c with
  | Fin c => py_str c
  | Inf false => str "inf"
  | Inf true => str "-inf"
  end.

(** [row.iloc[i]] *)
Definition iloc (r : xrow) (i : nat) : xresult xcell :=
  match nth_error r i with
  | Some c => XOk c
  | None => XRaise (Exn IndexError)
  end.

(** [row.iloc[i] if len(row) > i and pd.notna(row.iloc[i]) else None] *)
Definition cell_or_none (r : xrow) (i : nat) : xcell :=
  if i <? List.length r
  then match nth_error r i with
       | Some c => if notna c then c else Fin CNone
       | None => Fin CNone
       end
  else Fin CNone.

(** [str(int(v)) if isinstance(v, float) else str(v)]; [int(inf)] raises. *)
Definition dossier_text (v : xcell) : xresult pystr :=
  match v with
  | Fin c => lift (dossier_text c)
  | Inf _ => XRaise OverflowError
  end.

(** The update of [current_date] by the date cell of a row: an infinite
    float has no [day] and is no [str]. *)
Definition next_date (current_date : option Z) (date_val : xcell) : option Z :=
  match date_val with
  | Fin c => next_date current_date c
  | Inf _ => current_date
  end.

Definition my_record (current_date : Z) (dossier nom : xcell) (code : pystr)
  : xresult record :=
  d <~ dossier_text dossier ;;
  XOk {| date := current_date;
         dossier := d;
         nom := Some (normalize_name (py_str nom));
         code := normalize_code code;
         source := MA_FACTURATION |}.

Definition my_row_records (current_date : option Z) (r : xrow) : xresult (list record) :=
  let dossier := cell_or_none r 1 in
  let nom := cell_or_none r 2 in
  let codes_str := cell_or_none r 3 in
  if truthy dossier && truthy nom && truthy codes_str && day_truthy current_date
  then
    match current_date with
    | Some d => mapM (my_record d dossier nom) (parse_billing_code (py_str codes_str))
    | None => XOk []
    end
  else XOk [].

(** One iteration of the loop of [parse_my_billing]. *)
Definition my_billing_row (st : my_state) (r : xrow) : xresult my_state :=
  c0 <~ iloc r 0 ;;
  let date_val := if notna c0 then c0 else Fin CNone in
  let current_date := next_date (current_date st) date_val in
  new <~ my_row_records current_date r ;;
  XOk {| current_date := current_date; my_records := my_records st ++ new |}.

Definition parse_my_billing (df : list xrow) : xresult (list record) :=
  st <~ foldM my_billing_row df my_init ;; XOk (my_records st).

(** [v and str(v).strip().upper() in labels] *)
Definition header_cell (labels : list pystr) (v : xcell) : bool :=
  truthy v && mem_str (upper (strip (py_str v))) labels.

(** [str(int(v)) if v and isinstance(v, float) else str(v) if v else None] *)
Definition next_dossier (dossier_val : xcell) : xresult (option pystr) :=
  if truthy dossier_val
  then d <~ dossier_text dossier_val ;; XOk (Some d)
  else XOk None.

Definition day_records (name : option pystr) (dos code : pystr) (r : xrow) : list record :=
  flat_map
    (fun day =>
       let col_idx := 6 + (day - 1) in
       if col_idx <? List.length r
       then match nth_error r col_idx with
            | Some cell_val =>
                if notna cell_val
                   && negb (pystr_eqb (strip (py_str cell_val)) [])
                then [ {| date := Z.of_nat day; dossier := dos; nom := name;
                          code := code; source := RAPPORT_HOPITAL |} ]
                else []
            | None => []
            end
       else [])
    (seq 1 31).

(** One iteration of the loop of [parse_hospital_report]. *)
Definition hospital_row (st : hosp_state) (r : xrow) : xresult hosp_state :=
  c0 <~ iloc r 0 ;;
  let nom_val := if notna c0 then c0 else Fin CNone in
  let dossier_val := cell_or_none r 1 in
  let code_val := cell_or_none r 2 in
  if header_cell NAME_HEADERS nom_val then XOk st
  else if header_cell DOSSIER_HEADERS dossier_val then XOk st
  else if header_cell CODE_HEADERS code_val then XOk st
  else
    st1 <~ (if truthy nom_val
            then d <~ next_dossier dossier_val ;;
                 XOk {| current_name := Some (normalize_name (py_str nom_val));
                        current_dossier := d;
                        hosp_records := hosp_records st |}
            else XOk st) ;;
    if dossier_truthy (current_dossier st1) && truthy code_val
    then
      match current_dossier st1 with
      | Some dos =>
          let code := normalize_code (py_str code_val) in
          XOk {| current_name := current_name st1;
                 current_dossier := current_dossier st1;
                 hosp_records :=
                   hosp_records st1 ++ day_records (current_name st1) dos code r |}
      | None => XOk st1
      end
    else XOk st1.

Definition parse_hospital_report (df : list xrow) : xresult (list record) :=
  st <~ foldM hospital_row df hosp_init ;; XOk (hosp_records st).

(** [parse_my_billing], [parse_hospital_report], then [compare_records]. *)
Definition run_comparison (my_df hosp_df : list xrow)
  : xresult (list record * list record * list record) :=
  my_records <~ parse_my_billing my_df ;;
  hospital_records <~ parse_hospital_report hosp_df ;;
  XOk (compare_records my_records hospital_records).

(** Is the file-number cell of the row an infinite float? *)
Definition infinite_dossier (r : xrow) : bool :=
  match nth_error r 1 with
  | Some (Inf _) => true
  | _ => false
  end.

(** The finite float that [pd.notna], [bool], [str] and the type tests do
    not tell from an infinite one; [int] does. *)
Definition view (c : xcell) : cell :=
  match c with
  | Fin c => c
  | Inf b => CFloat {| f_val := if b then (-1) # 1 else 1 # 1;
                       f_str := py_str (Inf b) |}
  end.

Definition finite (df : list row) : list xrow := map (map Fin) df.

Definition my_table_inf : list xrow :=
  [ [Fin (CStr (str "05/01/2024")); Inf false; Fin (CStr (str "Martin"));
     Fin (CStr (str "K-1"))] ].

(** No code on the row: the file number is not printed. *)
Definition my_table_inf_idle : list xrow :=
  [ [Fin (CStr (str "05/01/2024")); Inf false; Fin (CStr (str "Martin")); Fin CNaN] ].

(** An infinite float as name. *)
Definition my_table_inf_name : list xrow :=
  [ [Fin (CStr (str "05/01/2024")); Fin (CInt 101); Inf true; Fin (CStr (str "K-1"))] ].

Definition hosp_table_inf : list xrow :=
  [ [Fin (CStr (str "DUPONT")); Inf false; Fin (CStr (str "K-1"))] ].

(** No name on the row: the file number is not read. *)
Definition hosp_table_inf_idle : list xrow :=
  [ [Fin CNaN; Inf false; Fin (CStr (str "K-1")); Fin CNaN; Fin CNaN; Fin CNaN;
     Fin (CStr (str "X"))] ].

End Infinite.

(** Case analysis on the eight bits of a character. *)
Ltac by_char c := destruct c as [[|] [|] [|] [|] [|] [|] [|] [|]]; try reflexivity.

(** Case analysis on the comparisons of code points in the goal. *)
Ltac by_code_point :=
  repeat match goal with
         | |- context [N.leb ?a ?b] => destruct (N.leb_spec a b)
         | |- context [N.eqb ?a ?b] => destruct (N.eqb_spec a b)
         end;
  simpl; try reflexivity; try discriminate; try lia.

(** * Properties *)

Example parse_billing_code_ex :
  parse_billing_code (str " k-1 + Recond ") = [str "K-1"; str "RECOND"].
Proof. reflexivity. Qed.

Example normalize_name_ex :
  normalize_name (str " (a)  Dupont,   jean ") = str "DUPONT JEAN".
Proof. reflexivity. Qed.

Example normalize_name_twice_ex :
  normalize_name (str "(A)(B) X") = str "(B) X" /\
  normalize_name (str "(B) X") = str "X" /\
  normalize_name (str ", X") = str " X".
Proof. repeat split; reflexivity. Qed.

Example date_match_ex :
  map date_match
      [str "5/1/2024"; str "05-01/2024"; str "5/1/24"; str "123/1/2024";
       str " 5/1/2024"; str "45/13/20245"; str "00/1/2024"] =
  [Some 5; Some 5; None; None; None; Some 45; Some 0]%Z.
Proof. reflexivity. Qed.

Example str_int_ex :
  (str_int 0, str_int (-12), str_int 101) = (str "0", str "-12", str "101").
Proof. reflexivity. Qed.

Example dossier_text_ex :
  dossier_text (CFloat {| f_val := 203 # 2; f_str := str "101.5" |}) = Ok (str "101") /\
  dossier_text (CInt 101) = Ok (str "101") /\
  dossier_text (CStr (str "A-7")) = Ok (str "A-7").
Proof. repeat split; reflexivity. Qed.

Example no_column_raises :
  parse_my_billing [[]] = Raise IndexError /\
  parse_hospital_report [[]] = Raise IndexError /\
  parse_my_billing [] = Ok [].
Proof. repeat split; reflexivity. Qed.

Example end_to_end_ex :
  compare_records [martin_k1_mine] [martin_k1_hosp; martin_m6_hosp] =
  ([martin_k1_mine], [], [martin_m6_hosp]).
Proof. reflexivity. Qed.

Example last_write_wins_ex :
  dict_of_records [dupont_mine; martin_k1_mine; dupont_jean_hosp] =
  [(make_key dupont_mine, dupont_jean_hosp); (make_key martin_k1_mine, martin_k1_mine)].
Proof. reflexivity. Qed.

(** ** Characters *)

Lemma isspace_upper_char c : isspace (upper_char c) = isspace c.
Proof. by_char c. Qed.

Lemma upper_char_idem c : upper_char (upper_char c) = upper_char c.
Proof. by_char c. Qed.

Lemma upper_char_comma c : Ascii.eqb (upper_char c) "," = Ascii.eqb c ",".
Proof. by_char c. Qed.

Lemma clean_upper_char c : Ascii.eqb (upper_char (upper_char c)) (upper_char c) = true.
Proof. rewrite upper_char_idem. apply Ascii.eqb_refl. Qed.

Lemma isspace_paren_open c : Ascii.eqb c "(" = true -> isspace c = false.
Proof. intros H; apply Ascii.eqb_eq in H; subst; reflexivity. Qed.

Lemma isspace_paren_close c : Ascii.eqb c ")" = true -> isspace c = false.
Proof. intros H; apply Ascii.eqb_eq in H; subst; reflexivity. Qed.

Lemma isspace_AZ c : is_AZ c = true -> isspace c = false.
Proof. by_char c; discriminate. Qed.

Lemma pystr_eqb_eq a b : pystr_eqb a b = true <-> a = b.
Proof.
  unfold pystr_eqb. destruct (list_eq_dec ascii_dec a b); split; congruence.
Qed.

Lemma pystr_eqb_refl a : pystr_eqb a a = true.
Proof. apply pystr_eqb_eq; reflexivity. Qed.

(** ** Substring test *)

Lemma starts_with_spec p s : starts_with p s = true <-> exists b, s = p ++ b.
Proof.
  revert s; induction p as [|a p IH]; intros s; simpl.
  - split; [intros _; now exists s | reflexivity].
  - destruct s as [|c s].
    + split; [discriminate | intros [b H]; discriminate].
    + rewrite andb_true_iff, Ascii.eqb_eq, IH. split.
      * intros [-> [b ->]]. now exists b.
      * intros [b H]. injection H as -> ->. split; [reflexivity | now exists b].
Qed.

Lemma contains_spec m s : contains m s = true <-> occurs m s.
Proof.
  unfold occurs. induction s as [|c s IH].
  - simpl. rewrite orb_false_r, starts_with_spec. split.
    + intros [b H]. exists [], b. exact H.
    + intros [a [b H]]. destruct a; [now exists b | discriminate].
  - cbn [contains]. rewrite orb_true_iff, starts_with_spec, IH. split.
    + intros [[b H] | [a [b H]]].
      * exists [], b. exact H.
      * exists (c :: a), b. rewrite H. reflexivity.
    + intros [a [b H]]. destruct a as [|x a].
      * left. now exists b.
      * right. injection H as _ H. now exists a, b.
Qed.

(** ** Code decomposer *)

Lemma parse_billing_code_table s :
  parse_billing_code s =
  map snd (filter (marker_hit (upper (strip s))) spec_vocabulary).
Proof.
  unfold parse_billing_code, spec_vocabulary, marker_hit.
  cbn [filter map fst snd existsb].
  generalize (upper (strip s)); intros u.
  destruct (contains (str "M24") u), (contains (str "M6") u),
    (contains (str "M 6") u), (contains (str "K-1") u),
    (contains (str "RECOND") u), (contains (str "K3/4") u),
    (contains (str "K20") u), (contains (str "K15") u); reflexivity.
Qed.

Lemma marker_hit_spec u line :
  marker_hit u line = true <-> exists m, In m (fst line) /\ occurs m u.
Proof.
  unfold marker_hit. rewrite existsb_exists.
  split; intros [m [Hin H]]; exists m; split; auto; now apply contains_spec.
Qed.

Lemma NoDup_map_filter {A B} (f : A -> B) (p : A -> bool) l :
  NoDup (map f l) -> NoDup (map f (filter p l)).
Proof.
  induction l as [|a l IH]; simpl; intros H; [constructor|].
  inversion H as [|? ? Hn Hd]; subst.
  destruct (p a); simpl; auto.
  constructor; auto.
  intros Hin. apply Hn. apply in_map_iff in Hin as [x [Hx Hin]].
  apply filter_In in Hin as [Hin _]. apply in_map_iff. now exists x.
Qed.

Lemma spec_vocabulary_codes_nodup : NoDup (map snd spec_vocabulary).
Proof.
  unfold spec_vocabulary; cbn [map snd].
  repeat (constructor; [cbn; intuition discriminate|]). constructor.
Qed.

(** C2.  [parse_billing_code] returns exactly the atomic codes of the
    vocabulary lines one of whose markers occurs as a substring of the
    trimmed, upper-cased input: whatever the order of the markers in the
    text and whatever surrounds them, each line is tested on its own, the
    codes come out once each in the order of the table, and a text holding
    no marker gives the empty list. *)
Theorem parse_billing_code_exact (s : pystr) :
  let u := upper (strip s) in
  (forall c, In c (parse_billing_code s) <->
             exists ms, In (ms, c) spec_vocabulary /\
                        exists m, In m ms /\ occurs m u) /\
  parse_billing_code s = map snd (filter (marker_hit u) spec_vocabulary) /\
  NoDup (parse_billing_code s) /\
  (parse_billing_code s = [] <->
   forall ms c m, In (ms, c) spec_vocabulary -> In m ms -> ~ occurs m u).
Proof.
  intros u.
  assert (Hin : forall c, In c (parse_billing_code s) <->
             exists ms, In (ms, c) spec_vocabulary /\
                        exists m, In m ms /\ occurs m u).
  { intros c. rewrite parse_billing_code_table. fold u. rewrite in_map_iff. split.
    - intros [[ms c'] [Hc H]]. simpl in Hc; subst c'.
      apply filter_In in H as [H1 H2]. exists ms. split; auto.
      now apply marker_hit_spec in H2.
    - intros [ms [H1 H2]]. exists (ms, c). split; auto.
      apply filter_In. split; auto. now apply marker_hit_spec. }
  split; [exact Hin|]. split; [apply parse_billing_code_table|].
  split.
  - rewrite parse_billing_code_table. apply NoDup_map_filter.
    apply spec_vocabulary_codes_nodup.
  - split.
    + intros He ms c m H1 H2 H3.
      assert (In c (parse_billing_code s)) as Hc by (apply Hin; eauto).
      rewrite He in Hc. destruct Hc.
    + intros H. destruct (parse_billing_code s) as [|c l] eqn:E; auto.
      assert (In c (c :: l)) as Hc by (left; reflexivity).
      apply Hin in Hc as [ms [H1 [m [H2 H3]]]]. exfalso. eapply H; eauto.
Qed.

(** ** Trimming *)

Lemma lstrip_upper s : lstrip (upper s) = upper (lstrip s).
Proof.
  induction s as [|c s IH]; simpl; auto.
  rewrite isspace_upper_char. destruct (isspace c); auto.
Qed.

Lemma rstrip_upper s : rstrip (upper s) = upper (rstrip s).
Proof.
  induction s as [|c s IH]; auto.
  change (upper (c :: s)) with (upper_char c :: upper s).
  cbn [rstrip]. rewrite IH, isspace_upper_char.
  destruct (rstrip s); simpl; auto. destruct (isspace c); auto.
Qed.

Lemma strip_upper s : strip (upper s) = upper (strip s).
Proof. unfold strip. now rewrite lstrip_upper, rstrip_upper. Qed.

Lemma lstrip_length s : List.length (lstrip s) <= List.length s.
Proof. induction s as [|c s IH]; simpl; auto. destruct (isspace c); simpl; lia. Qed.

Lemma lstrip_fix_or_shorter s :
  lstrip s = s \/ List.length (lstrip s) < List.length s.
Proof.
  destruct s as [|c s]; simpl; auto.
  destruct (isspace c); auto. right. pose proof (lstrip_length s). lia.
Qed.

Lemma rstrip_fix_or_shorter s :
  rstrip s = s \/ List.length (rstrip s) < List.length s.
Proof.
  induction s as [|c s IH]; simpl; auto.
  destruct IH as [IH | IH].
  - rewrite IH. destruct s; [destruct (isspace c); simpl; auto | auto].
  - right. destruct (rstrip s); [destruct (isspace c)|]; simpl in *; lia.
Qed.

Lemma rstrip_length s : List.length (rstrip s) <= List.length s.
Proof. destruct (rstrip_fix_or_shorter s) as [H | H]; [rewrite H|]; lia. Qed.

Lemma lstrip_head s : lstrip s = s <-> match s with [] => True | c :: _ => isspace c = false end.
Proof.
  destruct s as [|c s]; simpl; [tauto|].
  destruct (isspace c) eqn:E; split; auto; try discriminate.
  intros H. pose proof (lstrip_length s) as L. rewrite H in L. simpl in L. lia.
Qed.

Lemma lstrip_idem s : lstrip (lstrip s) = lstrip s.
Proof.
  induction s as [|c s IH]; simpl; auto.
  destruct (isspace c) eqn:E; auto. simpl. now rewrite E.
Qed.

Lemma rstrip_nil_iff s : rstrip s = [] <-> all_space s = true.
Proof.
  induction s as [|c s IH]; simpl; [tauto|].
  destruct (rstrip s) eqn:E.
  - destruct (isspace c); simpl; split; auto; try discriminate.
    + intros _. now apply IH.
  - destruct (isspace c); simpl; split; try discriminate.
    intros H. apply IH in H. discriminate.
Qed.

Lemma rstrip_idem s : rstrip (rstrip s) = rstrip s.
Proof.
  induction s as [|c s IH]; auto.
  cbn [rstrip]. destruct (rstrip s) as [|x l] eqn:E.
  - destruct (isspace c) eqn:Ec; simpl; auto. now rewrite Ec.
  - change (rstrip (c :: x :: l))
      with (match rstrip (x :: l) with
            | [] => if isspace c then [] else [c]
            | t' => c :: t'
            end).
    rewrite IH. reflexivity.
Qed.

Lemma rstrip_cons_fix c s :
  rstrip (c :: s) = c :: s <->
  (s = [] /\ isspace c = false) \/ (s <> [] /\ rstrip s = s).
Proof.
  simpl. destruct (rstrip s) as [|x l] eqn:E.
  - destruct (isspace c); split.
    + discriminate.
    + intros [[_ H] | [H1 H2]]; [discriminate | congruence].
    + intros H. injection H as <-. auto.
    + intros [[-> _] | [H1 H2]]; [reflexivity | congruence].
  - split.
    + intros H. injection H as <-. right. split; [discriminate | reflexivity].
    + intros [[-> _] | [_ H]]; [discriminate | now rewrite H].
Qed.

Lemma lstrip_rstrip_head s :
  lstrip s = s -> lstrip (rstrip s) = rstrip s.
Proof.
  intros H. apply lstrip_head. apply lstrip_head in H.
  destruct s as [|c s]; simpl; auto.
  destruct (rstrip s); [rewrite H|]; auto.
Qed.

Lemma strip_fix_iff s : strip s = s <-> lstrip s = s /\ rstrip s = s.
Proof.
  unfold strip. split.
  - intros H.
    destruct (lstrip_fix_or_shorter s) as [L | L].
    + rewrite L in H. auto.
    + pose proof (rstrip_length (lstrip s)) as R. rewrite H in R. lia.
  - intros [L R]. now rewrite L, R.
Qed.

Lemma strip_trimmed s : strip (strip s) = strip s.
Proof.
  apply strip_fix_iff. unfold strip. split.
  - apply lstrip_rstrip_head, lstrip_idem.
  - apply rstrip_idem.
Qed.

(** ** Collapsing white space *)

Lemma collapse_upper b s : collapse_from b (upper s) = upper (collapse_from b s).
Proof.
  revert b; induction s as [|c s IH]; intros b; simpl; auto.
  rewrite isspace_upper_char. destruct (isspace c).
  - destruct b; simpl; now rewrite IH.
  - simpl. now rewrite IH.
Qed.

Lemma tidy_collapse b s : tidy_from b (collapse_from b s) = true.
Proof.
  revert b; induction s as [|c s IH]; intros b; simpl; auto.
  destruct (isspace c) eqn:E.
  - destruct b; auto. simpl. apply IH.
  - simpl. rewrite E. apply IH.
Qed.

Lemma tidy_collapse_fix b s : tidy_from b s = true -> collapse_from b s = s.
Proof.
  revert b; induction s as [|c s IH]; intros b; simpl; auto.
  destruct (isspace c).
  - intros H. apply andb_true_iff in H as [H H3]. apply andb_true_iff in H as [H1 H2].
    apply Ascii.eqb_eq in H1. subst c. destruct b; [discriminate|].
    now rewrite (IH true H3).
  - intros H. now rewrite (IH false H).
Qed.

Lemma tidy_weaken s : tidy_from true s = true -> tidy_from false s = true.
Proof.
  destruct s as [|c s]; simpl; auto. destruct (isspace c); auto.
  rewrite andb_false_r. discriminate.
Qed.

Lemma tidy_lstrip b s : tidy_from b s = true -> tidy_from false (lstrip s) = true.
Proof.
  revert b; induction s as [|c s IH]; intros b; simpl; auto.
  destruct (isspace c) eqn:E.
  - intros H. apply andb_true_iff in H as [_ H]. now apply (IH true).
  - intros H. simpl. now rewrite E.
Qed.

Lemma tidy_rstrip b s : tidy_from b s = true -> tidy_from b (rstrip s) = true.
Proof.
  revert b; induction s as [|c s IH]; intros b; auto.
  cbn [rstrip tidy_from]. destruct (isspace c) eqn:E.
  - intros H. apply andb_true_iff in H as [H H3].
    specialize (IH true H3). destruct (rstrip s); auto.
    cbn [tidy_from]. rewrite E, H. exact IH.
  - intros H. specialize (IH false H). destruct (rstrip s).
    + simpl. now rewrite E.
    + cbn [tidy_from]. rewrite E. exact IH.
Qed.

Lemma tidy_strip s : tidy_from false s = true -> tidy_from false (strip s) = true.
Proof. intros H. unfold strip. apply tidy_rstrip. eapply tidy_lstrip; eauto. Qed.

Lemma lstrip_collapse b s :
  lstrip s = s -> lstrip (collapse_from b s) = collapse_from b s.
Proof.
  intros H. apply lstrip_head in H. apply lstrip_head.
  destruct s as [|c s]; simpl; auto. now rewrite H.
Qed.

Lemma collapse_not_nil b s : all_space s = false -> collapse_from b s <> [].
Proof.
  revert b; induction s as [|c s IH]; intros b; simpl; [discriminate|].
  destruct (isspace c); simpl; [|discriminate].
  intros H. destruct b; [now apply IH | discriminate].
Qed.

Lemma rstrip_fix_not_all_space s : s <> [] -> rstrip s = s -> all_space s = false.
Proof.
  intros Hn H. destruct (all_space s) eqn:E; auto.
  apply rstrip_nil_iff in E. congruence.
Qed.

Lemma rstrip_collapse b s :
  rstrip s = s -> rstrip (collapse_from b s) = collapse_from b s.
Proof.
  revert b; induction s as [|c s IH]; intros b H; auto.
  apply rstrip_cons_fix in H as [[-> Hc] | [Hn Hs]].
  - simpl. rewrite Hc. simpl. now rewrite Hc.
  - pose proof (rstrip_fix_not_all_space s Hn Hs) as Ha.
    cbn [collapse_from]. destruct (isspace c).
    + destruct b; [now apply IH|].
      apply rstrip_cons_fix. right. split; [now apply collapse_not_nil | now apply IH].
    + apply rstrip_cons_fix. right. split; [now apply collapse_not_nil | now apply IH].
Qed.

Lemma strip_collapse s : strip s = s -> strip (collapse_ws s) = collapse_ws s.
Proof.
  intros H. apply strip_fix_iff in H as [L R]. apply strip_fix_iff. split.
  - now apply lstrip_collapse.
  - now apply rstrip_collapse.
Qed.

(** ** Characters that the normalizers leave alone *)

Section Preserved.

Variable p : ascii -> bool.

Lemma forallb_lstrip s :
  forallb p s = true -> forallb p (lstrip s) = true.
Proof.
  induction s as [|c s IH]; simpl; auto.
  intros H. apply andb_true_iff in H as [H1 H2].
  destruct (isspace c); auto. simpl. now rewrite H1, H2.
Qed.

Lemma forallb_rstrip s :
  forallb p s = true -> forallb p (rstrip s) = true.
Proof.
  induction s as [|c s IH]; auto.
  cbn [rstrip forallb]. intros H. apply andb_true_iff in H as [H1 H2].
  specialize (IH H2). destruct (rstrip s).
  - destruct (isspace c); simpl; auto. now rewrite H1.
  - cbn [forallb] in *. now rewrite H1, IH.
Qed.

Lemma forallb_strip s :
  forallb p s = true -> forallb p (strip s) = true.
Proof. intros H. unfold strip. now apply forallb_rstrip, forallb_lstrip. Qed.

Lemma forallb_collapse b s :
  p " " = true -> forallb p s = true -> forallb p (collapse_from b s) = true.
Proof.
  intros Hsp. revert b; induction s as [|c s IH]; intros b; simpl; auto.
  intros H. apply andb_true_iff in H as [H1 H2].
  destruct (isspace c); [destruct b|]; simpl; auto.
  - rewrite Hsp. simpl. auto.
  - rewrite H1. simpl. auto.
Qed.

Lemma forallb_strip_paren_prefix s :
  forallb p s = true -> forallb p (strip_paren_prefix s) = true.
Proof.
  unfold strip_paren_prefix. destruct s as [|a [|c [|b t]]]; auto.
  destruct (_ && _ && _); auto.
  cbn [forallb]. intros H.
  repeat (apply andb_true_iff in H as [_ H]). now apply forallb_lstrip.
Qed.

End Preserved.

Lemma upper_is_fixed s : forallb upper_fixed_char (upper s) = true.
Proof.
  induction s as [|c s IH]; simpl; auto.
  unfold upper_fixed_char at 1. rewrite clean_upper_char. exact IH.
Qed.

Lemma upper_fix s : forallb upper_fixed_char s = true -> upper s = s.
Proof.
  induction s as [|c s IH]; simpl; auto.
  intros H. apply andb_true_iff in H as [H1 H2].
  apply Ascii.eqb_eq in H1. now rewrite H1, IH.
Qed.

Lemma clean_is_fixed s : forallb clean_char s = true -> forallb upper_fixed_char s = true.
Proof.
  induction s as [|c s IH]; simpl; auto.
  intros H. apply andb_true_iff in H as [H1 H2].
  apply andb_true_iff in H1 as [H1 _].
  unfold upper_fixed_char at 1. now rewrite H1, IH.
Qed.

Lemma remove_commas_clean s :
  forallb upper_fixed_char s = true -> forallb clean_char (remove_commas s) = true.
Proof.
  induction s as [|c s IH]; simpl; auto.
  intros H. apply andb_true_iff in H as [H1 H2].
  destruct (Ascii.eqb c ",") eqn:E; simpl; auto.
  unfold clean_char at 1. unfold upper_fixed_char in H1. rewrite H1, E. simpl. auto.
Qed.

Lemma remove_commas_fix s : forallb clean_char s = true -> remove_commas s = s.
Proof.
  induction s as [|c s IH]; simpl; auto.
  intros H. apply andb_true_iff in H as [H1 H2].
  apply andb_true_iff in H1 as [_ H1]. rewrite H1. now rewrite IH.
Qed.

Lemma tidy_strip_paren_prefix s :
  tidy_from false s = true -> tidy_from false (strip_paren_prefix s) = true.
Proof.
  unfold strip_paren_prefix. destruct s as [|a [|c [|b t]]]; auto.
  destruct (_ && _ && _) eqn:E; auto.
  apply andb_true_iff in E as [E E3]. apply andb_true_iff in E as [E1 E2].
  cbn [tidy_from].
  rewrite (isspace_paren_open _ E1), (isspace_AZ _ E2), (isspace_paren_close _ E3).
  apply tidy_lstrip.
Qed.

Lemma strip_paren_prefix_fix_or_shorter s :
  (has_paren_prefix s = false /\ strip_paren_prefix s = s) \/
  (has_paren_prefix s = true /\ List.length (strip_paren_prefix s) < List.length s).
Proof.
  unfold strip_paren_prefix, has_paren_prefix.
  destruct s as [|a [|c [|b t]]]; auto.
  destruct (_ && _ && _); auto.
  right. split; auto. pose proof (lstrip_length t). simpl. lia.
Qed.

(** ** Normalizer *)

Lemma normalize_code_shape x :
  let y := normalize_code x in
  forallb upper_fixed_char y = true /\ tidy_from false y = true /\ strip y = y.
Proof.
  unfold normalize_code, collapse_ws. cbv zeta. split; [|split].
  - apply forallb_collapse; [reflexivity | apply upper_is_fixed].
  - apply tidy_collapse.
  - apply strip_collapse. rewrite <- strip_upper. apply strip_trimmed.
Qed.

Lemma normalize_code_idem x : normalize_code (normalize_code x) = normalize_code x.
Proof.
  destruct (normalize_code_shape x) as [Hu [Ht Hs]].
  set (y := normalize_code x) in *.
  unfold normalize_code at 1. rewrite Hs, (upper_fix _ Hu).
  now apply tidy_collapse_fix.
Qed.

Lemma normalize_name_shape x :
  let y := normalize_name x in
  forallb clean_char y = true /\ tidy_from false y = true.
Proof.
  unfold normalize_name, collapse_ws. cbv zeta. split.
  - apply forallb_collapse; [reflexivity|].
    apply remove_commas_clean, forallb_strip_paren_prefix, upper_is_fixed.
  - apply tidy_collapse.
Qed.

(** On an already normalized name the normalizer only trims and strips a
    parenthesised prefix. *)
Lemma normalize_name_again x :
  normalize_name (normalize_name x) =
  strip_paren_prefix (strip (normalize_name x)).
Proof.
  destruct (normalize_name_shape x) as [Hc Ht].
  set (y := normalize_name x) in *.
  unfold normalize_name at 1.
  assert (Hc' : forallb clean_char (strip y) = true) by now apply forallb_strip.
  rewrite (upper_fix _ (clean_is_fixed _ Hc')).
  rewrite remove_commas_fix by now apply forallb_strip_paren_prefix.
  apply tidy_collapse_fix. now apply tidy_strip_paren_prefix, tidy_strip.
Qed.

Lemma strip_length s : List.length (strip s) <= List.length s.
Proof.
  unfold strip. pose proof (rstrip_length (lstrip s)). pose proof (lstrip_length s). lia.
Qed.

Lemma strip_fix_or_shorter s : strip s = s \/ List.length (strip s) < List.length s.
Proof.
  unfold strip. destruct (lstrip_fix_or_shorter s) as [L | L].
  - rewrite L. apply rstrip_fix_or_shorter.
  - right. pose proof (rstrip_length (lstrip s)). lia.
Qed.

(** C7, counterexample.  [normalize_name] is not idempotent: a second
    parenthesised prefix survives the first pass and is stripped by the
    second. *)
Lemma normalize_name_not_idempotent :
  normalize_name (normalize_name (str "(A)(B) X")) <> normalize_name (str "(A)(B) X").
Proof. vm_compute. discriminate. Qed.

(** ** Totality of the text layer and of the reconciler *)

Lemma lstrip_all_space s : all_space s = true -> lstrip s = [].
Proof.
  induction s as [|c s IH]; simpl; auto.
  intros H. apply andb_true_iff in H as [H1 H2]. rewrite H1. auto.
Qed.

Lemma normalizers_blank s :
  all_space s = true -> normalize_code s = [] /\ normalize_name s = [].
Proof.
  intros H. unfold normalize_code, normalize_name, strip.
  rewrite (lstrip_all_space _ H). split; reflexivity.
Qed.

(** C9.  On a string, the normalizers and the decomposer return a value
    and raise nothing ([AttributeError] is for a receiver that is no
    string); on an empty or white-space-only string both normalizers return
    the empty string; [compare_records] yields its three lists on every
    pair of record lists. *)
Theorem text_layer_total (s : pystr) (mine theirs : list record) :
  py_normalize_code (CStr s) = Ok (normalize_code s) /\
  py_normalize_name (CStr s) = Ok (normalize_name s) /\
  py_parse_billing_code (CStr s) = Ok (parse_billing_code s) /\
  (all_space s = true -> normalize_code s = [] /\ normalize_name s = []) /\
  exists matched only_in_my only_in_hospital,
    compare_records mine theirs = (matched, only_in_my, only_in_hospital).
Proof.
  split; [reflexivity|]. split; [reflexivity|]. split; [reflexivity|].
  split; [apply normalizers_blank|].
  destruct (compare_records mine theirs) as [[m a] b]. now exists m, a, b.
Qed.

Lemma text_layer_total_witness :
  all_space (str "  ") = true /\
  normalize_code (str "  ") = [] /\ normalize_name (str "  ") = [] /\
  py_normalize_code (CStr []) = Ok [].
Proof.
  pose proof (text_layer_total (str "  ") [] []) as [_ [_ [_ [H _]]]].
  pose proof (text_layer_total [] [] []) as [H0 _].
  split; [reflexivity|]. split; [exact (proj1 (H eq_refl))|].
  split; [exact (proj2 (H eq_refl)) | exact H0].
Defined.

(** ** Insertion-ordered dictionaries *)

Lemma key_eqb_eq a b : key_eqb a b = true <-> a = b.
Proof.
  destruct a as [[d1 c1] n1], b as [[d2 c2] n2]. unfold key_eqb.
  rewrite !andb_true_iff, !pystr_eqb_eq, Z.eqb_eq. split.
  - intros [[-> ->] ->]. reflexivity.
  - intros H. injection H as -> -> ->. auto.
Qed.

Lemma key_eqb_refl a : key_eqb a a = true.
Proof. now apply key_eqb_eq. Qed.

Lemma key_eqb_neq a b : key_eqb a b = false <-> a <> b.
Proof.
  destruct (key_eqb a b) eqn:E.
  - apply key_eqb_eq in E. split; congruence.
  - split; auto. intros _ H. apply key_eqb_eq in H. congruence.
Qed.

Lemma key_mem_In k ks : key_mem k ks = true <-> In k ks.
Proof.
  unfold key_mem. rewrite existsb_exists. split.
  - intros [x [Hx H]]. apply key_eqb_eq in H. now subst.
  - intros H. exists k. split; auto. apply key_eqb_refl.
Qed.

Lemma key_mem_not_In k ks : key_mem k ks = false <-> ~ In k ks.
Proof.
  rewrite <- key_mem_In. destruct (key_mem k ks); split; congruence.
Qed.

Lemma dict_mem_keys k d : dict_mem k d = key_mem k (map fst d).
Proof.
  unfold dict_mem, key_mem. induction d as [|[k' v] d IH]; simpl; auto.
  rewrite IH. f_equal.
  destruct (key_eqb k' k) eqn:E.
  - apply key_eqb_eq in E. subst. symmetry. apply key_eqb_refl.
  - apply key_eqb_neq in E. symmetry. apply key_eqb_neq. congruence.
Qed.

Lemma dict_set_keys d k v :
  map fst (dict_set d k v) =
  if key_mem k (map fst d) then map fst d else map fst d ++ [k].
Proof.
  induction d as [|[k' v'] d IH]; simpl; auto.
  destruct (key_eqb k' k) eqn:E.
  - apply key_eqb_eq in E. subst. rewrite key_eqb_refl. reflexivity.
  - assert (key_eqb k k' = false) as ->.
    { apply key_eqb_neq. apply key_eqb_neq in E. congruence. }
    simpl. rewrite IH. now destruct (key_mem k (map fst d)).
Qed.

Lemma dict_set_get d k v k' :
  dict_get (dict_set d k v) k' = if key_eqb k k' then Some v else dict_get d k'.
Proof.
  induction d as [|[k0 v0] d IH]; simpl.
  - reflexivity.
  - destruct (key_eqb k0 k) eqn:E.
    + apply key_eqb_eq in E. subst. simpl. now destruct (key_eqb k k').
    + simpl. destruct (key_eqb k0 k') eqn:E'.
      * apply key_eqb_eq in E'. subst. apply key_eqb_neq in E.
        assert (key_eqb k k' = false) as -> by (apply key_eqb_neq; congruence).
        reflexivity.
      * apply IH.
Qed.

Lemma dict_of_records_snoc l r :
  dict_of_records (l ++ [r]) = dict_set (dict_of_records l) (make_key r) r.
Proof. unfold dict_of_records. now rewrite fold_left_app. Qed.

Lemma distinct_keys_snoc ks k :
  distinct_keys (ks ++ [k]) =
  if key_mem k (distinct_keys ks) then distinct_keys ks else distinct_keys ks ++ [k].
Proof. unfold distinct_keys. now rewrite fold_left_app. Qed.

Lemma dict_of_records_keys l :
  map fst (dict_of_records l) = distinct_keys (keys_of l).
Proof.
  induction l as [|r l IH] using rev_ind; auto.
  unfold keys_of in *.
  rewrite dict_of_records_snoc, dict_set_keys, map_app, IH.
  cbn [map]. now rewrite distinct_keys_snoc.
Qed.

Lemma distinct_keys_In ks k : In k (distinct_keys ks) <-> In k ks.
Proof.
  induction ks as [|x ks IH] using rev_ind; [reflexivity|].
  rewrite distinct_keys_snoc, in_app_iff. simpl.
  destruct (key_mem x (distinct_keys ks)) eqn:E.
  - apply key_mem_In in E. rewrite IH. split; auto.
    intros [H | [<- | []]]; auto. now apply IH.
  - rewrite in_app_iff, IH. simpl. tauto.
Qed.

Lemma distinct_keys_NoDup ks : NoDup (distinct_keys ks).
Proof.
  induction ks as [|x ks IH] using rev_ind; [constructor|].
  rewrite distinct_keys_snoc.
  destruct (key_mem x (distinct_keys ks)) eqn:E; auto.
  apply key_mem_not_In in E.
  apply NoDup_rev in IH. rewrite <- (rev_involutive (_ ++ [x])), rev_app_distr.
  apply NoDup_rev. simpl. constructor; auto. now rewrite <- in_rev.
Qed.

Lemma dict_of_records_get l k :
  dict_get (dict_of_records l) k = last_with_key k l.
Proof.
  unfold last_with_key.
  induction l as [|r l IH] using rev_ind; auto.
  rewrite dict_of_records_snoc, dict_set_get, rev_app_distr.
  cbn [rev app find].
  destruct (key_eqb (make_key r) k); [reflexivity | exact IH].
Qed.

Lemma dict_of_records_entry l k r :
  In (k, r) (dict_of_records l) -> k = make_key r.
Proof.
  revert k r. induction l as [|x l IH] using rev_ind; intros k r; [intros []|].
  rewrite dict_of_records_snoc.
  generalize (dict_of_records l) IH. clear IH. intros d.
  induction d as [|[k0 v0] d IHd]; simpl; intros IH.
  - intros [H | []]. now injection H as <- <-.
  - destruct (key_eqb k0 (make_key x)) eqn:E.
    + apply key_eqb_eq in E. intros [H | H].
      * injection H as <- <-. exact E.
      * apply IH. now right.
    + intros [H | H].
      * apply IH. now left.
      * apply IHd; [|exact H]. intros k' r' H'. apply IH. now right.
Qed.

Lemma dict_entry_get (d : dict) k r :
  NoDup (map fst d) -> (In (k, r) d <-> dict_get d k = Some r).
Proof.
  induction d as [|[k0 v0] d IH]; simpl; intros Hnd.
  - split; [intros [] | discriminate].
  - inversion Hnd as [|? ? Hn Hd]; subst.
    destruct (key_eqb k0 k) eqn:E.
    + apply key_eqb_eq in E. subst. split.
      * intros [H | H]; [now injection H as -> |].
        exfalso. apply Hn. apply in_map_iff. now exists (k, r).
      * intros H. injection H as ->. now left.
    + apply key_eqb_neq in E. rewrite <- IH by assumption. split.
      * intros [H | H]; auto. injection H as -> ->. congruence.
      * auto.
Qed.

Lemma dict_of_records_NoDup l : NoDup (map fst (dict_of_records l)).
Proof. rewrite dict_of_records_keys. apply distinct_keys_NoDup. Qed.

Lemma dict_entry_keys l (p : key * record -> bool) :
  map make_key (map snd (filter p (dict_of_records l))) =
  map fst (filter p (dict_of_records l)).
Proof.
  rewrite map_map. apply map_ext_in. intros [k r] H.
  apply filter_In in H as [H _]. apply dict_of_records_entry in H. now subst.
Qed.

(** ** Reconciler *)

Lemma fold_matched_split (hosp_keys d : dict) (m o : list record) :
  fold_left
    (fun '(matched, only_in_my) '(key, record) =>
       if dict_mem key hosp_keys
       then (matched ++ [record], only_in_my)
       else (matched, only_in_my ++ [record]))
    d (m, o) =
  (m ++ map snd (filter (fun kv => dict_mem (fst kv) hosp_keys) d),
   o ++ map snd (filter (fun kv => negb (dict_mem (fst kv) hosp_keys)) d)).
Proof.
  revert m o. induction d as [|[k r] d IH]; intros m o; simpl.
  - now rewrite !app_nil_r.
  - destruct (dict_mem k hosp_keys); simpl; rewrite IH, <- app_assoc; reflexivity.
Qed.

Lemma fold_only_hospital (my_keys d : dict) (o : list record) :
  fold_left
    (fun only_in_hospital '(key, record) =>
       if negb (dict_mem key my_keys)
       then only_in_hospital ++ [record]
       else only_in_hospital)
    d o =
  o ++ map snd (filter (fun kv => negb (dict_mem (fst kv) my_keys)) d).
Proof.
  revert o. induction d as [|[k r] d IH]; intros o; simpl.
  - now rewrite app_nil_r.
  - destruct (dict_mem k my_keys); simpl; rewrite IH; [|rewrite <- app_assoc]; reflexivity.
Qed.

Lemma compare_records_filters mine theirs :
  compare_records mine theirs =
  (map snd (filter (fun kv => dict_mem (fst kv) (dict_of_records theirs))
              (dict_of_records mine)),
   map snd (filter (fun kv => negb (dict_mem (fst kv) (dict_of_records theirs)))
              (dict_of_records mine)),
   map snd (filter (fun kv => negb (dict_mem (fst kv) (dict_of_records mine)))
              (dict_of_records theirs))).
Proof.
  unfold compare_records. rewrite fold_matched_split, fold_only_hospital. reflexivity.
Qed.

(** The keys of the three parts, as functions of the key lists alone. *)
Lemma compare_records_keys mine theirs matched only_in_my only_in_hospital :
  compare_records mine theirs = (matched, only_in_my, only_in_hospital) ->
  let km := distinct_keys (keys_of mine) in
  let kh := distinct_keys (keys_of theirs) in
  keys_of matched = filter (fun k => key_mem k kh) km /\
  keys_of only_in_my = filter (fun k => negb (key_mem k kh)) km /\
  keys_of only_in_hospital = filter (fun k => negb (key_mem k km)) kh.
Proof.
  rewrite compare_records_filters. intros H. injection H as <- <- <-.
  unfold keys_of at 1 3 5. rewrite !dict_entry_keys.
  rewrite <- !dict_of_records_keys.
  rewrite !filter_map_swap. repeat split; f_equal; apply filter_ext;
    intros [k r]; simpl; now rewrite dict_mem_keys.
Qed.

Lemma in_part_iff l (p : key -> bool) r :
  In r (map snd (filter (fun kv => p (fst kv)) (dict_of_records l))) <->
  last_with_key (make_key r) l = Some r /\ p (make_key r) = true.
Proof.
  rewrite <- dict_of_records_get, in_map_iff. split.
  - intros [[k r'] [Hr H]]. simpl in Hr. subst r'.
    apply filter_In in H as [H Hp]. simpl in Hp.
    pose proof (dict_of_records_entry _ _ _ H) as ->.
    split; auto. apply dict_entry_get; auto. apply dict_of_records_NoDup.
  - intros [H Hp]. exists (make_key r, r). split; auto.
    apply filter_In. split; auto.
    apply dict_entry_get; auto. apply dict_of_records_NoDup.
Qed.

Lemma dict_mem_records k l : dict_mem k (dict_of_records l) = true <-> In k (keys_of l).
Proof.
  now rewrite dict_mem_keys, dict_of_records_keys, key_mem_In, distinct_keys_In.
Qed.

(** C1.  [compare_records] indexes each side by [(dossier, code, date)],
    the last record of a side winning on a duplicate key; [matched] holds
    the personal-side record of every key present on both sides,
    [only_in_my] the personal-side records whose key the facility side
    lacks, [only_in_hospital] the facility-side records whose key the
    personal side lacks.  The keys of [matched] with [only_in_my] are, up to
    order and without repetition, the distinct keys of the personal input;
    those of [matched] with [only_in_hospital] the distinct keys of the
    facility input. *)
Theorem compare_records_partition
  (mine theirs matched only_in_my only_in_hospital : list record) :
  compare_records mine theirs = (matched, only_in_my, only_in_hospital) ->
  (forall k, dict_get (dict_of_records mine) k = last_with_key k mine) /\
  (forall k, dict_get (dict_of_records theirs) k = last_with_key k theirs) /\
  (forall r, In r matched <->
             last_with_key (make_key r) mine = Some r /\
             In (make_key r) (keys_of theirs)) /\
  (forall r, In r only_in_my <->
             last_with_key (make_key r) mine = Some r /\
             ~ In (make_key r) (keys_of theirs)) /\
  (forall r, In r only_in_hospital <->
             last_with_key (make_key r) theirs = Some r /\
             ~ In (make_key r) (keys_of mine)) /\
  Permutation (keys_of (matched ++ only_in_my)) (distinct_keys (keys_of mine)) /\
  Permutation (keys_of (matched ++ only_in_hospital)) (distinct_keys (keys_of theirs)) /\
  (forall ks, NoDup (distinct_keys ks) /\ forall k, In k (distinct_keys ks) <-> In k ks).
Proof.
  intros H. pose proof (compare_records_keys _ _ _ _ _ H) as [Km [Ko Kh]].
  rewrite compare_records_filters in H. injection H as <- <- <-.
  split; [apply dict_of_records_get|]. split; [apply dict_of_records_get|].
  split; [|split; [|split]].
  - intros r. rewrite (in_part_iff mine (fun k => dict_mem k (dict_of_records theirs))).
    now rewrite dict_mem_records.
  - intros r.
    rewrite (in_part_iff mine (fun k => negb (dict_mem k (dict_of_records theirs)))).
    rewrite negb_true_iff, <- not_true_iff_false, dict_mem_records. reflexivity.
  - intros r.
    rewrite (in_part_iff theirs (fun k => negb (dict_mem k (dict_of_records mine)))).
    rewrite negb_true_iff, <- not_true_iff_false, dict_mem_records. reflexivity.
  - pose proof (distinct_keys_NoDup (keys_of mine)) as Nm.
    pose proof (distinct_keys_NoDup (keys_of theirs)) as Nh.
    unfold keys_of at 1 3. rewrite !map_app. fold (keys_of). 
    change (map make_key) with keys_of. rewrite Km, Ko, Kh.
    split; [|split].
    + apply NoDup_Permutation; auto.
      * apply NoDup_app; try now apply NoDup_filter.
        intros k H1 H2. apply filter_In in H1 as [_ H1], H2 as [_ H2].
        rewrite H1 in H2. discriminate.
      * intros k. rewrite in_app_iff, !filter_In.
        destruct (key_mem k (distinct_keys (keys_of theirs))); simpl; intuition discriminate.
    + apply NoDup_Permutation; auto.
      * apply NoDup_app; try now apply NoDup_filter.
        intros k H1 H2. apply filter_In in H1 as [H1 _], H2 as [_ H2].
        apply key_mem_In in H1. rewrite H1 in H2. discriminate.
      * intros k. rewrite in_app_iff, !filter_In, key_mem_In.
        destruct (key_mem k (distinct_keys (keys_of mine))) eqn:E; simpl.
        -- apply key_mem_In in E. intuition discriminate.
        -- apply key_mem_not_In in E. intuition.
    + intros ks. split; [apply distinct_keys_NoDup | apply distinct_keys_In].
Qed.

Lemma compare_records_partition_witness :
  compare_records [martin_k1_mine] [martin_k1_hosp; martin_m6_hosp] =
    ([martin_k1_mine], [], [martin_m6_hosp]) /\
  Permutation (keys_of ([martin_k1_mine] ++ [martin_m6_hosp]))
              (distinct_keys (keys_of [martin_k1_hosp; martin_m6_hosp])).
Proof.
  split; [reflexivity|].
  apply (compare_records_partition [martin_k1_mine] [martin_k1_hosp; martin_m6_hosp]
           [martin_k1_mine] [] [martin_m6_hosp] eq_refl).
Defined.

(** C5.  The reconciliation key is [(dossier, code, date)] and leaves the
    name out: when a personal record and a facility record share the three
    fields, whatever their names, that key is counted in [matched] and in
    neither of the two one-sided parts; and the keys of the three parts
    depend on the keys of the inputs alone, so that rewriting names changes
    none of them. *)
Theorem name_excluded_from_key
  (mine theirs matched only_in_my only_in_hospital : list record)
  (r r' : record) :
  compare_records mine theirs = (matched, only_in_my, only_in_hospital) ->
  In r mine -> In r' theirs ->
  dossier r = dossier r' -> code r = code r' -> date r = date r' ->
  make_key r = (dossier r, code r, date r) /\
  In (make_key r) (keys_of matched) /\
  ~ In (make_key r) (keys_of only_in_my) /\
  ~ In (make_key r) (keys_of only_in_hospital) /\
  forall mine' theirs' matched' only_in_my' only_in_hospital',
    keys_of mine' = keys_of mine -> keys_of theirs' = keys_of theirs ->
    compare_records mine' theirs' = (matched', only_in_my', only_in_hospital') ->
    keys_of matched' = keys_of matched /\
    keys_of only_in_my' = keys_of only_in_my /\
    keys_of only_in_hospital' = keys_of only_in_hospital.
Proof.
  intros H Hr Hr' Hd Hc Hn.
  pose proof (compare_records_keys _ _ _ _ _ H) as [Km [Ko Kh]].
  assert (Hm : In (make_key r) (distinct_keys (keys_of mine))).
  { apply distinct_keys_In. unfold keys_of. now apply in_map. }
  assert (Hh : key_mem (make_key r) (distinct_keys (keys_of theirs)) = true).
  { apply key_mem_In, distinct_keys_In.
    replace (make_key r) with (make_key r') by (unfold make_key; congruence).
    unfold keys_of. now apply in_map. }
  split; [reflexivity|]. rewrite Km, Ko, Kh. split; [|split; [|split]].
  - apply filter_In. auto.
  - intros Hin. apply filter_In in Hin as [_ Hin]. rewrite Hh in Hin. discriminate.
  - intros Hin. apply filter_In in Hin as [_ Hin].
    apply key_mem_In in Hm. rewrite Hm in Hin. discriminate.
  - intros mine' theirs' m' a' b' Em Eh H'.
    pose proof (compare_records_keys _ _ _ _ _ H') as [Km' [Ko' Kh']].
    rewrite Em, Eh in *. rewrite Km', Ko', Kh'. auto.
Qed.

Lemma name_excluded_from_key_witness :
  compare_records [dupont_mine] [dupont_jean_hosp] = ([dupont_mine], [], []) /\
  nom dupont_mine <> nom dupont_jean_hosp /\
  In (make_key dupont_mine) (keys_of [dupont_mine]).
Proof.
  split; [reflexivity|]. split; [discriminate|].
  apply (name_excluded_from_key [dupont_mine] [dupont_jean_hosp] [dupont_mine] [] []
           dupont_mine dupont_jean_hosp eq_refl
           (or_introl eq_refl) (or_introl eq_refl) eq_refl eq_refl eq_refl).
Defined.

(** ** The error monad and positional access *)

Section Monad.

Context {S A B : Type}.

Lemma foldM_app (f : S -> A -> result S) l1 l2 s :
  foldM f (l1 ++ l2) s = (s' <- foldM f l1 s ;; foldM f l2 s').
Proof.
  revert s; induction l1 as [|a l1 IH]; intros s; simpl; auto.
  destruct (f s a); simpl; auto.
Qed.

Lemma mapM_pure (f : A -> result B) (g : A -> B) l :
  (forall a, f a = Ok (g a)) -> mapM f l = Ok (map g l).
Proof.
  intros H. induction l as [|a l IH]; simpl; auto. now rewrite H, IH.
Qed.

End Monad.

Lemma cell_or_none_spec r i :
  cell_or_none r i =
  match nth_error r i with
  | Some c => if notna c then c else CNone
  | None => CNone
  end.
Proof.
  unfold cell_or_none. destruct (i <? List.length r) eqn:E; auto.
  apply Nat.ltb_ge in E. apply nth_error_None in E. now rewrite E.
Qed.

Lemma cell_or_none_not_nan r i : cell_or_none r i <> CNaN.
Proof.
  rewrite cell_or_none_spec. destruct (nth_error r i) as [c|]; [|discriminate].
  destruct c; simpl; discriminate.
Qed.

Lemma cell_or_none_truthy r i :
  truthy (cell_or_none r i) = true ->
  exists c, nth_error r i = Some c /\ cell_or_none r i = c /\ notna c = true.
Proof.
  rewrite cell_or_none_spec. destruct (nth_error r i) as [c|]; [|discriminate].
  destruct (notna c) eqn:E; [|discriminate]. intros _. now exists c.
Qed.

Lemma iloc_first (r : row) :
  r <> [] ->
  exists c0, iloc r 0 = Ok c0 /\ (if notna c0 then c0 else CNone) = cell_or_none r 0.
Proof.
  destruct r as [|c0 r]; [congruence|]. intros _. exists c0. split; auto.
Qed.

Lemma dossier_text_pure v : v <> CNaN -> dossier_text v = Ok (dossier_str v).
Proof. destruct v; simpl; congruence. Qed.

(** ** Personal-log extractor *)

Lemma next_date_spec cur c :
  next_date cur c = match date_like c with Some d => Some d | None => cur end.
Proof.
  unfold next_date, date_like. destruct c as [| |s|z|f|d]; simpl; auto.
  - destruct s; auto.
  - destruct (negb _); auto.
  - destruct (negb _); auto.
Qed.

Lemma my_row_records_pure cd r :
  my_row_records cd r =
  Ok (match cd with Some d => expected_my_records d r | None => [] end).
Proof.
  unfold my_row_records, expected_my_records.
  destruct cd as [d|]; simpl day_truthy.
  - destruct (_ && _ && _ && _); auto.
    apply mapM_pure. intros c. unfold my_record.
    rewrite dossier_text_pure by apply cell_or_none_not_nan. reflexivity.
  - rewrite andb_false_r. reflexivity.
Qed.

Lemma my_billing_row_pure st r :
  r <> [] ->
  let cd := match date_like (cell_or_none r 0) with
            | Some d => Some d
            | None => current_date st
            end in
  my_billing_row st r =
  Ok {| current_date := cd;
        my_records := my_records st ++
                      match cd with Some d => expected_my_records d r | None => [] end |}.
Proof.
  intros Hr. destruct (iloc_first r Hr) as [c0 [H0 H1]].
  unfold my_billing_row. rewrite H0. simpl bind. rewrite H1, next_date_spec.
  rewrite my_row_records_pure. reflexivity.
Qed.

Lemma expected_my_records_day d r : Forall (fun x => date x = d) (expected_my_records d r).
Proof.
  unfold expected_my_records. destruct (_ && _ && _ && _); [|constructor].
  apply Forall_forall. intros x Hx. apply in_map_iff in Hx as [c [<- _]]. reflexivity.
Qed.

Lemma my_fold_undated rows st :
  Forall undated rows ->
  foldM my_billing_row rows st =
  Ok {| current_date := current_date st;
        my_records := my_records st ++
                      match current_date st with
                      | Some d => flat_map (expected_my_records d) rows
                      | None => []
                      end |}.
Proof.
  intros H. revert st. induction H as [|r rows [Hr Hd] _ IH]; intros st.
  - simpl. destruct st as [cd recs]. simpl. destruct cd; now rewrite app_nil_r.
  - cbn [foldM]. rewrite (my_billing_row_pure st r Hr). rewrite Hd. simpl bind.
    rewrite IH. cbn [current_date my_records]. f_equal. f_equal.
    rewrite <- app_assoc. f_equal. destruct (current_date st); reflexivity.
Qed.

Lemma my_fold_total rows st :
  Forall (fun r => r <> []) rows -> exists st', foldM my_billing_row rows st = Ok st'.
Proof.
  intros H. revert st. induction H as [|r rows Hr _ IH]; intros st.
  - now exists st.
  - cbn [foldM]. rewrite (my_billing_row_pure st r Hr). simpl bind. apply IH.
Qed.

(** C3.  In the personal-log extractor the day in force changes only on a
    row whose first column is date-like (a native date, or a text whose
    prefix matches D[/-]M[/-]YYYY) and is kept by every other row; the rows
    before any date emit nothing; and after a dated row, the rows with no
    date value emit their records under the day of the dated row. *)
Theorem personal_log_carry_forward :
  (forall st r,
      r <> [] ->
      exists st',
        my_billing_row st r = Ok st' /\
        current_date st' =
          match date_like (cell_or_none r 0) with
          | Some d => Some d
          | None => current_date st
          end) /\
  (forall rows, Forall undated rows -> parse_my_billing rows = Ok []) /\
  (forall pre dated follow d,
      Forall (fun r => r <> []) pre ->
      date_like (cell_or_none dated 0) = Some d ->
      Forall undated follow ->
      exists before,
        parse_my_billing pre = Ok before /\
        parse_my_billing (pre ++ dated :: follow) =
          Ok (before ++ flat_map (expected_my_records d) (dated :: follow)) /\
        Forall (fun x => date x = d)
               (flat_map (expected_my_records d) (dated :: follow))).
Proof.
  split; [|split].
  - intros st r Hr. eexists. split; [apply (my_billing_row_pure st r Hr)|]. reflexivity.
  - intros rows H. unfold parse_my_billing. rewrite (my_fold_undated rows my_init H).
    reflexivity.
  - intros pre dated follow d Hpre Hd Hf.
    destruct (my_fold_total pre my_init Hpre) as [st Hst].
    exists (my_records st). unfold parse_my_billing. rewrite Hst. split; [reflexivity|].
    assert (Hr : dated <> []).
    { intros ->. discriminate. }
    split.
    + rewrite foldM_app, Hst. simpl bind. cbn [foldM].
      rewrite (my_billing_row_pure st dated Hr), Hd. simpl bind.
      rewrite (my_fold_undated follow _ Hf). simpl.
      now rewrite <- app_assoc.
    + apply Forall_flat_map, Forall_forall. intros r _. apply expected_my_records_day.
Qed.

Lemma personal_log_carry_forward_witness :
  parse_my_billing my_table_carry =
    Ok ([] ++ flat_map (expected_my_records 5) (tl my_table_carry)) /\
  map date (flat_map (expected_my_records 5) (tl my_table_carry)) = [5; 5; 5; 5]%Z.
Proof.
  destruct personal_log_carry_forward as [_ [_ H]].
  destruct (H [hd [] my_table_carry] (hd [] (tl my_table_carry))
              (tl (tl my_table_carry)) 5%Z) as [before [Hb [Hp _]]].
  - repeat constructor; discriminate.
  - reflexivity.
  - repeat constructor; discriminate.
  - split; [|reflexivity].
    assert (before = []) as -> by (vm_compute in Hb; congruence).
    exact Hp.
Defined.

(** ** Facility-report extractor *)

Lemma hospital_row_pure st r :
  r <> [] -> hospital_row st r = Ok (hospital_step st r).
Proof.
  intros Hr. destruct (iloc_first r Hr) as [c0 [H0 H1]].
  unfold hospital_row, hospital_step, is_header_row, update_patient, emit_days.
  rewrite H0. simpl bind. rewrite H1.
  destruct (header_cell NAME_HEADERS (cell_or_none r 0)); auto.
  destruct (header_cell DOSSIER_HEADERS (cell_or_none r 1)); auto.
  destruct (header_cell CODE_HEADERS (cell_or_none r 2)); auto.
  cbn [orb].
  destruct (truthy (cell_or_none r 0)).
  - unfold next_dossier. destruct (truthy (cell_or_none r 1)).
    + rewrite dossier_text_pure by apply cell_or_none_not_nan.
      simpl bind. cbn [current_dossier current_name hosp_records].
      destruct (dossier_str (cell_or_none r 1)), (truthy (cell_or_none r 2));
        simpl; rewrite ?app_nil_r; reflexivity.
    + simpl. now rewrite app_nil_r.
  - simpl bind. destruct st as [n [[|x dos]|] recs]; cbn;
      destruct (truthy (cell_or_none r 2)); simpl; rewrite ?app_nil_r; reflexivity.
Qed.

Lemma hosp_fold_total rows st :
  Forall (fun r => r <> []) rows ->
  foldM hospital_row rows st = Ok (fold_left hospital_step rows st).
Proof.
  intros H. revert st. induction H as [|r rows Hr _ IH]; intros st; auto.
  cbn [foldM fold_left]. rewrite (hospital_row_pure st r Hr). simpl bind. apply IH.
Qed.

Lemma label_header_cell labels r i :
  mem_str [] labels = false ->
  label_at labels r i -> header_cell labels (cell_or_none r i) = true.
Proof.
  intros Hl [s [Hn Hin]]. rewrite cell_or_none_spec, Hn. simpl notna. cbv iota.
  unfold header_cell. simpl py_str.
  assert (Hm : mem_str (upper (strip s)) labels = true).
  { unfold mem_str. apply existsb_exists. exists (upper (strip s)).
    split; auto. apply pystr_eqb_refl. }
  rewrite Hm, andb_true_r. destruct s as [|c s]; auto.
  simpl in Hm. congruence.
Qed.

Lemma label_header_row r :
  label_at NAME_HEADERS r 0 \/ label_at DOSSIER_HEADERS r 1 \/ label_at CODE_HEADERS r 2 ->
  is_header_row r = true /\ r <> [].
Proof.
  intros H. split.
  - unfold is_header_row.
    destruct H as [H | [H | H]]; apply label_header_cell in H; try reflexivity;
      rewrite H; rewrite ?orb_true_r; reflexivity.
  - intros ->. destruct H as [[s [H _]] | [[s [H _]] | [s [H _]]]]; discriminate.
Qed.

(** C8.  In the facility-report extractor a row whose column 0 holds a
    name-header label, or whose column 1 holds a dossier-header label, or
    whose column 2 holds a code-header label (the text trimmed and
    upper-cased) is skipped: whatever its other cells, the whole state,
    carried name, carried file number and records, is as before, and the
    table reads as if the row were not there. *)
Theorem header_rows_skipped (st : hosp_state) (r : row) :
  label_at NAME_HEADERS r 0 \/ label_at DOSSIER_HEADERS r 1 \/ label_at CODE_HEADERS r 2 ->
  hospital_row st r = Ok st /\
  forall pre post,
    parse_hospital_report (pre ++ r :: post) = parse_hospital_report (pre ++ post).
Proof.
  intros H. apply label_header_row in H as [Hh Hr].
  assert (Hst : forall s, hospital_row s r = Ok s).
  { intros s. rewrite (hospital_row_pure s r Hr). unfold hospital_step. now rewrite Hh. }
  split; [apply Hst|].
  intros pre post. unfold parse_hospital_report. rewrite !foldM_app.
  destruct (foldM hospital_row pre hosp_init) as [s|e]; simpl; auto.
  now rewrite Hst.
Qed.

Lemma header_rows_skipped_witness :
  parse_hospital_report hosp_table_header =
    parse_hospital_report
      [hd [] hosp_table_header; hd [] (tl (tl hosp_table_header))] /\
  hospital_row hosp_init (hd [] (tl hosp_table_header)) = Ok hosp_init.
Proof.
  assert (H : label_at NAME_HEADERS (hd [] (tl hosp_table_header)) 0).
  { exists (str "Nom patient"). split; [reflexivity|]. vm_compute. auto. }
  pose proof (header_rows_skipped hosp_init _ (or_introl H)) as [H1 H2].
  split; [|exact H1].
  exact (H2 [hd [] hosp_table_header] [hd [] (tl (tl hosp_table_header))]).
Defined.

Lemma present_cell r i c :
  nth_error r i = Some c -> notna c = true -> cell_or_none r i = c.
Proof. intros H N. now rewrite cell_or_none_spec, H, N. Qed.

Lemma zero_cell_absent r i c :
  nth_error r i = Some c -> zero_cell c = true -> truthy (cell_or_none r i) = false.
Proof.
  intros H Z. rewrite (present_cell r i c H); destruct c; try discriminate; simpl in *;
    now rewrite ?Z.
Qed.

Lemma hospital_step_named st r :
  is_header_row r = false -> truthy (cell_or_none r 0) = true ->
  hospital_step st r =
  {| current_name := Some (normalize_name (py_str (cell_or_none r 0)));
     current_dossier :=
       if truthy (cell_or_none r 1)
       then Some (dossier_str (cell_or_none r 1)) else None;
     hosp_records := hosp_records st ++ emit_days (update_patient st r) r |}.
Proof.
  intros Hh Ht. unfold hospital_step. rewrite Hh.
  unfold update_patient at 1 2 3. rewrite Ht. reflexivity.
Qed.

Lemma hospital_step_anonymous st r :
  truthy (cell_or_none r 0) = false ->
  current_name (hospital_step st r) = current_name st /\
  current_dossier (hospital_step st r) = current_dossier st /\
  exists recs, hosp_records (hospital_step st r) = hosp_records st ++ recs.
Proof.
  intros Ht. unfold hospital_step. destruct (is_header_row r).
  - repeat split; auto. exists []. now rewrite app_nil_r.
  - unfold update_patient. rewrite Ht. simpl. repeat split; eauto.
Qed.

Lemma hospital_step_quiet st r :
  current_dossier st = None ->
  truthy (cell_or_none r 0) = false \/ truthy (cell_or_none r 1) = false ->
  current_dossier (hospital_step st r) = None /\
  hosp_records (hospital_step st r) = hosp_records st.
Proof.
  intros Hd H. unfold hospital_step. destruct (is_header_row r); auto.
  unfold update_patient, emit_days. cbn [current_dossier hosp_records].
  destruct (truthy (cell_or_none r 0)) eqn:E0.
  - destruct H as [H | H]; [discriminate|]. rewrite H. simpl. now rewrite app_nil_r.
  - rewrite Hd. now rewrite app_nil_r.
Qed.

Lemma hosp_fold_quiet rows st :
  current_dossier st = None ->
  Forall (fun r => r <> [] /\
                   (truthy (cell_or_none r 0) = false \/
                    truthy (cell_or_none r 1) = false)) rows ->
  exists st', foldM hospital_row rows st = Ok st' /\
              current_dossier st' = None /\ hosp_records st' = hosp_records st.
Proof.
  intros Hd H. revert st Hd. induction H as [|r rows [Hr Hq] _ IH]; intros st Hd.
  - now exists st.
  - cbn [foldM]. rewrite (hospital_row_pure st r Hr). simpl bind.
    destruct (hospital_step_quiet st r Hd Hq) as [H1 H2].
    destruct (IH _ H1) as [st' [E [D R]]]. exists st'. repeat split; congruence.
Qed.

Lemma hosp_fold_anonymous rows st :
  current_dossier st = None -> Forall anonymous rows ->
  foldM hospital_row rows st = Ok st.
Proof.
  intros Hd H. induction H as [|r rows [Hr Ha] _ IH]; auto.
  cbn [foldM]. rewrite (hospital_row_pure st r Hr). simpl bind.
  destruct (hospital_step_anonymous st r Ha) as [N [D _]].
  destruct (hospital_step_quiet st r Hd (or_introl Ha)) as [_ R].
  assert (hospital_step st r = st) as ->; auto.
  destruct (hospital_step st r), st; simpl in *; congruence.
Qed.

(** C4, counterexample.  A row naming a patient with a blank file-number
    cell clears the carried file number instead of keeping it: the code rows
    that follow emit nothing, and the table gives the one record of its
    first row. *)
Lemma file_number_not_retained :
  let st := {| current_name := Some (str "DUPONT");
               current_dossier := Some (str "101");
               hosp_records := [] |} in
  (exists st', hospital_row st (hd [] (tl hosp_table_cleared)) = Ok st' /\
               current_dossier st' <> current_dossier st /\
               current_dossier st' = None) /\
  parse_hospital_report hosp_table_cleared =
    Ok [mk_record 1 "101" "DUPONT" "K-1" RAPPORT_HOPITAL].
Proof.
  split; [|reflexivity].
  eexists. split; [reflexivity|]. split; [discriminate | reflexivity].
Qed.

(** C4, amended.  On a row that is not a header and whose column 0 is
    present (non-blank and truthy), the carried name becomes the normalized
    text of column 0 and the carried file number becomes the canonical text
    of column 1 when that cell is present, and undefined otherwise: the
    number carried so far is dropped, the row emits nothing and neither do
    the rows without a name that follow.  A row whose column 0 is blank
    keeps the carried name and file number. *)
Theorem patient_row_update (st : hosp_state) (r : row) (c0 : cell) :
  nth_error r 0 = Some c0 -> notna c0 = true -> truthy c0 = true ->
  is_header_row r = false ->
  let c1 := cell_or_none r 1 in
  (exists recs,
     let st' := {| current_name := Some (normalize_name (py_str c0));
                   current_dossier :=
                     if truthy c1 then Some (dossier_str c1) else None;
                   hosp_records := hosp_records st ++ recs |} in
     hospital_row st r = Ok st' /\
     (truthy c1 = false ->
      recs = [] /\
      forall follow, Forall anonymous follow ->
                     foldM hospital_row follow st' = Ok st')) /\
  (forall st2 r2,
      anonymous r2 ->
      exists recs2,
        hospital_row st2 r2 =
        Ok {| current_name := current_name st2;
              current_dossier := current_dossier st2;
              hosp_records := hosp_records st2 ++ recs2 |}).
Proof.
  intros H0 N0 T0 Hh c1.
  pose proof (present_cell r 0 c0 H0 N0) as P0.
  assert (Hr : r <> []) by (intros ->; discriminate).
  split.
  - exists (emit_days (update_patient st r) r). cbv zeta.
    rewrite (hospital_row_pure st r Hr), hospital_step_named by congruence.
    rewrite P0. fold c1. split; [reflexivity|].
    intros T1. assert (E : emit_days (update_patient st r) r = []).
    { unfold emit_days, update_patient. rewrite P0, T0. fold c1. now rewrite T1. }
    split; [exact E|]. intros follow Hf. rewrite T1.
    now apply hosp_fold_anonymous.
  - intros st2 r2 [Hr2 Ha].
    destruct (hospital_step_anonymous st2 r2 Ha) as [N [D [recs R]]].
    exists recs. rewrite (hospital_row_pure st2 r2 Hr2). f_equal.
    destruct (hospital_step st2 r2); simpl in *; congruence.
Qed.

Lemma patient_row_update_witness :
  hospital_row {| current_name := Some (str "DUPONT");
                  current_dossier := Some (str "101");
                  hosp_records := [] |}
               (hd [] (tl hosp_table_cleared)) =
  Ok {| current_name := Some (str "MARTIN");
        current_dossier := None;
        hosp_records := [] |}.
Proof.
  destruct (patient_row_update
              {| current_name := Some (str "DUPONT");
                 current_dossier := Some (str "101");
                 hosp_records := [] |}
              (hd [] (tl hosp_table_cleared)) (CStr (str "MARTIN"))
              eq_refl eq_refl eq_refl eq_refl) as [[recs [H1 H2]] _].
  destruct (H2 eq_refl) as [-> _]. exact H1.
Defined.

(** C10, amended.  A file-number cell holding the number zero counts as
    absent.  The personal-log extractor emits nothing from such a row.  In
    the facility-report extractor a row that is not skipped as a header,
    whose name cell is present (non-blank and truthy) and whose file-number
    cell is zero leaves the carried file number undefined and emits
    nothing, and no record is emitted by the rows that follow as long as
    none supplies a file number.  A row that is skipped as a header, or
    whose name cell is blank or falsy, leaves the carried name and file
    number as they were, whatever its file-number cell. *)
Theorem zero_file_number_absent :
  (forall st r c,
      nth_error r 1 = Some c -> zero_cell c = true ->
      exists cd,
        my_billing_row st r = Ok {| current_date := cd; my_records := my_records st |}) /\
  (forall st r c0 c1,
      nth_error r 0 = Some c0 -> notna c0 = true -> truthy c0 = true ->
      is_header_row r = false ->
      nth_error r 1 = Some c1 -> zero_cell c1 = true ->
      let st' := {| current_name := Some (normalize_name (py_str c0));
                    current_dossier := None;
                    hosp_records := hosp_records st |} in
      hospital_row st r = Ok st' /\
      forall follow,
        Forall no_dossier follow ->
        exists st'', foldM hospital_row follow st' = Ok st'' /\
                     current_dossier st'' = None /\
                     hosp_records st'' = hosp_records st) /\
  (forall st r,
      r <> [] ->
      is_header_row r = true \/ truthy (cell_or_none r 0) = false ->
      exists recs,
        hospital_row st r =
        Ok {| current_name := current_name st;
              current_dossier := current_dossier st;
              hosp_records := hosp_records st ++ recs |}).
Proof.
  split; [|split].
  - intros st r c H1 Z.
    assert (Hr : r <> []) by (intros ->; discriminate).
    pose proof (zero_cell_absent r 1 c H1 Z) as T.
    eexists. rewrite (my_billing_row_pure st r Hr). f_equal. f_equal.
    assert (E : forall d, expected_my_records d r = []).
    { intros d. unfold expected_my_records. now rewrite T. }
    destruct (match date_like _ with Some _ => _ | None => _ end);
      rewrite ?E; apply app_nil_r.
  - intros st r c0 c1 H0 N0 T0 Hh H1 Z st'.
    assert (Hr : r <> []) by (intros ->; discriminate).
    pose proof (zero_cell_absent r 1 c1 H1 Z) as T.
    pose proof (present_cell r 0 c0 H0 N0) as P0.
    assert (E : hospital_row st r = Ok st').
    { rewrite (hospital_row_pure st r Hr), hospital_step_named by congruence.
      unfold emit_days, update_patient. rewrite P0, T0, T. simpl.
      now rewrite app_nil_r. }
    split; [exact E|]. intros follow Hf.
    apply (hosp_fold_quiet follow st' eq_refl).
    eapply Forall_impl; [|exact Hf]. intros a [Ha Hb]. auto.
  - intros st r Hr H. rewrite (hospital_row_pure st r Hr). unfold hospital_step.
    destruct (is_header_row r).
    + exists []. rewrite app_nil_r. now destruct st.
    + destruct H as [H | H]; [discriminate|].
      exists (emit_days st r). unfold update_patient. now rewrite H.
Qed.

Lemma zero_file_number_absent_witness :
  (exists cd,
      my_billing_row {| current_date := Some 5%Z; my_records := [] |}
        [CNaN; CFloat {| f_val := 0 # 1; f_str := str "0.0" |};
         CStr (str "MARTIN"); CStr (str "K-1")] =
      Ok {| current_date := cd; my_records := [] |}) /\
  (exists st'',
      foldM hospital_row [hd [] (tl (tl hosp_table_zero))]
        {| current_name := Some (str "MARTIN"); current_dossier := None;
           hosp_records := [mk_record 1 "101" "DUPONT" "K-1" RAPPORT_HOPITAL] |} = Ok st'' /\
      current_dossier st'' = None /\
      hosp_records st'' = [mk_record 1 "101" "DUPONT" "K-1" RAPPORT_HOPITAL]) /\
  parse_hospital_report hosp_table_zero =
    Ok [mk_record 1 "101" "DUPONT" "K-1" RAPPORT_HOPITAL;
        mk_record 1 "104" "DURAND" "K 20" RAPPORT_HOPITAL] /\
  (exists recs,
      hospital_row {| current_name := Some (str "DUPONT");
                      current_dossier := Some (str "101");
                      hosp_records := [] |}
        (hd [] (tl hosp_table_zero_name)) =
      Ok {| current_name := Some (str "DUPONT");
            current_dossier := Some (str "101");
            hosp_records := [] ++ recs |}).
Proof.
  destruct zero_file_number_absent as [Hm [Hh Hk]].
  split; [|split; [|split; [reflexivity|]]].
  - exact (Hm {| current_date := Some 5%Z; my_records := [] |}
              [CNaN; CFloat {| f_val := 0 # 1; f_str := str "0.0" |};
               CStr (str "MARTIN"); CStr (str "K-1")]
              (CFloat {| f_val := 0 # 1; f_str := str "0.0" |}) eq_refl eq_refl).
  - destruct (Hh {| current_name := Some (str "DUPONT");
                    current_dossier := Some (str "101");
                    hosp_records := [mk_record 1 "101" "DUPONT" "K-1" RAPPORT_HOPITAL] |}
                 (hd [] (tl hosp_table_zero)) (CStr (str "MARTIN")) (CInt 0)
                 eq_refl eq_refl eq_refl eq_refl eq_refl eq_refl) as [_ H].
    apply (H [hd [] (tl (tl hosp_table_zero))]).
    repeat constructor; discriminate.
  - apply (Hk {| current_name := Some (str "DUPONT");
                 current_dossier := Some (str "101");
                 hosp_records := [] |}
              (hd [] (tl hosp_table_zero_name))).
    + discriminate.
    + right. reflexivity.
Defined.

(** ** Fields of the emitted records *)

Lemma str_int_nonempty z : str_int z <> [].
Proof.
  unfold str_int, str, NilZero.string_of_int.
  destruct (Z.to_int z) as [u|u]; [|discriminate].
  unfold NilZero.string_of_uint. destruct u; discriminate.
Qed.

Lemma digit_val_range c : is_digit c = true -> (0 <= digit_val c <= 9)%Z.
Proof. by_char c; try discriminate; intros _; vm_compute; split; discriminate. Qed.

Lemma digits12_sep_range s d t :
  digits12_sep s = Some (d, t) -> (0 <= d <= 99)%Z.
Proof.
  unfold digits12_sep. destruct s as [|a [|b s]]; try discriminate.
  destruct (is_digit a) eqn:Ea; cbn [andb]; [|discriminate].
  pose proof (digit_val_range a Ea).
  destruct (is_digit b) eqn:Eb.
  - pose proof (digit_val_range b Eb).
    destruct s as [|c s]; [discriminate|].
    destruct (is_date_sep c); [|discriminate].
    intros H'. assert (d = 10 * digit_val a + digit_val b)%Z by congruence. lia.
  - destruct (is_date_sep b); [|discriminate].
    intros H'. assert (d = digit_val a) by congruence. lia.
Qed.

Lemma date_match_range s d : date_match s = Some d -> (0 <= d <= 99)%Z.
Proof.
  unfold date_match. destruct (digits12_sep s) as [[d1 r1]|] eqn:E; [|discriminate].
  destruct (digits12_sep r1) as [[d2 r2]|]; [|discriminate].
  destruct (digits4 r2); [|discriminate].
  intros H. injection H as <-. eapply digits12_sep_range; eauto.
Qed.















(** * Further properties *)

(** ** Reconciler: symmetry, counts, edge cases *)

Lemma compare_parts mine theirs :
  matched_of (compare_records mine theirs) =
    map snd (filter (fun kv => dict_mem (fst kv) (dict_of_records theirs))
               (dict_of_records mine)) /\
  only_in_my_of (compare_records mine theirs) =
    map snd (filter (fun kv => negb (dict_mem (fst kv) (dict_of_records theirs)))
               (dict_of_records mine)) /\
  only_in_hospital_of (compare_records mine theirs) =
    map snd (filter (fun kv => negb (dict_mem (fst kv) (dict_of_records mine)))
               (dict_of_records theirs)).
Proof. rewrite compare_records_filters. repeat split. Qed.

Lemma compare_part_keys mine theirs :
  keys_of (matched_of (compare_records mine theirs)) =
    filter (fun k => key_mem k (distinct_keys (keys_of theirs)))
           (distinct_keys (keys_of mine)) /\
  keys_of (only_in_my_of (compare_records mine theirs)) =
    filter (fun k => negb (key_mem k (distinct_keys (keys_of theirs))))
           (distinct_keys (keys_of mine)) /\
  keys_of (only_in_hospital_of (compare_records mine theirs)) =
    filter (fun k => negb (key_mem k (distinct_keys (keys_of mine))))
           (distinct_keys (keys_of theirs)).
Proof.
  destruct (compare_records mine theirs) as [[m a] b] eqn:E.
  apply (compare_records_keys _ _ _ _ _ E).
Qed.

Lemma matched_keys_swap mine theirs :
  Permutation (keys_of (matched_of (compare_records mine theirs)))
              (keys_of (matched_of (compare_records theirs mine))).
Proof.
  destruct (compare_part_keys mine theirs) as [-> _].
  destruct (compare_part_keys theirs mine) as [-> _].
  apply NoDup_Permutation; try apply NoDup_filter, distinct_keys_NoDup.
  intros k. rewrite !filter_In, !key_mem_In. tauto.
Qed.

(** X1.  Swapping the two sides of [compare_records] swaps the two
    one-sided lists, record for record and in the same order, and keeps the
    set and the number of matched keys. *)
Theorem compare_records_swap (mine theirs : list record) :
  only_in_my_of (compare_records theirs mine) =
    only_in_hospital_of (compare_records mine theirs) /\
  only_in_hospital_of (compare_records theirs mine) =
    only_in_my_of (compare_records mine theirs) /\
  Permutation (keys_of (matched_of (compare_records mine theirs)))
              (keys_of (matched_of (compare_records theirs mine))) /\
  List.length (matched_of (compare_records mine theirs)) =
  List.length (matched_of (compare_records theirs mine)).
Proof.
  destruct (compare_parts mine theirs) as [_ [A B]].
  destruct (compare_parts theirs mine) as [_ [A' B']].
  split; [congruence|]. split; [congruence|].
  split; [apply matched_keys_swap|].
  pose proof (Permutation_length (matched_keys_swap mine theirs)) as L.
  unfold keys_of in L. now rewrite !length_map in L.
Qed.

Lemma filter_nil_iff {A} (p : A -> bool) l :
  filter p l = [] <-> forall x, In x l -> p x = false.
Proof.
  induction l as [|a l IH]; simpl.
  - split; auto. intros _ x [].
  - destruct (p a) eqn:E; split.
    + discriminate.
    + intros H. specialize (H a (or_introl eq_refl)). congruence.
    + intros H x [<- | Hx]; auto. now apply IH.
    + intros H. apply IH. intros x Hx. apply H. now right.
Qed.

Lemma keys_of_nil_iff l : keys_of l = [] <-> l = [].
Proof. unfold keys_of. destruct l; simpl; split; congruence. Qed.

Lemma no_difference_same_keys mine theirs :
  only_in_my_of (compare_records mine theirs) = [] /\
  only_in_hospital_of (compare_records mine theirs) = [] <->
  forall k, In k (keys_of mine) <-> In k (keys_of theirs).
Proof.
  rewrite <- (keys_of_nil_iff (only_in_my_of _)), <- (keys_of_nil_iff (only_in_hospital_of _)).
  destruct (compare_part_keys mine theirs) as [_ [-> ->]].
  rewrite !filter_nil_iff. split.
  - intros [H1 H2] k. split; intros Hk.
    + apply (proj2 (distinct_keys_In _ _)) in Hk. apply H1 in Hk.
      apply negb_false_iff in Hk. apply key_mem_In in Hk.
      now apply (proj1 (distinct_keys_In _ _)) in Hk.
    + apply (proj2 (distinct_keys_In _ _)) in Hk. apply H2 in Hk.
      apply negb_false_iff in Hk. apply key_mem_In in Hk.
      now apply (proj1 (distinct_keys_In _ _)) in Hk.
  - intros H. split; intros k Hk; apply negb_false_iff; apply key_mem_In;
      apply (proj2 (distinct_keys_In _ _));
      apply (proj1 (distinct_keys_In _ _)) in Hk; now apply H.
Qed.

(** X2.  Nothing is reported missing, on either side, exactly when the two
    inputs have the same set of keys: this is the case in which [main]
    congratulates and the workbook carries the success message. *)
Theorem no_difference_iff_same_keys (mine theirs : list record) :
  only_in_my_of (compare_records mine theirs) = [] /\
  only_in_hospital_of (compare_records mine theirs) = [] <->
  forall k, In k (keys_of mine) <-> In k (keys_of theirs).
Proof. exact (no_difference_same_keys mine theirs). Qed.

Lemma filter_split_length {A} (p : A -> bool) l :
  List.length (filter p l) + List.length (filter (fun x => negb (p x)) l) = List.length l.
Proof.
  induction l as [|a l IH]; simpl; auto. destruct (p a); simpl; lia.
Qed.

Lemma distinct_keys_length ks : List.length (distinct_keys ks) <= List.length ks.
Proof.
  induction ks as [|k ks IH] using rev_ind; auto.
  rewrite distinct_keys_snoc, length_app. simpl.
  destruct (key_mem k (distinct_keys ks)); [|rewrite length_app; simpl]; lia.
Qed.

(** X3.  The three figures [main] displays add up: matched plus
    personal-only is the number of distinct keys of the personal input,
    matched plus facility-only the number of distinct keys of the facility
    input, and no figure exceeds the size of the input it comes from. *)
Theorem compare_records_counts (mine theirs : list record) :
  let c := compare_records mine theirs in
  List.length (matched_of c) + List.length (only_in_my_of c) =
    List.length (distinct_keys (keys_of mine)) /\
  List.length (matched_of c) + List.length (only_in_hospital_of c) =
    List.length (distinct_keys (keys_of theirs)) /\
  List.length (matched_of c) + List.length (only_in_my_of c) <= List.length mine /\
  List.length (matched_of c) + List.length (only_in_hospital_of c) <= List.length theirs.
Proof.
  intros c.
  assert (L : forall l : list record, List.length (keys_of l) = List.length l)
    by (intros l; apply length_map).
  assert (A : List.length (matched_of c) + List.length (only_in_my_of c) =
              List.length (distinct_keys (keys_of mine))).
  { rewrite <- (L (matched_of c)), <- (L (only_in_my_of c)). unfold c.
    destruct (compare_part_keys mine theirs) as [-> [-> _]].
    apply filter_split_length. }
  assert (B : List.length (matched_of c) + List.length (only_in_hospital_of c) =
              List.length (distinct_keys (keys_of theirs))).
  { rewrite <- (L (matched_of c)), <- (L (only_in_hospital_of c)). unfold c.
    rewrite (Permutation_length (matched_keys_swap mine theirs)).
    destruct (compare_part_keys theirs mine) as [-> _].
    destruct (compare_part_keys mine theirs) as [_ [_ ->]].
    apply filter_split_length. }
  pose proof (distinct_keys_length (keys_of mine)).
  pose proof (distinct_keys_length (keys_of theirs)).
  rewrite L in *. repeat split; lia.
Qed.

Lemma last_with_key_In k l r : last_with_key k l = Some r -> In r l /\ make_key r = k.
Proof.
  unfold last_with_key. intros H. apply find_some in H as [H1 H2].
  apply in_rev in H1. apply key_eqb_eq in H2. auto.
Qed.

Lemma compare_parts_incl (mine theirs : list record) :
  incl (matched_of (compare_records mine theirs)) mine /\
  incl (only_in_my_of (compare_records mine theirs)) mine /\
  incl (only_in_hospital_of (compare_records mine theirs)) theirs.
Proof.
  destruct (compare_parts mine theirs) as [-> [-> ->]].
  repeat split; intros r H.
  - apply (in_part_iff mine (fun k => dict_mem k (dict_of_records theirs))) in H.
    destruct H as [H _]. now apply last_with_key_In in H.
  - apply (in_part_iff mine (fun k => negb (dict_mem k (dict_of_records theirs)))) in H.
    destruct H as [H _]. now apply last_with_key_In in H.
  - apply (in_part_iff theirs (fun k => negb (dict_mem k (dict_of_records mine)))) in H.
    destruct H as [H _]. now apply last_with_key_In in H.
Qed.

(** X4.  [compare_records] invents nothing: every matched or
    personal-only record is a record of the personal input, every
    facility-only record a record of the facility input. *)
Theorem compare_records_from_inputs (mine theirs : list record) :
  incl (matched_of (compare_records mine theirs)) mine /\
  incl (only_in_my_of (compare_records mine theirs)) mine /\
  incl (only_in_hospital_of (compare_records mine theirs)) theirs.
Proof. apply compare_parts_incl. Qed.

Lemma dict_set_fresh d k v :
  key_mem k (map fst d) = false -> dict_set d k v = d ++ [(k, v)].
Proof.
  induction d as [|[k' v'] d IH]; simpl; auto.
  intros H. apply orb_false_iff in H as [H1 H2].
  assert (key_eqb k' k = false) as ->.
  { apply key_eqb_neq. apply key_eqb_neq in H1. congruence. }
  now rewrite IH.
Qed.

Lemma dict_of_records_distinct l :
  NoDup (keys_of l) -> dict_of_records l = map (fun r => (make_key r, r)) l.
Proof.
  induction l as [|r l IH] using rev_ind; auto.
  unfold keys_of. rewrite map_app. simpl. intros H.
  apply NoDup_remove in H as [H1 H2]. rewrite app_nil_r in H1, H2.
  rewrite dict_of_records_snoc, map_app, (IH H1). simpl.
  apply dict_set_fresh. apply key_mem_not_In.
  rewrite map_map. simpl. exact H2.
Qed.

Lemma dedup_records_keys l : keys_of (dedup_records l) = distinct_keys (keys_of l).
Proof.
  unfold dedup_records. rewrite <- dict_of_records_keys.
  pose proof (dict_entry_keys l (fun _ => true)) as H.
  rewrite filter_true in H. exact H.
Qed.

Lemma dict_of_dedup l : dict_of_records (dedup_records l) = dict_of_records l.
Proof.
  rewrite dict_of_records_distinct
    by (rewrite dedup_records_keys; apply distinct_keys_NoDup).
  unfold dedup_records. rewrite map_map.
  rewrite <- (map_id (dict_of_records l)) at 2.
  apply map_ext_in. intros [k r] H. simpl.
  now rewrite (dict_of_records_entry _ _ _ H).
Qed.

(** X5.  Collapsing each side to one record per key beforehand, the last
    filed, changes nothing in the comparison; collapsing twice is collapsing
    once; and a side whose keys are all distinct is kept as it is. *)
Theorem dedup_records_invariance (mine theirs : list record) :
  compare_records (dedup_records mine) (dedup_records theirs) =
    compare_records mine theirs /\
  dedup_records (dedup_records mine) = dedup_records mine /\
  NoDup (keys_of (dedup_records mine)) /\
  (NoDup (keys_of mine) -> dedup_records mine = mine).
Proof.
  split; [|split; [|split]].
  - rewrite !compare_records_filters, !dict_of_dedup. reflexivity.
  - unfold dedup_records at 1. now rewrite dict_of_dedup.
  - rewrite dedup_records_keys. apply distinct_keys_NoDup.
  - intros H. unfold dedup_records. rewrite (dict_of_records_distinct _ H), map_map.
    apply map_id.
Qed.

Lemma dedup_records_invariance_witness :
  NoDup (keys_of [martin_k1_hosp; martin_m6_hosp]) /\
  dedup_records [martin_k1_hosp; martin_m6_hosp] = [martin_k1_hosp; martin_m6_hosp].
Proof.
  assert (N : NoDup (keys_of [martin_k1_hosp; martin_m6_hosp])).
  { repeat constructor; simpl; intuition discriminate. }
  split; [exact N|].
  apply (dedup_records_invariance [martin_k1_hosp; martin_m6_hosp] []). exact N.
Defined.

Lemma filter_all {A} (p : A -> bool) l :
  (forall x, In x l -> p x = true) -> filter p l = l.
Proof.
  induction l as [|a l IH]; simpl; auto. intros H.
  rewrite (H a (or_introl eq_refl)). f_equal. apply IH. intros x Hx. apply H. now right.
Qed.

Lemma filter_none {A} (p : A -> bool) l :
  (forall x, In x l -> p x = false) -> filter p l = [].
Proof. apply filter_nil_iff. Qed.

(** X6.  Edge cases of the comparison.  Against an empty facility input
    every personal record, one per key, is personal-only; against an empty
    personal input every facility record, one per key, is facility-only; a
    list compared with itself is matched throughout. *)
Theorem compare_records_edges (records : list record) :
  compare_records records [] = ([], dedup_records records, []) /\
  compare_records [] records = ([], [], dedup_records records) /\
  compare_records records records = (dedup_records records, [], []) /\
  compare_records [] [] = ([], [], []).
Proof.
  rewrite !compare_records_filters. unfold dedup_records.
  change (dict_of_records []) with (@nil (key * record)). cbn [filter map dict_mem existsb].
  rewrite filter_false, filter_true. cbn [map negb].
  assert (T : forall x, In x (dict_of_records records) ->
                        dict_mem (fst x) (dict_of_records records) = true).
  { intros [k r] H. rewrite dict_mem_keys. apply key_mem_In.
    apply in_map_iff. now exists (k, r). }
  assert (F : filter (fun kv => negb (dict_mem (fst kv) (dict_of_records records)))
                (dict_of_records records) = []).
  { apply filter_none. intros x Hx. now rewrite (T x Hx). }
  repeat split. now rewrite F, (filter_all _ _ T).
Qed.

(** ** Extractors: the columns read *)

Lemma cell_or_none_ext r r' i :
  nth_error r i = nth_error r' i -> cell_or_none r i = cell_or_none r' i.
Proof. intros H. now rewrite !cell_or_none_spec, H. Qed.

Lemma my_billing_row_ext st r r' :
  same_my_columns r r' -> my_billing_row st r = my_billing_row st r'.
Proof.
  intros H. unfold my_billing_row, my_row_records, iloc.
  rewrite (H 0) by lia.
  rewrite (cell_or_none_ext r r' 1), (cell_or_none_ext r r' 2),
    (cell_or_none_ext r r' 3) by (apply H; lia).
  reflexivity.
Qed.

Lemma foldM_ext2 {S A} (f : S -> A -> result S) (R : A -> A -> Prop) l l' :
  (forall s a a', R a a' -> f s a = f s a') ->
  Forall2 R l l' -> forall s, foldM f l s = foldM f l' s.
Proof.
  intros Hf H. induction H as [|a a' l l' Ha _ IH]; intros s; auto.
  cbn [foldM]. rewrite (Hf s a a' Ha). destruct (f s a'); simpl; auto.
Qed.

Lemma firstn_same_columns n (r : row) i : i < n -> nth_error r i = nth_error (firstn n r) i.
Proof.
  intros H. rewrite nth_error_firstn. apply Nat.ltb_lt in H. now rewrite H.
Qed.

(** X7.  The personal-log extractor reads the columns 0 to 3 and no
    other: two tables whose rows agree on these give the same result,
    records or exception; in particular every row can be cut after its
    fourth cell. *)
Theorem personal_log_reads_four_columns (df df' : list row) :
  Forall2 same_my_columns df df' ->
  parse_my_billing df = parse_my_billing df' /\
  parse_my_billing (map (firstn 4) df) = parse_my_billing df.
Proof.
  intros H. unfold parse_my_billing. split.
  - now rewrite (foldM_ext2 my_billing_row same_my_columns df df'
                   (fun s a a' Ha => my_billing_row_ext s a a' Ha) H).
  - rewrite (foldM_ext2 my_billing_row same_my_columns (map (firstn 4) df) df
               (fun s a a' Ha => my_billing_row_ext s a a' Ha)); auto.
    clear. induction df as [|r df IH]; constructor; auto.
    intros i Hi. symmetry. now apply firstn_same_columns.
Qed.

Lemma personal_log_reads_four_columns_witness :
  parse_my_billing
    (map (fun r => r ++ [CStr (str "remarque")]) my_table_carry) =
  parse_my_billing my_table_carry.
Proof.
  apply (personal_log_reads_four_columns
           (map (fun r => r ++ [CStr (str "remarque")]) my_table_carry) my_table_carry).
  repeat constructor; intros i Hi;
    do 4 (destruct i as [|i]; [reflexivity|]); lia.
Defined.

Lemma flat_map_ext_on {A B} (f g : A -> list B) l :
  (forall a, In a l -> f a = g a) -> flat_map f l = flat_map g l.
Proof.
  induction l as [|a l IH]; simpl; auto. intros H.
  rewrite (H a (or_introl eq_refl)), IH; auto.
Qed.

Lemma day_records_ext n dos c r r' :
  same_hosp_columns r r' -> day_records n dos c r = day_records n dos c r'.
Proof.
  intros H. unfold day_records. apply flat_map_ext_on. intros day Hd.
  apply in_seq in Hd.
  assert (E : nth_error r (6 + (day - 1)) = nth_error r' (6 + (day - 1)))
    by (apply H; lia).
  destruct (6 + (day - 1) <? List.length r) eqn:L, (6 + (day - 1) <? List.length r') eqn:L';
    rewrite <- ?E; auto.
  - apply Nat.ltb_ge, nth_error_None in L'. rewrite <- E in L'. now rewrite L'.
  - apply Nat.ltb_ge, nth_error_None in L. now rewrite L.
Qed.

Lemma emit_days_ext st r r' :
  same_hosp_columns r r' -> emit_days st r = emit_days st r'.
Proof.
  intros H. unfold emit_days.
  rewrite (cell_or_none_ext r r' 2) by (apply H; lia).
  destruct (current_dossier st) as [dos|]; auto.
  destruct (_ && _); auto. now apply day_records_ext.
Qed.

Lemma hospital_step_ext st r r' :
  same_hosp_columns r r' -> hospital_step st r = hospital_step st r'.
Proof.
  intros H. unfold hospital_step, is_header_row, update_patient.
  rewrite (cell_or_none_ext r r' 0), (cell_or_none_ext r r' 1),
    (cell_or_none_ext r r' 2) by (apply H; lia).
  destruct (_ || _ || _); auto.
  now rewrite (emit_days_ext _ r r' H).
Qed.

Lemma hospital_row_ext st r r' :
  same_hosp_columns r r' -> hospital_row st r = hospital_row st r'.
Proof.
  intros H. pose proof (H 0 (or_introl (Nat.lt_0_succ 2))) as H0.
  destruct r as [|c r], r' as [|c' r']; try discriminate; auto.
  rewrite !hospital_row_pure by discriminate. f_equal.
  now apply hospital_step_ext.
Qed.

(** X8.  The facility-report extractor reads the columns 0 to 2 and the
    day columns 6 to 36 and no other: two tables whose rows agree on these
    give the same result, records or exception; the columns 3 to 5 and
    everything from column 37 on are never looked at. *)
Theorem facility_report_columns_read (df df' : list row) :
  Forall2 same_hosp_columns df df' ->
  parse_hospital_report df = parse_hospital_report df' /\
  parse_hospital_report (map (firstn 37) df) = parse_hospital_report df.
Proof.
  intros H. unfold parse_hospital_report. split.
  - now rewrite (foldM_ext2 hospital_row same_hosp_columns df df'
                   (fun s a a' Ha => hospital_row_ext s a a' Ha) H).
  - rewrite (foldM_ext2 hospital_row same_hosp_columns (map (firstn 37) df) df
               (fun s a a' Ha => hospital_row_ext s a a' Ha)); auto.
    clear. induction df as [|r df IH]; constructor; auto.
    intros i Hi. symmetry. apply firstn_same_columns. lia.
Qed.

Lemma facility_report_columns_read_witness :
  parse_hospital_report
    (map (fun r => firstn 3 r ++ [CStr (str "a"); CInt 7; CStr (str "NOM")] ++ skipn 6 r)
         hosp_table_cleared) =
  parse_hospital_report hosp_table_cleared.
Proof.
  apply (facility_report_columns_read
           (map (fun r => firstn 3 r ++ [CStr (str "a"); CInt 7; CStr (str "NOM")] ++ skipn 6 r)
                hosp_table_cleared)
           hosp_table_cleared).
  repeat constructor; intros i Hi;
    do 3 (destruct i as [|i]; [reflexivity|]);
    do 3 (destruct i as [|i]; [lia|]); reflexivity.
Defined.

(** ** Extractors: sections of a table *)

Lemma my_fold_prefix rows cd recs :
  foldM my_billing_row rows {| current_date := cd; my_records := recs |} =
  (st <- foldM my_billing_row rows {| current_date := cd; my_records := [] |} ;;
   Ok {| current_date := current_date st; my_records := recs ++ my_records st |}).
Proof.
  revert cd recs. induction rows as [|r rows IH]; intros cd recs.
  - simpl. now rewrite app_nil_r.
  - cbn [foldM]. destruct r as [|c0 r].
    + reflexivity.
    + rewrite !my_billing_row_pure by discriminate. cbn [bind current_date my_records].
      rewrite IH. rewrite (IH _ ([] ++ _)).
      destruct (foldM my_billing_row rows _) as [st|e]; simpl; auto.
      now rewrite app_assoc.
Qed.

(** X9.  A personal-log table can be read in sections: when the second
    part begins with a dated row, the records of the whole table are the
    records of the first part followed by those of the second part read on
    its own, and an exception of either part is the exception of the
    whole. *)
Theorem personal_log_sections (a rest : list row) (dated : row) (d : Z) :
  date_like (cell_or_none dated 0) = Some d ->
  parse_my_billing (a ++ dated :: rest) =
  (ra <- parse_my_billing a ;;
   rb <- parse_my_billing (dated :: rest) ;;
   Ok (ra ++ rb)).
Proof.
  intros Hd. assert (Hr : dated <> []) by (intros ->; discriminate).
  unfold parse_my_billing. rewrite foldM_app.
  destruct (foldM my_billing_row a my_init) as [[cd recs]|e]; [|reflexivity].
  cbn [bind foldM my_records].
  rewrite !my_billing_row_pure by assumption. rewrite Hd.
  cbn [bind current_date my_records my_init].
  rewrite my_fold_prefix. rewrite (my_fold_prefix rest _ ([] ++ _)).
  destruct (foldM my_billing_row rest _) as [st|e]; simpl; auto.
  now rewrite app_assoc.
Qed.

Lemma personal_log_sections_witness :
  parse_my_billing my_table_carry =
  (ra <- parse_my_billing [hd [] my_table_carry] ;;
   rb <- parse_my_billing (tl my_table_carry) ;;
   Ok (ra ++ rb)).
Proof.
  exact (personal_log_sections [hd [] my_table_carry] (tl (tl my_table_carry))
           (hd [] (tl my_table_carry)) 5%Z eq_refl).
Defined.

Lemma hospital_step_carried st r :
  hospital_step st r =
  {| current_name := current_name (hospital_step (carried st) r);
     current_dossier := current_dossier (hospital_step (carried st) r);
     hosp_records := hosp_records st ++ hosp_records (hospital_step (carried st) r) |}.
Proof.
  unfold hospital_step, carried, update_patient, emit_days.
  destruct (is_header_row r).
  - simpl. rewrite app_nil_r. now destruct st.
  - destruct (truthy (cell_or_none r 0)); reflexivity.
Qed.

Lemma hosp_fold_prefix rows st :
  foldM hospital_row rows st =
  (st' <- foldM hospital_row rows (carried st) ;;
   Ok {| current_name := current_name st';
         current_dossier := current_dossier st';
         hosp_records := hosp_records st ++ hosp_records st' |}).
Proof.
  revert st. induction rows as [|r rows IH]; intros st.
  - simpl. rewrite app_nil_r. now destruct st.
  - cbn [foldM]. destruct r as [|c0 r].
    + reflexivity.
    + rewrite !hospital_row_pure by discriminate. cbn [bind].
      rewrite IH. rewrite (IH (hospital_step (carried st) _)).
      rewrite (hospital_step_carried st).
      unfold carried at 1 3. cbn [current_name current_dossier hosp_records].
      fold (carried (hospital_step (carried st) (c0 :: r))).
      destruct (foldM hospital_row rows _) as [st'|e]; simpl; auto.
      now rewrite app_assoc.
Qed.

(** X10.  A facility table can be read in sections: when the second part
    begins with a row that is no header and names a patient, the records of
    the whole table are the records of the first part followed by those of
    the second part read on its own, and an exception of either part is the
    exception of the whole. *)
Theorem facility_report_sections (a rest : list row) (named : row) :
  is_header_row named = false ->
  truthy (cell_or_none named 0) = true ->
  parse_hospital_report (a ++ named :: rest) =
  (ra <- parse_hospital_report a ;;
   rb <- parse_hospital_report (named :: rest) ;;
   Ok (ra ++ rb)).
Proof.
  intros Hh Ht.
  assert (Hr : named <> []) by (intros ->; discriminate).
  unfold parse_hospital_report. rewrite foldM_app.
  destruct (foldM hospital_row a hosp_init) as [st|e]; [|reflexivity].
  cbn [bind foldM].
  rewrite !hospital_row_pure by assumption. cbn [bind].
  rewrite hosp_fold_prefix. rewrite (hosp_fold_prefix rest (hospital_step hosp_init _)).
  rewrite !hospital_step_named by assumption.
  unfold carried, update_patient, emit_days. rewrite Ht.
  cbn [current_name current_dossier hosp_records hosp_init app].
  destruct (foldM hospital_row rest _) as [st'|e]; simpl; auto.
  now rewrite app_assoc.
Qed.

Lemma facility_report_sections_witness :
  parse_hospital_report hosp_table_zero =
  (ra <- parse_hospital_report [hd [] hosp_table_zero] ;;
   rb <- parse_hospital_report (tl hosp_table_zero) ;;
   Ok (ra ++ rb)).
Proof.
  exact (facility_report_sections [hd [] hosp_table_zero] (tl (tl hosp_table_zero))
           (hd [] (tl hosp_table_zero)) eq_refl eq_refl).
Defined.

(** ** Extractors: exceptions *)

Lemma my_fold_outcome rows st :
  (~ In [] rows /\ exists st', foldM my_billing_row rows st = Ok st') \/
  (In [] rows /\ foldM my_billing_row rows st = Raise IndexError).
Proof.
  revert st. induction rows as [|r rows IH]; intros st.
  - left. split; [intros [] | now exists st].
  - cbn [foldM]. destruct r as [|c0 r].
    + right. split; [now left | reflexivity].
    + rewrite my_billing_row_pure by discriminate. cbn [bind].
      destruct (IH {| current_date :=
                        match date_like (cell_or_none (c0 :: r) 0) with
                        | Some d => Some d
                        | None => current_date st
                        end;
                      my_records := my_records st ++
                        match match date_like (cell_or_none (c0 :: r) 0) with
                              | Some d => Some d
                              | None => current_date st
                              end with
                        | Some d => expected_my_records d (c0 :: r)
                        | None => []
                        end |}) as [[Hn He] | [Hi He]].
      * left. split; auto. intros [H | H]; [discriminate | auto].
      * right. split; [now right | exact He].
Qed.

Lemma hosp_fold_outcome rows st :
  (~ In [] rows /\ exists st', foldM hospital_row rows st = Ok st') \/
  (In [] rows /\ foldM hospital_row rows st = Raise IndexError).
Proof.
  revert st. induction rows as [|r rows IH]; intros st.
  - left. split; [intros [] | now exists st].
  - cbn [foldM]. destruct r as [|c0 r].
    + right. split; [now left | reflexivity].
    + rewrite hospital_row_pure by discriminate. cbn [bind].
      destruct (IH (hospital_step st (c0 :: r))) as [[Hn He] | [Hi He]].
      * left. split; auto. intros [H | H]; [discriminate | auto].
      * right. split; [now right | exact He].
Qed.

(** On tables whose floats are finite, the only exception of the two
    extractors is the [IndexError] of a row without any column: each of
    them raises it exactly when the table has such a row, and returns its
    records otherwise. *)
Theorem extractors_raise_on_empty_row_only (df : list row) :
  (In [] df <-> parse_my_billing df = Raise IndexError) /\
  (~ In [] df <-> exists recs, parse_my_billing df = Ok recs) /\
  (In [] df <-> parse_hospital_report df = Raise IndexError) /\
  (~ In [] df <-> exists recs, parse_hospital_report df = Ok recs).
Proof.
  unfold parse_my_billing, parse_hospital_report.
  destruct (my_fold_outcome df my_init) as [[Hn [st He]] | [Hi He]];
    destruct (hosp_fold_outcome df hosp_init) as [[Hn' [st' He']] | [Hi' He']];
    rewrite He, He'; cbn [bind]; try contradiction.
  - repeat split; try tauto; try discriminate; eauto.
  - repeat split; try tauto; try discriminate; intros [recs H]; discriminate.
Qed.

(** ** Facility-report extractor: the day columns *)

Lemma flat_map_optional {A B} (f : A -> list B) (p : A -> bool) (g : A -> B) l :
  (forall a, In a l -> f a = if p a then [g a] else []) ->
  flat_map f l = map g (filter p l).
Proof.
  induction l as [|a l IH]; simpl; auto. intros H.
  rewrite (H a (or_introl eq_refl)), IH by (intros x Hx; apply H; now right).
  now destruct (p a).
Qed.

Lemma day_records_marked n dos c r :
  day_records n dos c r =
  map (fun day => {| date := Z.of_nat day; dossier := dos; nom := n; code := c;
                     source := RAPPORT_HOPITAL |})
      (filter (day_marked r) (seq 1 31)).
Proof.
  unfold day_records. apply flat_map_optional. intros day Hd. apply in_seq in Hd.
  unfold day_marked. replace (6 + (day - 1)) with (5 + day) by lia.
  destruct (5 + day <? List.length r) eqn:L.
  - destruct (nth_error r (5 + day)); auto.
  - apply Nat.ltb_ge, nth_error_None in L. now rewrite L.
Qed.

(** X12.  On a row that is no header and under a carried file number,
    the facility-report extractor emits, for a present code cell, one
    record for each day from 1 to 31 whose cell, at column 5 + day, is
    present and does not print as white space only, in the order of the
    days and under the carried name and number, and no other record. *)
Theorem facility_row_days (st : hosp_state) (r : row) (dos : pystr) :
  r <> [] ->
  is_header_row r = false ->
  current_dossier (update_patient st r) = Some dos -> dos <> [] ->
  truthy (cell_or_none r 2) = true ->
  hospital_row st r =
  Ok {| current_name := current_name (update_patient st r);
        current_dossier := Some dos;
        hosp_records :=
          hosp_records st ++
          map (fun day => {| date := Z.of_nat day;
                             dossier := dos;
                             nom := current_name (update_patient st r);
                             code := normalize_code (py_str (cell_or_none r 2));
                             source := RAPPORT_HOPITAL |})
              (filter (day_marked r) (seq 1 31)) |}.
Proof.
  intros Hr Hh Hd Hne Hc.
  rewrite (hospital_row_pure st r Hr). unfold hospital_step. rewrite Hh.
  cbv zeta. unfold emit_days. rewrite Hd, Hc.
  assert (dossier_truthy (Some dos) = true) as ->
    by (destruct dos; [now elim Hne | reflexivity]).
  cbn [andb]. rewrite day_records_marked.
  f_equal. f_equal. f_equal.
  unfold update_patient. destruct (truthy (cell_or_none r 0)); reflexivity.
Qed.

Lemma facility_row_days_witness :
  hospital_row
    {| current_name := Some (str "DUPONT"); current_dossier := Some (str "101");
       hosp_records := [] |}
    (hosp_row CNaN CNaN (CStr (str "m  6"))
       [CNaN; CStr (str "X"); CStr (str " "); CInt 1]) =
  Ok {| current_name := Some (str "DUPONT"); current_dossier := Some (str "101");
        hosp_records := [mk_record 2 "101" "DUPONT" "M 6" RAPPORT_HOPITAL;
                         mk_record 4 "101" "DUPONT" "M 6" RAPPORT_HOPITAL] |}.
Proof.
  pose proof (facility_row_days
                {| current_name := Some (str "DUPONT");
                   current_dossier := Some (str "101"); hosp_records := [] |}
                (hosp_row CNaN CNaN (CStr (str "m  6"))
                   [CNaN; CStr (str "X"); CStr (str " "); CInt 1])
                (str "101")) as H.
  rewrite H; [reflexivity | discriminate | reflexivity | reflexivity
              | discriminate | reflexivity].
Defined.

(** ** Extractors: size of the output *)

Lemma expected_my_records_length d r : List.length (expected_my_records d r) <= 7.
Proof.
  unfold expected_my_records. destruct (_ && _ && _ && _); simpl; [|lia].
  rewrite length_map, parse_billing_code_table, length_map.
  etransitivity; [apply filter_length_le | reflexivity].
Qed.

Lemma emit_days_length st r : List.length (emit_days st r) <= 31.
Proof.
  unfold emit_days. destruct (current_dossier st); simpl; [|lia].
  destruct (_ && _); simpl; [|lia].
  rewrite day_records_marked, length_map.
  etransitivity; [apply filter_length_le | now rewrite length_seq].
Qed.

Lemma my_fold_length rows st st' :
  foldM my_billing_row rows st = Ok st' ->
  List.length (my_records st') <= List.length (my_records st) + 7 * List.length rows.
Proof.
  revert st. induction rows as [|r rows IH]; intros st.
  - simpl. intros H. injection H as <-. lia.
  - cbn [foldM]. destruct r as [|c0 r]; [discriminate|].
    rewrite my_billing_row_pure by discriminate. cbn [bind]. intros H.
    apply IH in H. cbn [my_records] in H. rewrite length_app in H.
    assert (L : List.length
                  match match date_like (cell_or_none (c0 :: r) 0) with
                        | Some d => Some d
                        | None => current_date st
                        end with
                  | Some d => expected_my_records d (c0 :: r)
                  | None => []
                  end <= 7).
    { destruct (match date_like _ with Some _ => _ | None => _ end);
        [apply expected_my_records_length | simpl; lia]. }
    cbn [List.length]. lia.
Qed.

Lemma hosp_fold_length rows st :
  List.length (hosp_records (fold_left hospital_step rows st))
  <= List.length (hosp_records st) + 31 * List.length rows.
Proof.
  revert st. induction rows as [|r rows IH]; intros st.
  - simpl. lia.
  - cbn [fold_left List.length]. etransitivity; [apply IH|].
    assert (L : List.length (hosp_records (hospital_step st r))
                <= List.length (hosp_records st) + 31).
    { unfold hospital_step. destruct (is_header_row r); [lia|].
      cbn [hosp_records]. rewrite length_app.
      pose proof (emit_days_length (update_patient st r) r).
      assert (hosp_records (update_patient st r) = hosp_records st) as ->
        by (unfold update_patient; destruct (truthy (cell_or_none r 0)); reflexivity).
      lia. }
    lia.
Qed.

(** X13.  A row gives at most seven records in the personal log, one per
    code of the vocabulary, and at most thirty-one in the facility report,
    one per day: on a table without an empty row the personal log returns
    at most seven records per row and the facility report at most
    thirty-one. *)
Theorem extractors_output_size (df : list row) :
  ~ In [] df ->
  (exists recs, parse_my_billing df = Ok recs /\
                List.length recs <= 7 * List.length df) /\
  (exists recs, parse_hospital_report df = Ok recs /\
                List.length recs <= 31 * List.length df).
Proof.
  intros Hn. split.
  - destruct (my_fold_outcome df my_init) as [[_ [st He]] | [Hi _]]; [|contradiction].
    exists (my_records st). unfold parse_my_billing. rewrite He. split; [reflexivity|].
    apply my_fold_length in He. simpl in He. lia.
  - assert (Hne : Forall (fun r => r <> []) df).
    { apply Forall_forall. intros r Hr ->. contradiction. }
    eexists. unfold parse_hospital_report.
    rewrite (hosp_fold_total df hosp_init Hne). split; [reflexivity|].
    pose proof (hosp_fold_length df hosp_init) as L. simpl in L. lia.
Qed.

Lemma extractors_output_size_witness :
  (exists recs, parse_my_billing my_table_carry = Ok recs /\
                List.length recs <= 7 * List.length my_table_carry) /\
  (exists recs, parse_hospital_report my_table_carry = Ok recs /\
                List.length recs <= 31 * List.length my_table_carry).
Proof.
  apply (extractors_output_size my_table_carry).
  intros H. simpl in H. intuition discriminate.
Defined.

Lemma my_fold_Forall (P : record -> Prop) rows st st' :
  (forall d r, Forall P (expected_my_records d r)) ->
  Forall P (my_records st) ->
  foldM my_billing_row rows st = Ok st' -> Forall P (my_records st').
Proof.
  intros HP. revert st. induction rows as [|r rows IH]; intros st Hs.
  - simpl. intros H. now injection H as <-.
  - cbn [foldM]. destruct r as [|c0 r]; [discriminate|].
    rewrite my_billing_row_pure by discriminate. cbn [bind]. apply IH.
    cbn [my_records]. apply Forall_app. split; auto.
    destruct (match date_like _ with Some _ => _ | None => _ end); auto.
Qed.

Lemma not_in_nil_rows (df : list row) : ~ In [] df -> Forall (fun r => r <> []) df.
Proof. intros H. apply Forall_forall. intros r Hr ->. contradiction. Qed.

(** ** The whole comparison *)

Lemma expected_my_records_source d r :
  Forall (fun x => source x = MA_FACTURATION) (expected_my_records d r).
Proof.
  unfold expected_my_records. destruct (_ && _ && _ && _); [|constructor].
  apply Forall_forall. intros x Hx. now apply in_map_iff in Hx as [c [<- _]].
Qed.

Lemma hosp_fold_source rows st :
  Forall (fun x => source x = RAPPORT_HOPITAL) (hosp_records st) ->
  Forall (fun x => source x = RAPPORT_HOPITAL)
         (hosp_records (fold_left hospital_step rows st)).
Proof.
  revert st. induction rows as [|r rows IH]; intros st Hs; auto.
  cbn [fold_left]. apply IH. unfold hospital_step.
  destruct (is_header_row r); auto. cbn [hosp_records].
  apply Forall_app. split.
  - unfold update_patient. now destruct (truthy (cell_or_none r 0)).
  - unfold emit_days. destruct (current_dossier _); [|constructor].
    destruct (_ && _); [|constructor]. rewrite day_records_marked.
    apply Forall_forall. intros x Hx. now apply in_map_iff in Hx as [day [<- _]].
Qed.

(** On tables whose floats are finite, the comparison [main] runs raises
    exactly when one of the tables has a row without any column, and then
    [IndexError]; otherwise it returns the three lists, where the matched
    and the personal-only records come from the personal log and the
    facility-only records from the facility report. *)
Theorem run_comparison_outcome (my_df hosp_df : list row) :
  (In [] my_df \/ In [] hosp_df <-> run_comparison my_df hosp_df = Raise IndexError) /\
  (~ In [] my_df /\ ~ In [] hosp_df <->
   exists c, run_comparison my_df hosp_df = Ok c) /\
  forall c, run_comparison my_df hosp_df = Ok c ->
    Forall (fun x => source x = MA_FACTURATION) (matched_of c ++ only_in_my_of c) /\
    Forall (fun x => source x = RAPPORT_HOPITAL) (only_in_hospital_of c).
Proof.
  unfold run_comparison, parse_my_billing, parse_hospital_report.
  destruct (my_fold_outcome my_df my_init) as [[Hn [st He]] | [Hi He]];
    destruct (hosp_fold_outcome hosp_df hosp_init) as [[Hn' [st' He']] | [Hi' He']];
    rewrite He, ?He'; cbn [bind].
  - split; [|split].
    + split; [tauto | discriminate].
    + split; eauto.
    + intros c Hc. injection Hc as <-.
      pose proof (compare_parts_incl (my_records st) (hosp_records st'))
        as [I1 [I2 I3]].
      assert (Sm : Forall (fun x => source x = MA_FACTURATION) (my_records st)).
      { apply (my_fold_Forall _ my_df my_init st);
          [apply expected_my_records_source | constructor | exact He]. }
      assert (Sh : Forall (fun x => source x = RAPPORT_HOPITAL) (hosp_records st')).
      { rewrite (hosp_fold_total hosp_df hosp_init (not_in_nil_rows _ Hn')) in He'.
        injection He' as <-. apply hosp_fold_source. constructor. }
      rewrite Forall_forall in Sm, Sh. split; apply Forall_forall; intros x Hx.
      * apply in_app_or in Hx as [Hx | Hx]; auto.
      * auto.
  - split; [|split]; [split; auto | split; [tauto | intros [c H]; discriminate]
                      | discriminate].
  - split; [|split]; [split; auto | split; [tauto | intros [c H]; discriminate]
                      | discriminate].
  - split; [|split]; [split; auto | split; [tauto | intros [c H]; discriminate]
                      | discriminate].
Qed.

Lemma run_comparison_outcome_witness :
  exists c, run_comparison my_table_carry hosp_table_zero = Ok c /\
            Forall (fun x => source x = RAPPORT_HOPITAL) (only_in_hospital_of c).
Proof.
  destruct (run_comparison_outcome my_table_carry hosp_table_zero) as [_ [_ H]].
  eexists. split; [reflexivity|]. apply (H _ eq_refl).
Defined.

(** ** Normalizers: what they ignore and what they return *)

Lemma upper_idem s : upper (upper s) = upper s.
Proof. unfold upper. rewrite map_map. apply map_ext. apply upper_char_idem. Qed.

Lemma all_space_lstrip s : all_space (lstrip s) = all_space s.
Proof.
  induction s as [|c s IH]; simpl; auto.
  destruct (isspace c) eqn:E; simpl; auto. now rewrite E.
Qed.

Lemma strip_nil_iff s : strip s = [] <-> all_space s = true.
Proof. unfold strip. now rewrite rstrip_nil_iff, all_space_lstrip. Qed.

Lemma collapse_nil_iff s : collapse_ws s = [] <-> s = [].
Proof.
  unfold collapse_ws. destruct s as [|c s]; simpl; [tauto|].
  destruct (isspace c); split; discriminate.
Qed.

Lemma collapse_leading s : collapse_from true s = collapse_from false (lstrip s).
Proof.
  induction s as [|c s IH]; simpl; auto.
  destruct (isspace c) eqn:E; auto. simpl. now rewrite E.
Qed.

Lemma lstrip_collapse_comm s : lstrip (collapse_ws s) = collapse_ws (lstrip s).
Proof.
  unfold collapse_ws. destruct s as [|c s]; auto. simpl.
  destruct (isspace c) eqn:E.
  - simpl. rewrite collapse_leading.
    apply lstrip_collapse. apply lstrip_idem.
  - simpl. now rewrite E.
Qed.

Lemma collapse_all_space b s : all_space s = true -> rstrip (collapse_from b s) = [].
Proof.
  revert b. induction s as [|c s IH]; intros b; simpl; auto.
  intros H. apply andb_true_iff in H as [H1 H2]. rewrite H1.
  destruct b; [now apply IH|].
  cbn [rstrip]. rewrite (IH true H2). reflexivity.
Qed.

Lemma rstrip_not_nil s : all_space s = false -> rstrip s <> [].
Proof. intros H E. apply rstrip_nil_iff in E. congruence. Qed.

Lemma rstrip_cons c s : rstrip s <> [] -> rstrip (c :: s) = c :: rstrip s.
Proof. intros H. cbn [rstrip]. destruct (rstrip s); congruence. Qed.

Lemma all_space_rstrip s : all_space s = false -> all_space (rstrip s) = false.
Proof.
  intros H. destruct (all_space (rstrip s)) eqn:E; auto.
  apply rstrip_nil_iff in E. rewrite rstrip_idem in E.
  apply rstrip_nil_iff in E. congruence.
Qed.

Lemma rstrip_collapse_comm b s :
  rstrip (collapse_from b s) = collapse_from b (rstrip s).
Proof.
  revert b. induction s as [|c s IH]; intros b; auto.
  destruct (all_space s) eqn:A.
  - assert (R : rstrip s = []) by now apply rstrip_nil_iff.
    cbn [rstrip collapse_from]. rewrite R.
    destruct (isspace c) eqn:E.
    + destruct b; [now apply collapse_all_space|].
      cbn [rstrip]. rewrite (collapse_all_space true s A). reflexivity.
    + cbn [rstrip collapse_from]. rewrite (collapse_all_space false s A), E. reflexivity.
  - pose proof (rstrip_not_nil s A) as N.
    rewrite (rstrip_cons c s N). cbn [collapse_from].
    pose proof (all_space_rstrip s A) as A'.
    destruct (isspace c); [destruct b|]; auto;
      rewrite rstrip_cons by (rewrite IH; now apply collapse_not_nil);
      now rewrite IH.
Qed.

Lemma strip_collapse_comm s : strip (collapse_ws s) = collapse_ws (strip s).
Proof.
  unfold strip. rewrite lstrip_collapse_comm. apply rstrip_collapse_comm.
Qed.

Lemma collapse_idem s : collapse_ws (collapse_ws s) = collapse_ws s.
Proof. apply tidy_collapse_fix, tidy_collapse. Qed.

Lemma remove_commas_upper s : remove_commas (upper s) = upper (remove_commas s).
Proof.
  induction s as [|c s IH]; simpl; auto.
  rewrite upper_char_comma. destruct (Ascii.eqb c ","); simpl; now rewrite IH.
Qed.

Lemma clean_no_comma s : forallb clean_char s = true -> ~ In "," s.
Proof.
  induction s as [|c s IH]; simpl; auto.
  intros H. apply andb_true_iff in H as [H1 H2].
  apply andb_true_iff in H1 as [_ H1]. apply negb_true_iff, Ascii.eqb_neq in H1.
  intros [E | E]; [congruence | now apply IH].
Qed.

(** ** Code decomposer: text around a cell *)

Lemma lstrip_suffix s : exists w, s = w ++ lstrip s.
Proof.
  induction s as [|c s [w IH]]; simpl; [now exists []|].
  destruct (isspace c).
  - exists (c :: w). simpl. now rewrite <- IH.
  - now exists [].
Qed.

Lemma rstrip_prefix s : exists w, s = rstrip s ++ w.
Proof.
  induction s as [|c s [w IH]]; [now exists []|].
  cbn [rstrip]. destruct (rstrip s) as [|x t] eqn:E.
  - destruct (isspace c).
    + exists (c :: s). reflexivity.
    + exists s. reflexivity.
  - exists w. simpl. simpl in IH. now rewrite <- IH.
Qed.

Lemma lstrip_app_keeps x q :
  lstrip q = q -> q <> [] -> exists x', lstrip (x ++ q) = x' ++ q.
Proof.
  intros Hq Hn. induction x as [|c x [x' IH]]; simpl.
  - now exists [].
  - destruct (isspace c); [now exists x' | now exists (c :: x)].
Qed.

Lemma rstrip_app_front p q : rstrip q <> [] -> rstrip (p ++ q) = p ++ rstrip q.
Proof.
  intros H. induction p as [|c p IH]; simpl app; auto.
  rewrite rstrip_cons; rewrite IH; auto.
  destruct p; simpl; [exact H | discriminate].
Qed.

Lemma rstrip_app_keeps q y :
  rstrip q = q -> q <> [] -> exists y', rstrip (q ++ y) = q ++ y'.
Proof.
  induction q as [|c q IH]; intros Hq Hn; [congruence|].
  apply rstrip_cons_fix in Hq as [[-> Hc] | [Hq1 Hq2]].
  - exists (rstrip y). cbn [app rstrip]. destruct (rstrip y); [now rewrite Hc | reflexivity].
  - destruct (IH Hq2 Hq1) as [y' Hy]. exists y'. simpl app.
    rewrite rstrip_cons; rewrite Hy; auto.
    destruct q; [congruence | discriminate].
Qed.

Lemma strip_surrounded a s b :
  strip s <> [] -> occurs (strip s) (strip (a ++ s ++ b)).
Proof.
  intros Hn.
  destruct (lstrip_suffix s) as [w1 H1].
  destruct (rstrip_prefix (lstrip s)) as [w2 H2]. fold (strip s) in H2.
  assert (Hs : strip (strip s) = strip s) by apply strip_trimmed.
  apply strip_fix_iff in Hs as [HL HR].
  assert (E : a ++ s ++ b = (a ++ w1) ++ (strip s ++ (w2 ++ b))).
  { rewrite H1 at 1. rewrite H2 at 1. now rewrite <- !app_assoc. }
  assert (HL' : lstrip (strip s ++ (w2 ++ b)) = strip s ++ (w2 ++ b)).
  { apply lstrip_head. apply lstrip_head in HL.
    destruct (strip s); [congruence | exact HL]. }
  destruct (lstrip_app_keeps (a ++ w1) (strip s ++ (w2 ++ b)) HL') as [x' Hx].
  { destruct (strip s); [congruence | discriminate]. }
  destruct (rstrip_app_keeps (strip s) (w2 ++ b) HR Hn) as [y' Hy].
  exists x', y'. unfold strip at 1. rewrite E, Hx.
  rewrite rstrip_app_front; rewrite Hy; auto.
  destruct (strip s); [congruence | discriminate].
Qed.

Lemma occurs_trans m s t : occurs m s -> occurs s t -> occurs m t.
Proof.
  intros [a [b ->]] [a' [b' ->]]. exists (a' ++ a), (b ++ b').
  now rewrite <- !app_assoc.
Qed.

Lemma occurs_upper s t : occurs s t -> occurs (upper s) (upper t).
Proof.
  intros [a [b ->]]. exists (upper a), (upper b). unfold upper. now rewrite !map_app.
Qed.

Lemma marker_hit_nonempty u line :
  In line spec_vocabulary -> marker_hit u line = true -> u <> [].
Proof.
  intros Hl H ->. revert H. unfold spec_vocabulary in Hl. cbn [In] in Hl.
  repeat (destruct Hl as [<- | Hl]; [discriminate|]). destruct Hl.
Qed.

(** X18.  The code decomposer ignores the letter case of a cell and the
    white space around it, returns at most seven codes, and never loses a
    code when text is added before or after the cell. *)
Theorem parse_billing_code_surroundings (s : pystr) :
  parse_billing_code (upper s) = parse_billing_code s /\
  parse_billing_code (strip s) = parse_billing_code s /\
  List.length (parse_billing_code s) <= 7 /\
  forall a b, incl (parse_billing_code s) (parse_billing_code (a ++ s ++ b)).
Proof.
  split; [|split; [|split]].
  - rewrite !parse_billing_code_table. now rewrite strip_upper, upper_idem.
  - rewrite !parse_billing_code_table. now rewrite strip_trimmed.
  - rewrite parse_billing_code_table, length_map.
    etransitivity; [apply filter_length_le | reflexivity].
  - intros a b c. rewrite !parse_billing_code_table, !in_map_iff.
    intros [line [Hc H]]. exists line. split; auto.
    apply filter_In in H as [Hl Hm]. apply filter_In. split; auto.
    pose proof (marker_hit_nonempty _ _ Hl Hm) as Hn.
    apply marker_hit_spec in Hm as [m [Hin Ho]]. apply marker_hit_spec.
    exists m. split; auto. eapply occurs_trans; [exact Ho|].
    apply occurs_upper, strip_surrounded.
    intros E. apply Hn. now rewrite E.
Qed.

(** ** The date pattern *)

Lemma sep_not_digit c : is_date_sep c = true -> is_digit c = false.
Proof. by_char c; discriminate. Qed.

Lemma digits12_sep_shape s d t :
  digits12_sep s = Some (d, t) <->
  exists D c, s = D ++ c :: t /\ all_digits D = true /\
              1 <= List.length D <= 2 /\ is_date_sep c = true /\ d = dec_value D.
Proof.
  unfold digits12_sep, all_digits, dec_value. split.
  - destruct s as [|a [|b s]]; try discriminate.
    destruct (is_digit a) eqn:Ea; cbn [andb]; [|discriminate].
    destruct (is_digit b) eqn:Eb.
    + destruct s as [|c s]; [discriminate|].
      destruct (is_date_sep c) eqn:Ec; [|discriminate].
      intros H. assert (d = 10 * digit_val a + digit_val b)%Z by congruence.
      assert (t = s) by congruence. subst.
      exists [a; b], c. cbn [forallb fold_left List.length app]. rewrite Ea, Eb.
      repeat split; auto.
    + destruct (is_date_sep b) eqn:Ec; [|discriminate].
      intros H. assert (d = digit_val a) by congruence. assert (t = s) by congruence.
      subst. exists [a], b. cbn [forallb fold_left List.length app]. rewrite Ea.
      repeat split; auto.
  - intros [D [c [-> [HD [[L1 L2] [Hc ->]]]]]].
    destruct D as [|a [|b [|x D]]]; simpl in L1, L2; try lia.
    + simpl in HD. rewrite andb_true_r in HD. cbn [app].
      rewrite HD, (sep_not_digit c Hc), Hc. reflexivity.
    + simpl in HD. rewrite andb_true_r in HD. apply andb_true_iff in HD as [Ha Hb].
      cbn [app]. rewrite Ha, Hb, Hc. reflexivity.
Qed.

Lemma digits4_shape s :
  digits4 s = true <->
  exists Y rest, s = Y ++ rest /\ all_digits Y = true /\ List.length Y = 4.
Proof.
  unfold digits4, all_digits. split.
  - destruct s as [|a [|b [|c [|d s]]]]; try discriminate.
    intros H. exists [a; b; c; d], s. cbn [forallb].
    destruct (is_digit a), (is_digit b), (is_digit c), (is_digit d);
      try discriminate. repeat split.
  - intros [Y [rest [-> [HY L]]]].
    destruct Y as [|a [|b [|c [|d [|x Y]]]]]; try discriminate.
    cbn [forallb] in HY. cbn [app].
    destruct (is_digit a), (is_digit b), (is_digit c), (is_digit d);
      try discriminate. reflexivity.
Qed.

Lemma date_match_shape s d : date_match s = Some d <-> date_shape s d.
Proof.
  unfold date_match, date_shape. split.
  - destruct (digits12_sep s) as [[d1 r1]|] eqn:E1; [|discriminate].
    destruct (digits12_sep r1) as [[d2 r2]|] eqn:E2; [|discriminate].
    destruct (digits4 r2) eqn:E3; [|discriminate].
    intros H. injection H as <-.
    apply digits12_sep_shape in E1 as [D [s1 [-> [HD [LD [H1 ->]]]]]].
    apply digits12_sep_shape in E2 as [M [s2 [-> [HM [LM [H2 _]]]]]].
    apply digits4_shape in E3 as [Y [rest [-> [HY LY]]]].
    exists D, M, Y, rest, s1, s2. repeat split; auto; lia.
  - intros [D [M [Y [rest [s1 [s2 [-> [HD [LD [HM [LM [HY [LY [H1 [H2 ->]]]]]]]]]]]]]]].
    assert (E1 : digits12_sep (D ++ s1 :: M ++ s2 :: Y ++ rest) =
                 Some (dec_value D, M ++ s2 :: Y ++ rest)).
    { apply digits12_sep_shape. exists D, s1. repeat split; auto; lia. }
    assert (E2 : digits12_sep (M ++ s2 :: Y ++ rest) = Some (dec_value M, Y ++ rest)).
    { apply digits12_sep_shape. exists M, s2. repeat split; auto; lia. }
    assert (E3 : digits4 (Y ++ rest) = true).
    { apply digits4_shape. now exists Y, rest. }
    now rewrite E1, E2, E3.
Qed.

(** X19.  The date pattern of the personal log accepts exactly the texts
    that begin with one or two digits, a slash or a dash, one or two
    digits, a slash or a dash, and four digits, and the day it returns is
    the value of the first digits; what follows the four digits is
    ignored, and the day lies between 0 and 99. *)
Theorem date_match_exact (s : pystr) (d : Z) :
  (date_match s = Some d <-> date_shape s d) /\
  (date_match s = Some d ->
   (0 <= d <= 99)%Z /\ forall t, date_match (s ++ t) = Some d).
Proof.
  split; [apply date_match_shape|].
  intros H. split; [now apply date_match_range in H|].
  intros t. apply date_match_shape in H. apply date_match_shape.
  destruct H as [D [M [Y [rest [s1 [s2 [-> H]]]]]]].
  exists D, M, Y, (rest ++ t), s1, s2. split; [|exact H].
  rewrite <- !app_assoc. simpl. rewrite <- !app_assoc. simpl.
  now rewrite <- app_assoc.
Qed.

Lemma date_match_exact_witness :
  date_shape (str "05/01/2024") 5 /\
  date_match (str "05/01/2024" ++ str " matin") = Some 5%Z.
Proof.
  destruct (date_match_exact (str "05/01/2024") 5) as [H1 H2].
  split; [apply H1; reflexivity|].
  destruct (H2 eq_refl) as [_ H3]. apply H3.
Defined.

(** ** The name of the downloaded file *)

Lemma sanitize_allowed s : forallb allowed_char (sanitize s) = true.
Proof.
  induction s as [|c s IH]; simpl; auto. rewrite IH, andb_true_r.
  unfold allowed_char. destruct (forbidden_char c) eqn:E; [reflexivity | now rewrite E].
Qed.

Lemma sanitize_fix s : forallb allowed_char s = true -> sanitize s = s.
Proof.
  induction s as [|c s IH]; simpl; auto.
  intros H. apply andb_true_iff in H as [H1 H2].
  unfold allowed_char in H1. apply negb_true_iff in H1. now rewrite H1, IH.
Qed.

Lemma sheet_or_export_nonempty selected : sheet_or_export selected <> [].
Proof. destruct selected as [[|c s]|]; discriminate. Qed.

(** X20.  The sheet name used in the name of the download holds none of
    the characters backslash, slash, star, question mark, colon, double
    quote, angle brackets and bar, is never empty and has the length of the
    name it comes from; a name without such a character is kept as it is,
    cleaning twice is cleaning once, and a missing or empty sheet name
    gives [export]. *)
Theorem safe_sheet_name_clean (selected : option pystr) :
  let n := safe_sheet_name selected in
  forallb allowed_char n = true /\
  n <> [] /\
  List.length n = List.length (sheet_or_export selected) /\
  sanitize n = n /\
  (forallb allowed_char (sheet_or_export selected) = true ->
   n = sheet_or_export selected) /\
  safe_sheet_name None = str "export" /\
  safe_sheet_name (Some []) = str "export".
Proof.
  cbv zeta. unfold safe_sheet_name.
  split; [apply sanitize_allowed|]. split.
  - pose proof (sheet_or_export_nonempty selected) as H.
    destruct (sheet_or_export selected); [congruence | discriminate].
  - split; [apply length_map|]. split; [apply sanitize_fix, sanitize_allowed|].
    split; [apply sanitize_fix|]. split; reflexivity.
Qed.

Lemma safe_sheet_name_clean_witness :
  safe_sheet_name (Some (str "Janvier 2024")) = str "Janvier 2024" /\
  safe_sheet_name (Some (str "01/2024: kin" ++ ["233"])) = str "01_2024_ kin" ++ ["233"].
Proof.
  destruct (safe_sheet_name_clean (Some (str "Janvier 2024")))
    as [_ [_ [_ [_ [H _]]]]].
  split; [apply H; reflexivity | reflexivity].
Defined.

Lemma digit_char_allowed n : allowed_char (digit_char n) = true.
Proof.
  unfold digit_char. pose proof (Nat.mod_upper_bound n 10) as H.
  assert (L : n mod 10 < 10) by (apply H; discriminate).
  destruct (n mod 10) as [|[|[|[|[|[|[|[|[|[|k]]]]]]]]]]; try reflexivity. lia.
Qed.

Lemma timestamp_allowed now : forallb allowed_char (timestamp now) = true.
Proof.
  unfold timestamp, pad2, pad4. cbn [app forallb str list_ascii_of_string].
  rewrite !digit_char_allowed. reflexivity.
Qed.

(** X21.  The name of the downloaded file holds none of the characters
    that the sheet name is cleaned of, whatever the sheet is called and
    whenever it is written, and is 31 characters longer than the sheet
    name it embeds, the time stamp taking 13 of them. *)
Theorem output_filename_clean (selected : option pystr) (now : clock) :
  forallb allowed_char (output_filename selected now) = true /\
  List.length (timestamp now) = 13 /\
  List.length (output_filename selected now) =
    List.length (sheet_or_export selected) + 31 /\
  exists stem, output_filename selected now = str "comparaison_" ++ stem ++ str ".xlsx".
Proof.
  unfold output_filename. split; [|split; [|split]].
  - rewrite !forallb_app, timestamp_allowed.
    unfold safe_sheet_name. rewrite sanitize_allowed. reflexivity.
  - reflexivity.
  - rewrite !length_app. unfold safe_sheet_name, sanitize. rewrite length_map.
    change (List.length (timestamp now)) with 13. simpl. lia.
  - exists (safe_sheet_name selected ++ str "_" ++ timestamp now).
    now rewrite <- !app_assoc.
Qed.

(** ** The workbook *)

Section Sorting.

Context {A : Type} (cmp : A -> A -> comparison).
Hypothesis cmp_total : forall x y, cmp x y = Gt -> cmp y x <> Gt.

Lemma insert_row_perm x l : Permutation (insert_row cmp x l) (x :: l).
Proof.
  induction l as [|y l IH]; simpl; auto.
  destruct (leb_of cmp x y); auto.
  rewrite IH. apply perm_swap.
Qed.

Lemma sort_values_perm l : Permutation (sort_values cmp l) l.
Proof.
  induction l as [|x l IH]; simpl; auto.
  rewrite insert_row_perm. now constructor.
Qed.

Lemma leb_of_total x y : leb_of cmp x y = false -> leb_of cmp y x = true.
Proof.
  unfold leb_of. destruct (cmp x y) eqn:E; try discriminate. intros _.
  pose proof (cmp_total x y E). destruct (cmp y x); congruence.
Qed.

Lemma insert_row_sorted x l :
  sorted_by cmp l = true -> sorted_by cmp (insert_row cmp x l) = true.
Proof.
  induction l as [|y l IH]; auto.
  intros H. cbn [insert_row]. destruct (leb_of cmp x y) eqn:E.
  - cbn [sorted_by]. now rewrite E.
  - apply leb_of_total in E.
    assert (Ht : sorted_by cmp l = true).
    { destruct l; auto. cbn [sorted_by] in H. now apply andb_true_iff in H. }
    specialize (IH Ht). destruct l as [|z l].
    + cbn. now rewrite E.
    + cbn [insert_row] in *. cbn [sorted_by] in H. apply andb_true_iff in H as [Hyz _].
      destruct (leb_of cmp x z); cbn [sorted_by] in *.
      * now rewrite E.
      * now rewrite Hyz.
Qed.

Lemma sort_values_sorted l : sorted_by cmp (sort_values cmp l) = true.
Proof.
  induction l as [|x l IH]; auto. simpl. now apply insert_row_sorted.
Qed.

End Sorting.

Lemma pystr_compare_antisym a b : pystr_compare a b = CompOpp (pystr_compare b a).
Proof.
  revert b. induction a as [|x a IH]; destruct b as [|y b]; simpl; auto.
  rewrite (Nat.compare_antisym (nat_of_ascii x) (nat_of_ascii y)).
  destruct (Nat.compare (nat_of_ascii x) (nat_of_ascii y)); simpl; auto.
Qed.

Lemma lex_antisym c1 c2 d1 d2 :
  c1 = CompOpp d1 -> c2 = CompOpp d2 -> lex c1 c2 = CompOpp (lex d1 d2).
Proof. intros -> ->. now destruct d1. Qed.

Lemma record_compare_antisym x y : record_compare x y = CompOpp (record_compare y x).
Proof.
  unfold record_compare. apply lex_antisym.
  - apply Z.compare_antisym.
  - apply pystr_compare_antisym.
Qed.

Lemma diff_compare_antisym x y : diff_compare x y = CompOpp (diff_compare y x).
Proof.
  unfold diff_compare. apply lex_antisym.
  - apply record_compare_antisym.
  - apply pystr_compare_antisym.
Qed.

Lemma antisym_total {A} (cmp : A -> A -> comparison) :
  (forall x y, cmp x y = CompOpp (cmp y x)) ->
  forall x y, cmp x y = Gt -> cmp y x <> Gt.
Proof. intros H x y E. rewrite H in E. destruct (cmp y x); discriminate. Qed.

(** X22.  The sheet [Differences] lists each personal-only record with
    the status of a record missing from the facility report and each
    facility-only record with the status of a record missing from the
    personal log, once each and nothing else, in ascending order of day,
    then file number, then status; the two record sheets list their
    records, once each, in ascending order of day, then file number. *)
Theorem workbook_rows_sorted (only_mine only_hospital records : list record) :
  let rows := sort_values diff_compare (differences only_mine only_hospital) in
  Permutation rows (differences only_mine only_hospital) /\
  sorted_by diff_compare rows = true /\
  List.length rows = List.length only_mine + List.length only_hospital /\
  (forall x, In x rows <->
             (In (d_record x) only_mine /\ d_statut x = MANQUANT_HOPITAL) \/
             (In (d_record x) only_hospital /\ d_statut x = MANQUANT_FACTURATION)) /\
  Permutation (sort_values record_compare records) records /\
  sorted_by record_compare (sort_values record_compare records) = true.
Proof.
  cbv zeta.
  pose proof (sort_values_perm diff_compare (differences only_mine only_hospital)) as P.
  split; [exact P|]. split.
  { apply sort_values_sorted, antisym_total, diff_compare_antisym. }
  split.
  { rewrite (Permutation_length P). unfold differences.
    now rewrite length_app, !length_map. }
  split.
  { intros x. split.
    - intros H. apply (Permutation_in _ P) in H. unfold differences in H.
      apply in_app_or in H as [H | H]; apply in_map_iff in H as [r [<- Hr]]; auto.
    - intros H. apply (Permutation_in _ (Permutation_sym P)). unfold differences.
      apply in_or_app. destruct x as [r s]. simpl in H.
      destruct H as [[Hr ->] | [Hr ->]]; [left | right]; apply in_map_iff;
        now exists r. }
  split; [apply sort_values_perm|].
  apply sort_values_sorted, antisym_total, record_compare_antisym.
Qed.

Lemma hd_success_iff (my_records hospital_records only_mine only_hospital : list record) :
  hd_error (create_excel_output my_records hospital_records only_mine only_hospital) =
    Some (str "Differences", SuccessSheet) <->
  only_mine = [] /\ only_hospital = [].
Proof.
  unfold create_excel_output, differences. cbn [app hd_error].
  destruct only_mine as [|a om]; [destruct only_hospital as [|b oh]|]; cbn [map app].
  - split; auto.
  - split; [discriminate | intros [_ H]; discriminate].
  - split; [discriminate | intros [H _]; discriminate].
Qed.

(** X23.  The workbook written after a comparison always begins with the
    sheet [Differences]; that sheet is the success message exactly when the
    two inputs have the same set of keys; the sheet of the personal log is
    there exactly when the personal input is not empty, likewise the sheet
    of the facility report; and no two sheets share a name. *)
Theorem workbook_sheets (mine theirs : list record) :
  let wb := workbook_of mine theirs in
  (exists first, hd_error wb = Some (str "Differences", first)) /\
  (hd_error wb = Some (str "Differences", SuccessSheet) <->
   forall k, In k (keys_of mine) <-> In k (keys_of theirs)) /\
  (In (str "Ma_Facturation") (map fst wb) <-> mine <> []) /\
  (In (str "Rapport_Hopital") (map fst wb) <-> theirs <> []) /\
  NoDup (map fst wb) /\
  List.length wb =
    1 + match mine with [] => 0 | _ :: _ => 1 end
      + match theirs with [] => 0 | _ :: _ => 1 end.
Proof.
  cbv zeta. unfold workbook_of. split; [eexists; reflexivity|]. split.
  { rewrite hd_success_iff. apply no_difference_same_keys. }
  unfold create_excel_output.
  destruct mine as [|m mine], theirs as [|t theirs]; cbn [app map fst List.length].
  - repeat split; try (intros H; simpl in H; intuition congruence);
      try congruence.
    repeat constructor; simpl; intuition discriminate.
  - repeat split; try (intros H; simpl in H; intuition congruence);
      try congruence; try discriminate; try (intros _; simpl; auto).
    repeat constructor; simpl; intuition discriminate.
  - repeat split; try (intros H; simpl in H; intuition congruence);
      try congruence; try discriminate; try (intros _; simpl; auto).
    repeat constructor; simpl; intuition discriminate.
  - repeat split; try (intros H; simpl in H; intuition congruence);
      try congruence; try discriminate; try (intros _; simpl; auto).
    repeat constructor; simpl; intuition discriminate.
Qed.

(** ** The keyword patch *)

Section Kwargs.

Context {V : Type}.
Implicit Types (kw : kwargs V) (k : pystr) (v : V).

Lemma pystr_eqb_neq a b : pystr_eqb a b = false <-> a <> b.
Proof.
  destruct (pystr_eqb a b) eqn:E.
  - apply pystr_eqb_eq in E. split; congruence.
  - split; auto. intros _ H. apply pystr_eqb_eq in H. congruence.
Qed.

Lemma kw_get_None kw k : kw_get kw k = None <-> ~ In k (map fst kw).
Proof.
  induction kw as [|[k' v'] kw IH]; simpl; [tauto|].
  destruct (pystr_eqb k' k) eqn:E.
  - apply pystr_eqb_eq in E. split; [discriminate | intros H; elim H; auto].
  - apply pystr_eqb_neq in E. rewrite IH. tauto.
Qed.

Lemma kw_remove_keys kw k k' :
  In k' (map fst (kw_remove kw k)) -> In k' (map fst kw).
Proof.
  induction kw as [|[k0 v0] kw IH]; simpl; auto.
  destruct (pystr_eqb k0 k); simpl; [auto | intros [H | H]; auto].
Qed.

Lemma kw_remove_NoDup kw k : NoDup (map fst kw) -> NoDup (map fst (kw_remove kw k)).
Proof.
  induction kw as [|[k0 v0] kw IH]; simpl; auto.
  intros H. inversion H as [|? ? Hn Hd]; subst.
  destruct (pystr_eqb k0 k); simpl; auto.
  constructor; auto. intros Hin. apply Hn. eapply kw_remove_keys; eauto.
Qed.

Lemma kw_remove_get kw k k' :
  NoDup (map fst kw) ->
  kw_get (kw_remove kw k) k' = if pystr_eqb k k' then None else kw_get kw k'.
Proof.
  induction kw as [|[k0 v0] kw IH]; simpl; intros H.
  - now destruct (pystr_eqb k k').
  - inversion H as [|? ? Hn Hd]; subst.
    destruct (pystr_eqb k0 k) eqn:E.
    + apply pystr_eqb_eq in E. subst k0.
      destruct (pystr_eqb k k') eqn:E'; auto.
      apply pystr_eqb_eq in E'. subst k'. now apply kw_get_None.
    + simpl. rewrite (IH Hd). destruct (pystr_eqb k0 k') eqn:E0; auto.
      apply pystr_eqb_eq in E0. subst k'.
      apply pystr_eqb_neq in E.
      assert (pystr_eqb k k0 = false) as -> by (apply pystr_eqb_neq; congruence).
      reflexivity.
Qed.

Lemma kw_set_get kw k v k' :
  kw_get (kw_set kw k v) k' = if pystr_eqb k k' then Some v else kw_get kw k'.
Proof.
  induction kw as [|[k0 v0] kw IH]; simpl.
  - reflexivity.
  - destruct (pystr_eqb k0 k) eqn:E.
    + apply pystr_eqb_eq in E. subst k0. simpl. now destruct (pystr_eqb k k').
    + simpl. destruct (pystr_eqb k0 k') eqn:E0; auto.
      apply pystr_eqb_eq in E0. subst k'. apply pystr_eqb_neq in E.
      assert (pystr_eqb k k0 = false) as -> by (apply pystr_eqb_neq; congruence).
      reflexivity.
Qed.

Lemma kw_set_keys kw k v k' :
  In k' (map fst (kw_set kw k v)) <-> k' = k \/ In k' (map fst kw).
Proof.
  induction kw as [|[k0 v0] kw IH]; simpl.
  - intuition.
  - destruct (pystr_eqb k0 k) eqn:E; simpl.
    + apply pystr_eqb_eq in E. subst. intuition.
    + rewrite IH. intuition.
Qed.

Lemma kw_set_NoDup kw k v : NoDup (map fst kw) -> NoDup (map fst (kw_set kw k v)).
Proof.
  induction kw as [|[k0 v0] kw IH]; simpl; intros H.
  - repeat constructor. intros [].
  - inversion H as [|? ? Hn Hd]; subst.
    destruct (pystr_eqb k0 k) eqn:E; simpl.
    + constructor; auto.
    + constructor; auto. rewrite kw_set_keys. intros [<- | Hin]; auto.
      now rewrite pystr_eqb_refl in E.
Qed.

(** X24.  The patched style constructors never pass the misspelt keyword
    [biltinId] on: its value, when there is one, is passed under
    [builtinId], replacing a value given there; every other keyword is
    passed unchanged; and keywords without the misspelling are passed as
    they are. *)
Theorem patch_kwargs_renames (kw : kwargs V) :
  NoDup (map fst kw) ->
  kw_get (patch_kwargs kw) (str "biltinId") = None /\
  kw_get (patch_kwargs kw) (str "builtinId") =
    match kw_get kw (str "biltinId") with
    | Some v => Some v
    | None => kw_get kw (str "builtinId")
    end /\
  (forall k, k <> str "biltinId" -> k <> str "builtinId" ->
             kw_get (patch_kwargs kw) k = kw_get kw k) /\
  NoDup (map fst (patch_kwargs kw)) /\
  (kw_get kw (str "biltinId") = None -> patch_kwargs kw = kw) /\
  patch_kwargs (patch_kwargs kw) = patch_kwargs kw.
Proof.
  intros Hnd. unfold patch_kwargs at 1 2 3 4 5.
  destruct (kw_get kw (str "biltinId")) as [v|] eqn:E.
  - assert (G : kw_get (kw_set (kw_remove kw (str "biltinId")) (str "builtinId") v)
                  (str "biltinId") = None).
    { rewrite kw_set_get, kw_remove_get by assumption. reflexivity. }
    split; [exact G|]. split.
    { rewrite kw_set_get. reflexivity. }
    split.
    { intros k H1 H2. rewrite kw_set_get, kw_remove_get by assumption.
      assert (pystr_eqb (str "builtinId") k = false) as ->
        by (apply pystr_eqb_neq; congruence).
      assert (pystr_eqb (str "biltinId") k = false) as ->
        by (apply pystr_eqb_neq; congruence).
      reflexivity. }
    split; [now apply kw_set_NoDup, kw_remove_NoDup|].
    split; [discriminate|].
    unfold patch_kwargs. rewrite E, G. reflexivity.
  - split; [exact E|]. split; [reflexivity|]. split; [reflexivity|].
    split; [exact Hnd|]. split; [reflexivity|].
    unfold patch_kwargs. rewrite E, E. reflexivity.
Qed.

End Kwargs.

Lemma patch_kwargs_renames_witness :
  patch_kwargs [(str "name", 1%Z); (str "biltinId", 7%Z); (str "builtinId", 3%Z)] =
    [(str "name", 1%Z); (str "builtinId", 7%Z)] /\
  kw_get (patch_kwargs [(str "name", 1%Z); (str "biltinId", 7%Z); (str "builtinId", 3%Z)])
         (str "biltinId") = None.
Proof.
  split; [reflexivity|].
  apply (patch_kwargs_renames
           [(str "name", 1%Z); (str "biltinId", 7%Z); (str "builtinId", 3%Z)]).
  repeat constructor; simpl; intuition discriminate.
Defined.

(** ** The text of a file number *)

Lemma to_int_not_nil z : Z.to_int z <> Decimal.Pos Decimal.Nil /\
                         Z.to_int z <> Decimal.Neg Decimal.Nil.
Proof.
  destruct z as [|p|p]; simpl; split; try discriminate; intros H; injection H;
    apply DecimalPos.Unsigned.to_uint_nonnil.
Qed.

Lemma str_int_inj a b : str_int a = str_int b -> a = b.
Proof.
  unfold str_int, str. intros H.
  apply (f_equal string_of_list_ascii) in H.
  rewrite !string_of_list_ascii_of_string in H.
  apply (f_equal NilZero.int_of_string) in H.
  destruct (to_int_not_nil a) as [A1 A2], (to_int_not_nil b) as [B1 B2].
  rewrite !NilZero.isi in H by assumption.
  injection H as H. now apply DecimalZ.to_int_inj.
Qed.

(** X25.  The text of a file number is canonical: an integral float, the
    same integer and the text of that integer give one and the same file
    number, a float with a fraction gives the file number of its integer
    part, truncated towards zero, and two different integers never give the
    same text. *)
Theorem file_number_text_canonical :
  (forall a b, str_int a = str_int b -> a = b) /\
  (forall f, dossier_text (CFloat f) = dossier_text (CInt (int_of_float f))) /\
  (forall z txt,
      dossier_text (CFloat {| f_val := z # 1; f_str := txt |}) = dossier_text (CInt z)) /\
  (forall z, dossier_text (CStr (str_int z)) = dossier_text (CInt z)) /\
  (forall z, str_int z <> []).
Proof.
  split; [apply str_int_inj|]. split; [reflexivity|]. split.
  - intros z txt. unfold dossier_text, int_of_float. cbn [f_val Qnum Qden py_str].
    now rewrite Z.quot_1_r.
  - split; [reflexivity | apply str_int_nonempty].
Qed.

Lemma file_number_text_canonical_witness :
  dossier_text (CFloat {| f_val := 203 # 2; f_str := str "101.5" |}) = Ok (str "101") /\
  (101 = 101)%Z.
Proof.
  destruct file_number_text_canonical as [H _].
  split; [reflexivity | apply (H 101%Z 101%Z); reflexivity].
Defined.

(** ** Zero file numbers on rows that do not update the patient *)

(** C10, counterexample.  A row with a non-blank name and a zero
    file-number cell does not always clear the carried file number: when
    the row is skipped as a header (here by the label in its code column),
    or when its name cell is falsy (here the number zero), the number
    carried so far stays, and records are emitted under it. *)
Lemma zero_file_number_kept :
  (let st := {| current_name := Some (str "DUPONT");
                current_dossier := Some (str "101");
                hosp_records := [] |} in
   let r := hd [] (tl hosp_table_zero_header) in
   nth_error r 0 = Some (CStr (str "MARTIN")) /\
   notna (CStr (str "MARTIN")) = true /\
   nth_error r 1 = Some (CInt 0) /\ zero_cell (CInt 0) = true /\
   hospital_row st r = Ok st) /\
  parse_hospital_report hosp_table_zero_header =
    Ok [mk_record 1 "101" "DUPONT" "K-1" RAPPORT_HOPITAL;
        mk_record 3 "101" "DUPONT" "M 6" RAPPORT_HOPITAL] /\
  parse_hospital_report hosp_table_zero_name =
    Ok [mk_record 1 "101" "DUPONT" "K-1" RAPPORT_HOPITAL;
        mk_record 2 "101" "DUPONT" "K-1" RAPPORT_HOPITAL].
Proof. repeat split; reflexivity. Qed.

(** * The text layer over Unicode *)

Section UnicodeTrimming.

Import Unicode.

Lemma u_lstrip_length s : List.length (lstrip s) <= List.length s.
Proof. induction s as [|c s IH]; simpl; auto. destruct (isspace c); simpl; lia. Qed.

Lemma u_lstrip_fix_or_shorter s :
  lstrip s = s \/ List.length (lstrip s) < List.length s.
Proof.
  destruct s as [|c s]; simpl; auto.
  destruct (isspace c); auto. right. pose proof (u_lstrip_length s). lia.
Qed.

Lemma u_rstrip_fix_or_shorter s :
  rstrip s = s \/ List.length (rstrip s) < List.length s.
Proof.
  induction s as [|c s IH]; simpl; auto.
  destruct IH as [IH | IH].
  - rewrite IH. destruct s; [destruct (isspace c); simpl; auto | auto].
  - right. destruct (rstrip s); [destruct (isspace c)|]; simpl in *; lia.
Qed.

Lemma u_rstrip_length s : List.length (rstrip s) <= List.length s.
Proof. destruct (u_rstrip_fix_or_shorter s) as [H | H]; [rewrite H|]; lia. Qed.

Lemma u_lstrip_head s :
  lstrip s = s <-> match s with [] => True | c :: _ => isspace c = false end.
Proof.
  destruct s as [|c s]; simpl; [tauto|].
  destruct (isspace c) eqn:E; split; auto; try discriminate.
  intros H. pose proof (u_lstrip_length s) as L. rewrite H in L. simpl in L. lia.
Qed.

Lemma u_lstrip_idem s : lstrip (lstrip s) = lstrip s.
Proof.
  induction s as [|c s IH]; simpl; auto.
  destruct (isspace c) eqn:E; auto. simpl. now rewrite E.
Qed.

Lemma u_rstrip_nil_iff s : rstrip s = [] <-> all_space s = true.
Proof.
  induction s as [|c s IH]; simpl; [tauto|].
  destruct (rstrip s) eqn:E.
  - destruct (isspace c); simpl; split; auto; try discriminate.
    + intros _. now apply IH.
  - destruct (isspace c); simpl; split; try discriminate.
    intros H. apply IH in H. discriminate.
Qed.

Lemma u_rstrip_idem s : rstrip (rstrip s) = rstrip s.
Proof.
  induction s as [|c s IH]; auto.
  cbn [rstrip]. destruct (rstrip s) as [|x l] eqn:E.
  - destruct (isspace c) eqn:Ec; simpl; auto. now rewrite Ec.
  - change (rstrip (c :: x :: l))
      with (match rstrip (x :: l) with
            | [] => if isspace c then [] else [c]
            | t' => c :: t'
            end).
    rewrite IH. reflexivity.
Qed.

Lemma u_rstrip_cons_fix c s :
  rstrip (c :: s) = c :: s <->
  (s = [] /\ isspace c = false) \/ (s <> [] /\ rstrip s = s).
Proof.
  simpl. destruct (rstrip s) as [|x l] eqn:E.
  - destruct (isspace c); split.
    + discriminate.
    + intros [[_ H] | [H1 H2]]; [discriminate | congruence].
    + intros H. injection H as <-. auto.
    + intros [[-> _] | [H1 H2]]; [reflexivity | congruence].
  - split.
    + intros H. injection H as <-. right. split; [discriminate | reflexivity].
    + intros [[-> _] | [_ H]]; [discriminate | now rewrite H].
Qed.

Lemma u_lstrip_rstrip_head s : lstrip s = s -> lstrip (rstrip s) = rstrip s.
Proof.
  intros H. apply u_lstrip_head. apply u_lstrip_head in H.
  destruct s as [|c s]; simpl; auto.
  destruct (rstrip s); [rewrite H|]; auto.
Qed.

Lemma u_strip_fix_iff s : strip s = s <-> lstrip s = s /\ rstrip s = s.
Proof.
  unfold strip. split.
  - intros H.
    destruct (u_lstrip_fix_or_shorter s) as [L | L].
    + rewrite L in H. auto.
    + pose proof (u_rstrip_length (lstrip s)) as R. rewrite H in R. lia.
  - intros [L R]. now rewrite L, R.
Qed.

Lemma u_strip_trimmed s : strip (strip s) = strip s.
Proof.
  apply u_strip_fix_iff. unfold strip. split.
  - apply u_lstrip_rstrip_head, u_lstrip_idem.
  - apply u_rstrip_idem.
Qed.

Lemma u_strip_fix_or_shorter s : strip s = s \/ List.length (strip s) < List.length s.
Proof.
  unfold strip. destruct (u_lstrip_fix_or_shorter s) as [L | L].
  - rewrite L. apply u_rstrip_fix_or_shorter.
  - right. pose proof (u_rstrip_length (lstrip s)). lia.
Qed.

Lemma u_all_space_lstrip s : all_space (lstrip s) = all_space s.
Proof.
  induction s as [|c s IH]; simpl; auto.
  destruct (isspace c) eqn:E; simpl; auto. now rewrite E.
Qed.

Lemma u_strip_nil_iff s : strip s = [] <-> all_space s = true.
Proof. unfold strip. now rewrite u_rstrip_nil_iff, u_all_space_lstrip. Qed.

Lemma u_rstrip_not_nil s : all_space s = false -> rstrip s <> [].
Proof. intros H E. apply u_rstrip_nil_iff in E. congruence. Qed.

Lemma u_rstrip_cons c s : rstrip s <> [] -> rstrip (c :: s) = c :: rstrip s.
Proof. intros H. cbn [rstrip]. destruct (rstrip s); congruence. Qed.

Lemma u_all_space_rstrip s : all_space s = false -> all_space (rstrip s) = false.
Proof.
  intros H. destruct (all_space (rstrip s)) eqn:E; auto.
  apply u_rstrip_nil_iff in E. rewrite u_rstrip_idem in E.
  apply u_rstrip_nil_iff in E. congruence.
Qed.

Lemma u_rstrip_app_front p q : rstrip q <> [] -> rstrip (p ++ q) = p ++ rstrip q.
Proof.
  intros H. induction p as [|c p IH]; simpl app; auto.
  rewrite u_rstrip_cons; rewrite IH; auto.
  destruct p; simpl; [exact H | discriminate].
Qed.

Lemma u_all_space_app a b : all_space (a ++ b) = all_space a && all_space b.
Proof. apply forallb_app. Qed.

(** Text without any white space is left alone by both trims. *)
Lemma u_rstrip_solid s : existsb isspace s = false -> rstrip s = s.
Proof.
  induction s as [|c s IH]; auto. simpl.
  intros H. apply orb_false_iff in H as [Hc Hs]. rewrite (IH Hs), Hc.
  now destruct s.
Qed.

(** ** Collapsing white space *)

Lemma u_tidy_collapse b s : tidy_from b (collapse_from b s) = true.
Proof.
  revert b; induction s as [|c s IH]; intros b; simpl; auto.
  destruct (isspace c) eqn:E.
  - destruct b; auto. simpl. apply IH.
  - simpl. rewrite E. apply IH.
Qed.

Lemma u_tidy_collapse_fix b s : tidy_from b s = true -> collapse_from b s = s.
Proof.
  revert b; induction s as [|c s IH]; intros b; simpl; auto.
  destruct (isspace c).
  - intros H. apply andb_true_iff in H as [H H3]. apply andb_true_iff in H as [H1 H2].
    apply N.eqb_eq in H1. subst c. destruct b; [discriminate|].
    now rewrite (IH true H3).
  - intros H. now rewrite (IH false H).
Qed.

Lemma u_tidy_lstrip b s : tidy_from b s = true -> tidy_from false (lstrip s) = true.
Proof.
  revert b; induction s as [|c s IH]; intros b; simpl; auto.
  destruct (isspace c) eqn:E.
  - intros H. apply andb_true_iff in H as [_ H]. now apply (IH true).
  - intros H. simpl. now rewrite E.
Qed.

Lemma u_tidy_rstrip b s : tidy_from b s = true -> tidy_from b (rstrip s) = true.
Proof.
  revert b; induction s as [|c s IH]; intros b; auto.
  cbn [rstrip tidy_from]. destruct (isspace c) eqn:E.
  - intros H. apply andb_true_iff in H as [H H3].
    specialize (IH true H3). destruct (rstrip s); auto.
    cbn [tidy_from]. rewrite E, H. exact IH.
  - intros H. specialize (IH false H). destruct (rstrip s).
    + simpl. now rewrite E.
    + cbn [tidy_from]. rewrite E. exact IH.
Qed.

Lemma u_tidy_strip s : tidy_from false s = true -> tidy_from false (strip s) = true.
Proof. intros H. unfold strip. apply u_tidy_rstrip. eapply u_tidy_lstrip; eauto. Qed.

Lemma u_lstrip_collapse b s :
  lstrip s = s -> lstrip (collapse_from b s) = collapse_from b s.
Proof.
  intros H. apply u_lstrip_head in H. apply u_lstrip_head.
  destruct s as [|c s]; simpl; auto. now rewrite H.
Qed.

Lemma u_collapse_not_nil b s : all_space s = false -> collapse_from b s <> [].
Proof.
  revert b; induction s as [|c s IH]; intros b; simpl; [discriminate|].
  destruct (isspace c); simpl; [|discriminate].
  intros H. destruct b; [now apply IH | discriminate].
Qed.

Lemma u_rstrip_fix_not_all_space s : s <> [] -> rstrip s = s -> all_space s = false.
Proof.
  intros Hn H. destruct (all_space s) eqn:E; auto.
  apply u_rstrip_nil_iff in E. congruence.
Qed.

Lemma u_collapse_nil_iff s : collapse_ws s = [] <-> s = [].
Proof.
  unfold collapse_ws. destruct s as [|c s]; simpl; [tauto|].
  destruct (isspace c); split; discriminate.
Qed.

Lemma u_collapse_leading s : collapse_from true s = collapse_from false (lstrip s).
Proof.
  induction s as [|c s IH]; simpl; auto.
  destruct (isspace c) eqn:E; auto. simpl. now rewrite E.
Qed.

Lemma u_lstrip_collapse_comm s : lstrip (collapse_ws s) = collapse_ws (lstrip s).
Proof.
  unfold collapse_ws. destruct s as [|c s]; auto. simpl.
  destruct (isspace c) eqn:E.
  - simpl. rewrite u_collapse_leading.
    apply u_lstrip_collapse. apply u_lstrip_idem.
  - simpl. now rewrite E.
Qed.

Lemma u_collapse_all_space b s : all_space s = true -> rstrip (collapse_from b s) = [].
Proof.
  revert b. induction s as [|c s IH]; intros b; simpl; auto.
  intros H. apply andb_true_iff in H as [H1 H2]. rewrite H1.
  destruct b; [now apply IH|].
  cbn [rstrip]. rewrite (IH true H2). reflexivity.
Qed.

Lemma u_rstrip_collapse_comm b s :
  rstrip (collapse_from b s) = collapse_from b (rstrip s).
Proof.
  revert b. induction s as [|c s IH]; intros b; auto.
  destruct (all_space s) eqn:A.
  - assert (R : rstrip s = []) by now apply u_rstrip_nil_iff.
    cbn [rstrip collapse_from]. rewrite R.
    destruct (isspace c) eqn:E.
    + destruct b; [now apply u_collapse_all_space|].
      cbn [rstrip]. rewrite (u_collapse_all_space true s A). reflexivity.
    + cbn [rstrip collapse_from]. rewrite (u_collapse_all_space false s A), E. reflexivity.
  - pose proof (u_rstrip_not_nil s A) as N.
    rewrite (u_rstrip_cons c s N). cbn [collapse_from].
    pose proof (u_all_space_rstrip s A) as A'.
    destruct (isspace c); [destruct b|]; auto;
      rewrite u_rstrip_cons by (rewrite IH; now apply u_collapse_not_nil);
      now rewrite IH.
Qed.

Lemma u_strip_collapse_comm s : strip (collapse_ws s) = collapse_ws (strip s).
Proof.
  unfold strip. rewrite u_lstrip_collapse_comm. apply u_rstrip_collapse_comm.
Qed.

Lemma u_strip_collapse s : strip s = s -> strip (collapse_ws s) = collapse_ws s.
Proof. intros H. now rewrite u_strip_collapse_comm, H. Qed.

Lemma u_collapse_idem s : collapse_ws (collapse_ws s) = collapse_ws s.
Proof. apply u_tidy_collapse_fix, u_tidy_collapse. Qed.

(** ** Properties kept by the operations *)

Section Kept.

Variable P : N -> Prop.

Lemma u_Forall_lstrip s : Forall P s -> Forall P (lstrip s).
Proof.
  induction 1 as [|c s Hc Hs IH]; simpl; auto.
  destruct (isspace c); auto.
Qed.

Lemma u_Forall_rstrip s : Forall P s -> Forall P (rstrip s).
Proof.
  induction 1 as [|c s Hc Hs IH]; auto.
  cbn [rstrip]. destruct (rstrip s).
  - destruct (isspace c); auto.
  - auto.
Qed.

Lemma u_Forall_strip s : Forall P s -> Forall P (strip s).
Proof. intros H. unfold strip. now apply u_Forall_rstrip, u_Forall_lstrip. Qed.

Lemma u_Forall_collapse b s : P 32%N -> Forall P s -> Forall P (collapse_from b s).
Proof.
  intros Hsp H. revert b. induction H as [|c s Hc Hs IH]; intros b; simpl; auto.
  destruct (isspace c); [destruct b|]; auto.
Qed.

Lemma u_Forall_strip_paren_prefix s : Forall P s -> Forall P (strip_paren_prefix s).
Proof.
  unfold strip_paren_prefix. destruct s as [|a [|c [|b t]]]; auto.
  destruct (_ && _ && _); auto.
  intros H. apply u_Forall_lstrip.
  inversion H as [|? ? _ H1]; subst. inversion H1 as [|? ? _ H2]; subst.
  now inversion H2.
Qed.

Lemma u_Forall_remove_commas s : Forall P s -> Forall P (remove_commas s).
Proof.
  unfold remove_commas. intros H. apply Forall_forall. intros c Hc.
  apply filter_In in Hc as [Hc _]. rewrite Forall_forall in H. auto.
Qed.

End Kept.

End UnicodeTrimming.

Lemma flat_map_length_ge {A} (f : A -> list A) l :
  (forall x, f x <> []) -> List.length l <= List.length (flat_map f l).
Proof.
  intros Hf. induction l as [|a l IH]; simpl; auto.
  rewrite length_app. specialize (Hf a). destruct (f a); [congruence | simpl; lia].
Qed.

Lemma flat_map_fixed {A} (f : A -> list A) l :
  (forall x, f x <> []) -> flat_map f l = l -> Forall (fun x => f x = [x]) l.
Proof.
  intros Hf. induction l as [|a l IH]; simpl; intros H; constructor.
  - pose proof (flat_map_length_ge f l Hf) as L.
    pose proof (f_equal (@List.length A) H) as E.
    rewrite length_app in E. simpl in E.
    pose proof (Hf a) as Ha.
    destruct (f a) as [|x [|y t]] eqn:Fa; [congruence | | simpl in E; lia].
    simpl in H. injection H as -> _. reflexivity.
  - apply IH.
    pose proof (flat_map_length_ge f l Hf) as L.
    pose proof (f_equal (@List.length A) H) as E.
    rewrite length_app in E. simpl in E.
    pose proof (Hf a) as Ha.
    destruct (f a) as [|x [|y t]] eqn:Fa; [congruence | | simpl in E; lia].
    simpl in H. now injection H as _ H.
Qed.

Section UnicodeCase.

Import Unicode.

(** What is used of the upper-case mapping: a white-space code point is
    its own upper case; the upper case of any other code point is not
    empty and holds no white space; the upper case of a code point is in
    upper case. *)
Lemma lookup_In c t v : lookup c t = Some v -> In (c, v) t.
Proof.
  induction t as [|[k w] t IH]; simpl; [discriminate|].
  destruct (N.eqb_spec k c) as [-> | _]; [|auto].
  intros H. injection H as ->. now left.
Qed.

Lemma ustr_eqb_eq a b : ustr_eqb a b = true -> a = b.
Proof.
  revert b. induction a as [|x a IH]; intros [|y b]; simpl; try discriminate; auto.
  intros H. apply andb_true_iff in H as [H1 H2].
  apply N.eqb_eq in H1. subst y. f_equal. now apply IH.
Qed.

Lemma upper_table_keys :
  forallb (fun p => negb (isspace (fst p))) upper_table = true.
Proof. vm_compute. reflexivity. Qed.

Lemma upper_table_images :
  forallb (fun p => match snd p with
                    | [] => false
                    | _ => negb (existsb isspace (snd p))
                    end) upper_table = true.
Proof. vm_compute. reflexivity. Qed.

Lemma upper_table_upper :
  forallb (fun p => ustr_eqb (upper (snd p)) (snd p)) upper_table = true.
Proof. vm_compute. reflexivity. Qed.

Lemma upper_of_space c : isspace c = true -> upper_of c = [c].
Proof.
  intros H. unfold upper_of. destruct (lookup c upper_table) as [v|] eqn:L; auto.
  apply lookup_In in L.
  pose proof (proj1 (forallb_forall _ _) upper_table_keys _ L) as K.
  simpl in K. rewrite H in K. discriminate.
Qed.

Lemma upper_of_solid c :
  isspace c = false -> upper_of c <> [] /\ existsb isspace (upper_of c) = false.
Proof.
  intros H. unfold upper_of. destruct (lookup c upper_table) as [v|] eqn:L.
  - apply lookup_In in L.
    pose proof (proj1 (forallb_forall _ _) upper_table_images _ L) as K.
    simpl in K. destruct v; [discriminate|].
    split; [discriminate | now apply negb_true_iff in K].
  - split; [discriminate|]. simpl. now rewrite H.
Qed.

Lemma upper_of_idem c : upper (upper_of c) = upper_of c.
Proof.
  unfold upper_of at 1 2. destruct (lookup c upper_table) as [v|] eqn:L.
  - apply lookup_In in L.
    pose proof (proj1 (forallb_forall _ _) upper_table_upper _ L) as K.
    now apply ustr_eqb_eq in K.
  - unfold upper. simpl. unfold upper_of. rewrite L. reflexivity.
Qed.

Lemma u_upper_nonempty c : upper_of c <> [].
Proof.
  destruct (isspace c) eqn:E.
  - rewrite (upper_of_space c E). discriminate.
  - apply (upper_of_solid c E).
Qed.

Lemma u_upper_app a b : upper (a ++ b) = upper a ++ upper b.
Proof. apply flat_map_app. Qed.

Lemma u_upper_stable c d : In d (upper_of c) -> upper_of d = [d].
Proof.
  intros H.
  pose proof (flat_map_fixed upper_of (upper_of c) u_upper_nonempty (upper_of_idem c)) as F.
  rewrite Forall_forall in F. now apply F.
Qed.

Lemma u_upper_is_fixed s : Forall (fun d => upper_of d = [d]) (upper s).
Proof.
  apply Forall_forall. intros d H. unfold upper in H.
  apply in_flat_map in H as [c [_ H]]. eapply u_upper_stable; eauto.
Qed.

Lemma u_upper_fix s : Forall (fun d => upper_of d = [d]) s -> upper s = s.
Proof.
  induction 1 as [|c s Hc Hs IH]; auto.
  unfold upper in *. simpl. now rewrite Hc, IH.
Qed.

Lemma u_upper_idem s : upper (upper s) = upper s.
Proof. apply u_upper_fix, u_upper_is_fixed. Qed.

Lemma u_upper_nil_iff s : upper s = [] <-> s = [].
Proof.
  destruct s as [|c s]; [tauto|]. unfold upper. simpl.
  pose proof (u_upper_nonempty c). destruct (upper_of c); [congruence|].
  split; discriminate.
Qed.

Lemma u_upper_all_space s : all_space s = true -> upper s = s.
Proof.
  induction s as [|c s IH]; auto. simpl. intros H.
  apply andb_true_iff in H as [Hc Hs]. unfold upper in *. simpl.
  now rewrite (upper_of_space c Hc), IH.
Qed.

Lemma u_solid_head c :
  isspace c = false ->
  exists d u, upper_of c = d :: u /\ isspace d = false /\ existsb isspace u = false.
Proof.
  intros E. destruct (upper_of_solid c E) as [Hn Hs].
  destruct (upper_of c) as [|d u]; [congruence|].
  simpl in Hs. apply orb_false_iff in Hs as [Hd Hu]. now exists d, u.
Qed.

Lemma u_lstrip_upper s : lstrip (upper s) = upper (lstrip s).
Proof.
  induction s as [|c s IH]; auto.
  unfold upper in *. cbn [flat_map lstrip]. destruct (isspace c) eqn:E.
  - rewrite (upper_of_space c E). simpl. now rewrite E.
  - destruct (u_solid_head c E) as [d [u [Hc [Hd _]]]].
    cbn [flat_map]. rewrite Hc. simpl. now rewrite Hd.
Qed.

Lemma u_rstrip_app_space u w : all_space w = true -> rstrip (u ++ w) = rstrip u.
Proof.
  intros H. induction u as [|c u IH]; simpl app.
  - now apply u_rstrip_nil_iff.
  - cbn [rstrip]. now rewrite IH.
Qed.

Lemma u_rstrip_upper s : rstrip (upper s) = upper (rstrip s).
Proof.
  induction s as [|c s IH]; auto.
  change (upper (c :: s)) with (upper_of c ++ upper s).
  destruct (all_space s) eqn:A.
  - assert (R : rstrip s = []) by now apply u_rstrip_nil_iff.
    rewrite (u_upper_all_space s A), (u_rstrip_app_space _ s A).
    cbn [rstrip]. rewrite R. destruct (isspace c) eqn:E.
    + rewrite (upper_of_space c E). simpl. now rewrite E.
    + destruct (upper_of_solid c E) as [_ Hs].
      rewrite (u_rstrip_solid _ Hs). unfold upper. simpl. now rewrite app_nil_r.
  - pose proof (u_rstrip_not_nil s A) as Hn.
    rewrite (u_rstrip_cons c s Hn).
    change (upper (c :: rstrip s)) with (upper_of c ++ upper (rstrip s)).
    rewrite <- IH. apply u_rstrip_app_front.
    rewrite IH. intros E. apply (proj1 (u_upper_nil_iff _)) in E. contradiction.
Qed.

Lemma u_strip_upper s : strip (upper s) = upper (strip s).
Proof. unfold strip. now rewrite u_lstrip_upper, u_rstrip_upper. Qed.

Lemma u_collapse_solid_app u r :
  existsb isspace u = false ->
  collapse_from false (u ++ r) = u ++ collapse_from false r.
Proof.
  induction u as [|d u IH]; auto. simpl.
  intros H. apply orb_false_iff in H as [Hd Hu]. rewrite Hd. now rewrite IH.
Qed.

Lemma u_collapse_upper b s :
  collapse_from b (upper s) = upper (collapse_from b s).
Proof.
  revert b. induction s as [|c s IH]; intros b; auto.
  change (upper (c :: s)) with (upper_of c ++ upper s).
  cbn [collapse_from]. destruct (isspace c) eqn:E.
  - rewrite (upper_of_space c E). simpl. rewrite E.
    destruct b; [apply IH|].
    change (upper (32%N :: collapse_from true s))
      with (upper_of 32%N ++ upper (collapse_from true s)).
    rewrite (upper_of_space 32%N eq_refl). simpl. now rewrite IH.
  - destruct (u_solid_head c E) as [d [u [Hc [Hd Hu]]]].
    change (upper (c :: collapse_from false s))
      with (upper_of c ++ upper (collapse_from false s)).
    rewrite Hc. simpl. rewrite Hd. f_equal.
    rewrite (u_collapse_solid_app u _ Hu). now rewrite IH.
Qed.

(** ** Normalizers *)

Lemma u_isspace_AZ c : is_AZ c = true -> isspace c = false.
Proof.
  unfold is_AZ. intros H. apply andb_true_iff in H as [H1 H2].
  apply N.leb_le in H1, H2. unfold isspace. by_code_point.
Qed.

Lemma u_tidy_strip_paren_prefix s :
  tidy_from false s = true -> tidy_from false (strip_paren_prefix s) = true.
Proof.
  unfold strip_paren_prefix. destruct s as [|a [|c [|b t]]]; auto.
  destruct (_ && _ && _) eqn:E; auto.
  apply andb_true_iff in E as [E E3]. apply andb_true_iff in E as [E1 E2].
  apply N.eqb_eq in E1, E3. subst a b.
  cbn [tidy_from]. rewrite (u_isspace_AZ _ E2).
  change (isspace 40) with false. change (isspace 41) with false. cbv iota.
  apply u_tidy_lstrip.
Qed.

Lemma u_strip_paren_prefix_fix_or_shorter s :
  (has_paren_prefix s = false /\ strip_paren_prefix s = s) \/
  (has_paren_prefix s = true /\
   List.length (strip_paren_prefix s) < List.length s).
Proof.
  unfold strip_paren_prefix, has_paren_prefix.
  destruct s as [|a [|c [|b t]]]; auto.
  destruct (_ && _ && _); auto.
  right. split; auto. pose proof (u_lstrip_length t). simpl. lia.
Qed.

Lemma u_remove_commas_free s : Forall (fun c => c <> 44%N) (remove_commas s).
Proof.
  apply Forall_forall. intros c H. apply filter_In in H as [_ H].
  now apply negb_true_iff, N.eqb_neq in H.
Qed.

Lemma u_remove_commas_fix s : Forall (fun c => c <> 44%N) s -> remove_commas s = s.
Proof.
  induction 1 as [|c s Hc Hs IH]; auto. simpl.
  apply N.eqb_neq in Hc. now rewrite Hc, IH.
Qed.

Lemma u_normalize_code_shape x :
  let y := normalize_code x in
  Forall (fun d => upper_of d = [d]) y /\ tidy_from false y = true /\ strip y = y.
Proof.
  unfold normalize_code, collapse_ws. cbv zeta. split; [|split].
  - apply u_Forall_collapse; [now apply upper_of_space | apply u_upper_is_fixed].
  - apply u_tidy_collapse.
  - apply (u_strip_collapse (upper (strip x))).
    rewrite u_strip_upper. now rewrite u_strip_trimmed.
Qed.

Lemma u_normalize_code_idem x :
  normalize_code (normalize_code x) = normalize_code x.
Proof.
  destruct (u_normalize_code_shape x) as [Hu [Ht Hs]].
  set (y := normalize_code x) in *.
  unfold normalize_code at 1. rewrite Hs, (u_upper_fix _ Hu).
  now apply u_tidy_collapse_fix.
Qed.

Lemma u_normalize_name_shape x :
  let y := normalize_name x in
  Forall (fun d => upper_of d = [d]) y /\
  Forall (fun c => c <> 44%N) y /\
  tidy_from false y = true.
Proof.
  unfold normalize_name, collapse_ws. cbv zeta. split; [|split].
  - apply u_Forall_collapse; [now apply upper_of_space|].
    apply u_Forall_remove_commas, u_Forall_strip_paren_prefix, u_upper_is_fixed.
  - apply u_Forall_collapse; [discriminate | apply u_remove_commas_free].
  - apply u_tidy_collapse.
Qed.

Lemma u_normalize_name_again x :
  normalize_name (normalize_name x) =
  strip_paren_prefix (strip (normalize_name x)).
Proof.
  destruct (u_normalize_name_shape x) as [Hu [Hc Ht]].
  set (y := normalize_name x) in *.
  unfold normalize_name at 1.
  rewrite (u_upper_fix (strip y)) by now apply u_Forall_strip.
  rewrite u_remove_commas_fix
    by now apply u_Forall_strip_paren_prefix, u_Forall_strip.
  apply u_tidy_collapse_fix. now apply u_tidy_strip_paren_prefix, u_tidy_strip.
Qed.

End UnicodeCase.

(** ** The normalizers on every text *)

Example unicode_normalize_code_ex :
  Unicode.normalize_code (Unicode.of_string "  k  20 ") = Unicode.of_string "K 20" /\
  (* e acute, sharp s *)
  Unicode.normalize_code [114; 233; 233; 100; 32; 32; 223]%N = [82; 201; 201; 68; 32; 83; 83]%N.
Proof. split; vm_compute; reflexivity. Qed.

Example unicode_normalize_name_ex :
  Unicode.normalize_name (Unicode.of_string " (a)  Dupont,   jean ")
    = Unicode.of_string "DUPONT JEAN" /\
  (* Rene with e acute, no-break spaces around *)
  Unicode.normalize_name [160; 114; 101; 110; 233; 160]%N = [82; 69; 78; 201]%N /\
  Unicode.normalize_name (Unicode.of_string "(A)(B) X") = Unicode.of_string "(B) X" /\
  Unicode.normalize_name (Unicode.of_string "(B) X") = Unicode.of_string "X".
Proof. repeat split; vm_compute; reflexivity. Qed.

(** C7, amended.  On every text, accented and other non-ASCII cased
    letters included, [normalize_code] is idempotent.  [normalize_name]
    applied to its own output only trims it and strips a leading
    parenthesised capital letter, so it is idempotent at [x] exactly when
    [normalize_name x] has no white space at either end and does not itself
    begin with such a prefix. *)
Theorem unicode_normalizers_idempotence (x : Unicode.ustr) :
  Unicode.normalize_code (Unicode.normalize_code x) = Unicode.normalize_code x /\
  (Unicode.normalize_name (Unicode.normalize_name x) = Unicode.normalize_name x <->
   Unicode.strip (Unicode.normalize_name x) = Unicode.normalize_name x /\
   Unicode.has_paren_prefix (Unicode.normalize_name x) = false).
Proof.
  split; [apply u_normalize_code_idem|].
  rewrite u_normalize_name_again.
  set (y := Unicode.normalize_name x). split.
  - intros H.
    destruct (u_strip_fix_or_shorter y) as [S | S].
    + split; auto. rewrite S in H.
      destruct (u_strip_paren_prefix_fix_or_shorter y) as [[P _] | [_ P]]; auto.
      rewrite H in P. lia.
    + exfalso.
      destruct (u_strip_paren_prefix_fix_or_shorter (Unicode.strip y)) as [[_ P] | [_ P]];
        rewrite H in P; [rewrite <- P in S|]; lia.
  - intros [S P]. rewrite S.
    destruct (u_strip_paren_prefix_fix_or_shorter y) as [[_ Q] | [Q _]]; congruence.
Qed.

(** X16.  On every text, [normalize_code] returns a text in upper case,
    without white space at either end and with single spaces as only
    white space; the result is empty exactly for an empty or
    white-space-only input; and the result ignores the letter case of the
    input, white space around it, and the length of the runs of white
    space within it. *)
Theorem unicode_normalize_code_canonical (s : Unicode.ustr) :
  let y := Unicode.normalize_code s in
  Unicode.upper y = y /\ Unicode.strip y = y /\ Unicode.tidy_from false y = true /\
  (y = [] <-> Unicode.all_space s = true) /\
  Unicode.normalize_code (Unicode.upper s) = y /\
  Unicode.normalize_code (Unicode.strip s) = y /\
  Unicode.normalize_code (Unicode.collapse_ws s) = y.
Proof.
  destruct (u_normalize_code_shape s) as [Hu [Ht Hs]]. cbv zeta.
  split; [now apply u_upper_fix|]. split; [exact Hs|]. split; [exact Ht|].
  split; [|split; [|split]].
  - unfold Unicode.normalize_code.
    rewrite u_collapse_nil_iff, u_upper_nil_iff. apply u_strip_nil_iff.
  - unfold Unicode.normalize_code. now rewrite u_strip_upper, u_upper_idem.
  - unfold Unicode.normalize_code. now rewrite u_strip_trimmed.
  - unfold Unicode.normalize_code. rewrite u_strip_collapse_comm.
    unfold Unicode.collapse_ws. rewrite <- u_collapse_upper.
    apply (u_collapse_idem (Unicode.upper (Unicode.strip s))).
Qed.

(** X17.  On every text, [normalize_name] returns a text in upper case,
    without any comma and with single spaces as only white space, and the
    result ignores the letter case of the input and the white space
    around it. *)
Theorem unicode_normalize_name_canonical (s : Unicode.ustr) :
  let y := Unicode.normalize_name s in
  Unicode.upper y = y /\ ~ In 44%N y /\ Unicode.tidy_from false y = true /\
  Unicode.normalize_name (Unicode.upper s) = y /\
  Unicode.normalize_name (Unicode.strip s) = y.
Proof.
  destruct (u_normalize_name_shape s) as [Hu [Hc Ht]]. cbv zeta.
  split; [now apply u_upper_fix|].
  split; [intros H; rewrite Forall_forall in Hc; now apply (Hc _ H)|].
  split; [exact Ht|]. split.
  - unfold Unicode.normalize_name. now rewrite u_strip_upper, u_upper_idem.
  - unfold Unicode.normalize_name. now rewrite u_strip_trimmed.
Qed.

(** * Infinite floats *)

(** ** What an infinite float is seen as *)

Lemma view_notna c : notna (Infinite.view c) = Infinite.notna c.
Proof. destruct c as [c | b]; reflexivity. Qed.

Lemma view_truthy c : truthy (Infinite.view c) = Infinite.truthy c.
Proof. destruct c as [c | [|]]; reflexivity. Qed.

Lemma view_py_str c : py_str (Infinite.view c) = Infinite.py_str c.
Proof. destruct c as [c | [|]]; reflexivity. Qed.

Lemma view_next_date cd c : next_date cd (Infinite.view c) = Infinite.next_date cd c.
Proof. destruct c as [c | [|]]; reflexivity. Qed.

Lemma view_header_cell labels c :
  header_cell labels (Infinite.view c) = Infinite.header_cell labels c.
Proof.
  unfold header_cell, Infinite.header_cell. now rewrite view_truthy, view_py_str.
Qed.

Lemma view_cell_or_none r i :
  cell_or_none (map Infinite.view r) i = Infinite.view (Infinite.cell_or_none r i).
Proof.
  unfold cell_or_none, Infinite.cell_or_none. rewrite length_map, nth_error_map.
  destruct (i <? List.length r); [|reflexivity].
  destruct (nth_error r i) as [c|]; [|reflexivity]. simpl.
  rewrite view_notna. now destruct (Infinite.notna c).
Qed.

Lemma view_first c0 :
  (if notna (Infinite.view c0) then Infinite.view c0 else CNone) =
  Infinite.view (if Infinite.notna c0 then c0 else Infinite.Fin CNone).
Proof. rewrite view_notna. now destruct (Infinite.notna c0). Qed.

Lemma view_day_records name dos code r :
  day_records name dos code (map Infinite.view r) = Infinite.day_records name dos code r.
Proof.
  unfold day_records, Infinite.day_records. apply flat_map_ext. intros day.
  cbv zeta. rewrite length_map, nth_error_map.
  destruct (_ <? _); [|reflexivity].
  destruct (nth_error r _) as [c|]; [|reflexivity]. simpl.
  now rewrite view_notna, view_py_str.
Qed.

Lemma view_finite_row r : map Infinite.view (map Infinite.Fin r) = r.
Proof. rewrite map_map. apply map_id. Qed.

Lemma view_finite df : map (map Infinite.view) (Infinite.finite df) = df.
Proof.
  unfold Infinite.finite. rewrite map_map.
  rewrite (map_ext _ (fun r => r)); [apply map_id | apply view_finite_row].
Qed.

Lemma view_empty_row df : In [] (map (map Infinite.view) df) <-> In [] df.
Proof.
  rewrite in_map_iff. split.
  - intros [r [E H]]. destruct r; [exact H | discriminate].
  - intros H. now exists [].
Qed.

Lemma finite_dossier r : Infinite.infinite_dossier (map Infinite.Fin r) = false.
Proof.
  unfold Infinite.infinite_dossier. rewrite nth_error_map.
  now destruct (nth_error r 1).
Qed.

Lemma finite_no_infinite df :
  existsb Infinite.infinite_dossier (Infinite.finite df) = false.
Proof.
  unfold Infinite.finite. induction df as [|r df IH]; simpl; auto.
  now rewrite finite_dossier.
Qed.

(** The file-number cell an extractor reads is infinite only where the
    row holds an infinite float in that column. *)
Lemma dossier_cell_cases r :
  (exists c, Infinite.cell_or_none r 1 = Infinite.Fin c) \/
  (Infinite.infinite_dossier r = true /\
   exists b, Infinite.cell_or_none r 1 = Infinite.Inf b).
Proof.
  unfold Infinite.cell_or_none, Infinite.infinite_dossier.
  destruct (1 <? List.length r); [|left; eauto].
  destruct (nth_error r 1) as [[c | b]|]; simpl; [| right; eauto | left; eauto].
  destruct (notna c); left; eauto.
Qed.

(** ** One row *)

Lemma mapM_lift {A B} (f : A -> Infinite.xresult B) (g : A -> result B) l :
  (forall a, f a = Infinite.lift (g a)) ->
  Infinite.mapM f l = Infinite.lift (mapM g l).
Proof.
  intros H. induction l as [|a l IH]; [reflexivity|].
  cbn [Infinite.mapM mapM]. rewrite H, IH.
  destruct (g a); [|reflexivity]. simpl. now destruct (mapM g l).
Qed.

Lemma my_row_records_cases cd r :
  Infinite.my_row_records cd r = Infinite.lift (my_row_records cd (map Infinite.view r)) \/
  (Infinite.infinite_dossier r = true /\
   Infinite.my_row_records cd r = Infinite.XRaise Infinite.OverflowError).
Proof.
  unfold Infinite.my_row_records, my_row_records. cbv zeta.
  rewrite !view_cell_or_none, !view_truthy, view_py_str.
  destruct (_ && _ && _ && _); [|now left].
  destruct cd as [d|]; [|now left].
  destruct (dossier_cell_cases r) as [[c E] | [Hi [b E]]]; rewrite E.
  - left. apply mapM_lift. intros a.
    unfold Infinite.my_record, my_record. simpl.
    destruct (dossier_text c); simpl; [|reflexivity]. now rewrite view_py_str.
  - destruct (parse_billing_code _) as [|a l]; [now left|].
    right. split; [exact Hi | reflexivity].
Qed.

Lemma my_billing_row_cases st r :
  Infinite.my_billing_row st r = Infinite.lift (my_billing_row st (map Infinite.view r)) \/
  (Infinite.infinite_dossier r = true /\
   Infinite.my_billing_row st r = Infinite.XRaise Infinite.OverflowError).
Proof.
  destruct r as [|c0 r]; [now left|].
  unfold Infinite.my_billing_row, my_billing_row.
  change (Infinite.iloc (c0 :: r) 0) with (Infinite.XOk c0).
  change (iloc (map Infinite.view (c0 :: r)) 0) with (Ok (Infinite.view c0)).
  cbn [Infinite.xbind bind]. cbv zeta.
  rewrite view_first, view_next_date.
  destruct (my_row_records_cases
              (Infinite.next_date (current_date st)
                 (if Infinite.notna c0 then c0 else Infinite.Fin CNone)) (c0 :: r))
    as [E | [Hi E]]; rewrite E.
  - left. now destruct (my_row_records _ _).
  - right. split; [exact Hi | reflexivity].
Qed.

Lemma next_dossier_cases r :
  Infinite.next_dossier (Infinite.cell_or_none r 1) =
    Infinite.lift (next_dossier (cell_or_none (map Infinite.view r) 1)) \/
  (Infinite.infinite_dossier r = true /\
   Infinite.next_dossier (Infinite.cell_or_none r 1) =
     Infinite.XRaise Infinite.OverflowError).
Proof.
  unfold Infinite.next_dossier, next_dossier.
  rewrite view_cell_or_none, view_truthy.
  destruct (dossier_cell_cases r) as [[c E] | [Hi [b E]]]; rewrite E.
  - left. simpl. destruct (truthy c); [|reflexivity].
    now destruct (dossier_text c).
  - right. split; [exact Hi | reflexivity].
Qed.

Lemma hospital_row_cases st r :
  Infinite.hospital_row st r = Infinite.lift (hospital_row st (map Infinite.view r)) \/
  (Infinite.infinite_dossier r = true /\
   Infinite.hospital_row st r = Infinite.XRaise Infinite.OverflowError).
Proof.
  destruct r as [|c0 r]; [now left|].
  unfold Infinite.hospital_row, hospital_row.
  change (Infinite.iloc (c0 :: r) 0) with (Infinite.XOk c0).
  change (iloc (map Infinite.view (c0 :: r)) 0) with (Ok (Infinite.view c0)).
  cbn [Infinite.xbind bind]. cbv zeta.
  rewrite view_first, !view_cell_or_none, !view_header_cell.
  destruct (Infinite.header_cell NAME_HEADERS _); [now left|].
  destruct (Infinite.header_cell DOSSIER_HEADERS _); [now left|].
  destruct (Infinite.header_cell CODE_HEADERS _); [now left|].
  rewrite view_truthy.
  assert (K : forall st1,
             Infinite.lift
               (if dossier_truthy (current_dossier st1) &&
                   truthy (Infinite.view (Infinite.cell_or_none (c0 :: r) 2))
                then
                  match current_dossier st1 with
                  | Some dos =>
                      Ok {| current_name := current_name st1;
                            current_dossier := current_dossier st1;
                            hosp_records :=
                              hosp_records st1 ++
                              day_records (current_name st1) dos
                                (normalize_code
                                   (py_str (Infinite.view (Infinite.cell_or_none (c0 :: r) 2))))
                                (map Infinite.view (c0 :: r)) |}
                  | None => Ok st1
                  end
                else Ok st1) =
             (if dossier_truthy (current_dossier st1) &&
                 Infinite.truthy (Infinite.cell_or_none (c0 :: r) 2)
              then
                match current_dossier st1 with
                | Some dos =>
                    Infinite.XOk
                      {| current_name := current_name st1;
                         current_dossier := current_dossier st1;
                         hosp_records :=
                           hosp_records st1 ++
                           Infinite.day_records (current_name st1) dos
                             (normalize_code
                                (Infinite.py_str (Infinite.cell_or_none (c0 :: r) 2)))
                             (c0 :: r) |}
                | None => Infinite.XOk st1
                end
              else Infinite.XOk st1)).
  { intros st1. rewrite view_truthy, view_py_str.
    destruct (current_dossier st1) as [dos|]; destruct (_ && _); try reflexivity.
    cbn [Infinite.lift]. now rewrite view_day_records. }
  destruct (Infinite.truthy (if Infinite.notna c0 then c0 else Infinite.Fin CNone)).
  - destruct (next_dossier_cases (c0 :: r)) as [E | [Hi E]].
    + left. rewrite view_cell_or_none in E. rewrite E, view_py_str.
      destruct (next_dossier (Infinite.view (Infinite.cell_or_none (c0 :: r) 1)))
        as [d|e]; [|reflexivity].
      cbn [Infinite.lift Infinite.xbind bind]. symmetry. apply K.
    + right. split; [exact Hi|]. now rewrite E.
  - left. cbn [Infinite.xbind bind]. symmetry. apply K.
Qed.

(** ** A whole table *)

Lemma foldM_cases {S} (f : S -> Infinite.xrow -> Infinite.xresult S)
      (g : S -> row -> result S) :
  (forall st r,
      f st r = Infinite.lift (g st (map Infinite.view r)) \/
      (Infinite.infinite_dossier r = true /\
       f st r = Infinite.XRaise Infinite.OverflowError)) ->
  forall rows st,
    Infinite.foldM f rows st =
      Infinite.lift (foldM g (map (map Infinite.view) rows) st) \/
    (existsb Infinite.infinite_dossier rows = true /\
     Infinite.foldM f rows st = Infinite.XRaise Infinite.OverflowError).
Proof.
  intros H rows. induction rows as [|r rows IH]; intros st; [now left|].
  cbn [Infinite.foldM foldM map existsb].
  destruct (H st r) as [E | [Hi E]]; rewrite E.
  - destruct (g st (map Infinite.view r)) as [st1|e]; [|now left].
    cbn [Infinite.lift Infinite.xbind bind].
    destruct (IH st1) as [E1 | [Hi1 E1]]; [now left|].
    right. split; [rewrite Hi1; apply orb_true_r | exact E1].
  - right. split; [now rewrite Hi | reflexivity].
Qed.

Lemma parse_my_billing_cases df :
  Infinite.parse_my_billing df =
    Infinite.lift (parse_my_billing (map (map Infinite.view) df)) \/
  (existsb Infinite.infinite_dossier df = true /\
   Infinite.parse_my_billing df = Infinite.XRaise Infinite.OverflowError).
Proof.
  unfold Infinite.parse_my_billing, parse_my_billing.
  destruct (foldM_cases _ _ my_billing_row_cases df my_init) as [E | [Hi E]];
    rewrite E.
  - left. now destruct (foldM my_billing_row _ _).
  - right. now split.
Qed.

Lemma parse_hospital_report_cases df :
  Infinite.parse_hospital_report df =
    Infinite.lift (parse_hospital_report (map (map Infinite.view) df)) \/
  (existsb Infinite.infinite_dossier df = true /\
   Infinite.parse_hospital_report df = Infinite.XRaise Infinite.OverflowError).
Proof.
  unfold Infinite.parse_hospital_report, parse_hospital_report.
  destruct (foldM_cases _ _ hospital_row_cases df hosp_init) as [E | [Hi E]];
    rewrite E.
  - left. now destruct (foldM hospital_row _ _).
  - right. now split.
Qed.

(** On tables of the cells without infinite floats the extractors are the
    ones above. *)
Lemma finite_extractors (df : list row) :
  Infinite.parse_my_billing (Infinite.finite df) = Infinite.lift (parse_my_billing df) /\
  Infinite.parse_hospital_report (Infinite.finite df) =
    Infinite.lift (parse_hospital_report df).
Proof.
  pose proof (finite_no_infinite df) as F. split.
  - destruct (parse_my_billing_cases (Infinite.finite df)) as [E | [Hi _]];
      [now rewrite view_finite in E | congruence].
  - destruct (parse_hospital_report_cases (Infinite.finite df)) as [E | [Hi _]];
      [now rewrite view_finite in E | congruence].
Qed.

Example infinite_dossier_ex :
  Infinite.parse_my_billing Infinite.my_table_inf = Infinite.XRaise Infinite.OverflowError /\
  Infinite.parse_my_billing Infinite.my_table_inf_idle = Infinite.XOk [] /\
  Infinite.parse_my_billing Infinite.my_table_inf_name =
    Infinite.XOk [mk_record 5 "101" "-INF" "K-1" MA_FACTURATION] /\
  Infinite.parse_hospital_report Infinite.hosp_table_inf =
    Infinite.XRaise Infinite.OverflowError /\
  Infinite.parse_hospital_report Infinite.hosp_table_inf_idle = Infinite.XOk [] /\
  Infinite.parse_hospital_report Infinite.my_table_inf =
    Infinite.XRaise Infinite.OverflowError.
Proof. repeat split; reflexivity. Qed.

Lemma parse_my_billing_outcome (df : list row) :
  (~ In [] df /\ exists recs, parse_my_billing df = Ok recs) \/
  (In [] df /\ parse_my_billing df = Raise IndexError).
Proof.
  unfold parse_my_billing.
  destruct (my_fold_outcome df my_init) as [[Hn [st He]] | [Hi He]]; rewrite He.
  - left. split; [exact Hn | now eexists].
  - right. now split.
Qed.

Lemma parse_hospital_report_outcome (df : list row) :
  (~ In [] df /\ exists recs, parse_hospital_report df = Ok recs) \/
  (In [] df /\ parse_hospital_report df = Raise IndexError).
Proof.
  unfold parse_hospital_report.
  destruct (hosp_fold_outcome df hosp_init) as [[Hn [st He]] | [Hi He]]; rewrite He.
  - left. split; [exact Hn | now eexists].
  - right. now split.
Qed.

Section Outcomes.

Import Infinite.

Variable parse : list xrow -> xresult (list record).
Variable parse_finite : list row -> result (list record).
Hypothesis parse_cases :
  forall df,
    parse df = lift (parse_finite (map (map view) df)) \/
    (existsb infinite_dossier df = true /\ parse df = XRaise OverflowError).
Hypothesis parse_finite_outcome :
  forall df,
    (~ In [] df /\ exists recs, parse_finite df = Ok recs) \/
    (In [] df /\ parse_finite df = Raise IndexError).

Lemma parse_three_outcomes df :
  (exists recs, parse df = XOk recs) \/
  (In [] df /\ parse df = XRaise (Exn IndexError)) \/
  (existsb infinite_dossier df = true /\ parse df = XRaise OverflowError).
Proof.
  destruct (parse_cases df) as [E | H]; [|now right; right].
  rewrite E.
  destruct (parse_finite_outcome (map (map view) df)) as [[_ [recs He]] | [Hi He]];
    rewrite He.
  - left. now exists recs.
  - right; left. split; [now apply view_empty_row | reflexivity].
Qed.

Lemma parse_no_infinite df :
  existsb infinite_dossier df = false ->
  (In [] df <-> parse df = XRaise (Exn IndexError)) /\
  (~ In [] df <-> exists recs, parse df = XOk recs).
Proof.
  intros F. destruct (parse_cases df) as [E | [H _]]; [|congruence].
  rewrite E.
  destruct (parse_finite_outcome (map (map view) df)) as [[Hn [recs He]] | [Hi He]];
    rewrite He; rewrite view_empty_row in *; simpl.
  - split; split; try tauto; try discriminate. intros _. now exists recs.
  - split; split; try tauto. intros [recs H]. discriminate.
Qed.

End Outcomes.

(** X11.  On tables whose cells may be infinite floats, the two
    extractors raise nothing but [IndexError] and [OverflowError]: the
    first only where the table has a row without any column, the second
    only where the file-number cell of some row is an infinite float.
    Where no file-number cell is infinite, each extractor raises
    [IndexError] exactly when the table has a row without any column and
    returns its records otherwise. *)
Theorem extractors_exceptions (df : list Infinite.xrow) :
  ((exists recs, Infinite.parse_my_billing df = Infinite.XOk recs) \/
   (In [] df /\
    Infinite.parse_my_billing df = Infinite.XRaise (Infinite.Exn IndexError)) \/
   (existsb Infinite.infinite_dossier df = true /\
    Infinite.parse_my_billing df = Infinite.XRaise Infinite.OverflowError)) /\
  ((exists recs, Infinite.parse_hospital_report df = Infinite.XOk recs) \/
   (In [] df /\
    Infinite.parse_hospital_report df = Infinite.XRaise (Infinite.Exn IndexError)) \/
   (existsb Infinite.infinite_dossier df = true /\
    Infinite.parse_hospital_report df = Infinite.XRaise Infinite.OverflowError)) /\
  (existsb Infinite.infinite_dossier df = false ->
   (In [] df <->
    Infinite.parse_my_billing df = Infinite.XRaise (Infinite.Exn IndexError)) /\
   (~ In [] df <-> exists recs, Infinite.parse_my_billing df = Infinite.XOk recs) /\
   (In [] df <->
    Infinite.parse_hospital_report df = Infinite.XRaise (Infinite.Exn IndexError)) /\
   (~ In [] df <->
    exists recs, Infinite.parse_hospital_report df = Infinite.XOk recs)).
Proof.
  split; [|split].
  - apply (parse_three_outcomes _ _ parse_my_billing_cases parse_my_billing_outcome).
  - apply (parse_three_outcomes _ _ parse_hospital_report_cases
             parse_hospital_report_outcome).
  - intros F.
    destruct (parse_no_infinite _ _ parse_my_billing_cases
                parse_my_billing_outcome df F) as [A B].
    destruct (parse_no_infinite _ _ parse_hospital_report_cases
                parse_hospital_report_outcome df F) as [C D].
    repeat split; tauto.
Qed.

Lemma extractors_exceptions_witness :
  (In [] Infinite.my_table_inf_name <->
   Infinite.parse_my_billing Infinite.my_table_inf_name =
     Infinite.XRaise (Infinite.Exn IndexError)) /\
  (~ In [] Infinite.my_table_inf_name <->
   exists recs, Infinite.parse_my_billing Infinite.my_table_inf_name = Infinite.XOk recs) /\
  (In [] Infinite.my_table_inf_name <->
   Infinite.parse_hospital_report Infinite.my_table_inf_name =
     Infinite.XRaise (Infinite.Exn IndexError)) /\
  (~ In [] Infinite.my_table_inf_name <->
   exists recs,
     Infinite.parse_hospital_report Infinite.my_table_inf_name = Infinite.XOk recs).
Proof.
  exact (proj2 (proj2 (extractors_exceptions Infinite.my_table_inf_name)) eq_refl).
Defined.

Lemma run_comparison_cases my_df hosp_df :
  Infinite.run_comparison my_df hosp_df =
    Infinite.lift (run_comparison (map (map Infinite.view) my_df)
                                  (map (map Infinite.view) hosp_df)) \/
  ((existsb Infinite.infinite_dossier my_df = true \/
    existsb Infinite.infinite_dossier hosp_df = true) /\
   Infinite.run_comparison my_df hosp_df = Infinite.XRaise Infinite.OverflowError).
Proof.
  unfold Infinite.run_comparison, run_comparison.
  destruct (parse_my_billing_cases my_df) as [E | [Hi E]]; rewrite E;
    [|right; split; [now left | reflexivity]].
  destruct (parse_my_billing _) as [mine|e]; [|now left].
  cbn [Infinite.lift Infinite.xbind bind].
  destruct (parse_hospital_report_cases hosp_df) as [E' | [Hi E']]; rewrite E';
    [|right; split; [now right | reflexivity]].
  left. now destruct (parse_hospital_report _).
Qed.

Lemma run_comparison_finite_outcome (my_df hosp_df : list row) :
  (~ In [] my_df /\ ~ In [] hosp_df /\ exists c, run_comparison my_df hosp_df = Ok c) \/
  ((In [] my_df \/ In [] hosp_df) /\ run_comparison my_df hosp_df = Raise IndexError).
Proof.
  unfold run_comparison.
  destruct (parse_my_billing_outcome my_df) as [[Hn [mine He]] | [Hi He]]; rewrite He;
    [|right; split; [now left | reflexivity]].
  destruct (parse_hospital_report_outcome hosp_df) as [[Hn' [theirs He']] | [Hi' He']];
    rewrite He'; [|right; split; [now right | reflexivity]].
  left. repeat split; auto. now eexists.
Qed.

(** X15.  The comparison [main] runs, extraction of both tables and then
    [compare_records], on tables whose cells may be infinite floats: it
    raises nothing but [IndexError], only where one of the tables has a
    row without any column, and [OverflowError], only where a file-number
    cell is an infinite float.  Where no file-number cell is infinite it
    raises exactly when one of the tables has a row without any column.
    In the three lists it returns, the matched and the personal-only
    records come from the personal log and the facility-only records from
    the facility report. *)
Theorem comparison_outcome (my_df hosp_df : list Infinite.xrow) :
  ((exists c, Infinite.run_comparison my_df hosp_df = Infinite.XOk c) \/
   ((In [] my_df \/ In [] hosp_df) /\
    Infinite.run_comparison my_df hosp_df = Infinite.XRaise (Infinite.Exn IndexError)) \/
   ((existsb Infinite.infinite_dossier my_df = true \/
     existsb Infinite.infinite_dossier hosp_df = true) /\
    Infinite.run_comparison my_df hosp_df = Infinite.XRaise Infinite.OverflowError)) /\
  (existsb Infinite.infinite_dossier my_df = false ->
   existsb Infinite.infinite_dossier hosp_df = false ->
   (In [] my_df \/ In [] hosp_df <->
    Infinite.run_comparison my_df hosp_df = Infinite.XRaise (Infinite.Exn IndexError)) /\
   (~ In [] my_df /\ ~ In [] hosp_df <->
    exists c, Infinite.run_comparison my_df hosp_df = Infinite.XOk c)) /\
  (forall c, Infinite.run_comparison my_df hosp_df = Infinite.XOk c ->
     Forall (fun x => source x = MA_FACTURATION) (matched_of c ++ only_in_my_of c) /\
     Forall (fun x => source x = RAPPORT_HOPITAL) (only_in_hospital_of c)).
Proof.
  pose proof (run_comparison_finite_outcome (map (map Infinite.view) my_df)
                (map (map Infinite.view) hosp_df)) as B.
  rewrite !view_empty_row in B.
  split; [|split].
  - destruct (run_comparison_cases my_df hosp_df) as [E | H]; [|now right; right].
    rewrite E. destruct B as [[_ [_ [c Hc]]] | [Hi Hc]]; rewrite Hc.
    + left. now exists c.
    + right; left. now split.
  - intros F F'.
    destruct (run_comparison_cases my_df hosp_df) as [E | [[H | H] _]];
      [|congruence|congruence].
    rewrite E. destruct B as [[Hn [Hn' [c Hc]]] | [Hi Hc]]; rewrite Hc; simpl.
    + split; split; try tauto; try discriminate. intros _. now exists c.
    + split; split; try tauto. intros [c H]. discriminate.
  - clear B. intros c Hc.
    destruct (run_comparison_cases my_df hosp_df) as [E | [_ E]];
      rewrite E in Hc; [|discriminate].
    destruct (run_comparison _ _) as [c'|e] eqn:R; [|discriminate].
    injection Hc as ->.
    apply (run_comparison_outcome (map (map Infinite.view) my_df)
             (map (map Infinite.view) hosp_df)). exact R.
Qed.

Lemma comparison_outcome_witness :
  (~ In [] Infinite.my_table_inf_name /\ ~ In [] (Infinite.finite hosp_table_zero) <->
   exists c, Infinite.run_comparison Infinite.my_table_inf_name
               (Infinite.finite hosp_table_zero) = Infinite.XOk c) /\
  exists c, Infinite.run_comparison Infinite.my_table_inf_name
              (Infinite.finite hosp_table_zero) = Infinite.XOk c /\
            Forall (fun x => source x = MA_FACTURATION) (matched_of c ++ only_in_my_of c).
Proof.
  destruct (comparison_outcome Infinite.my_table_inf_name
              (Infinite.finite hosp_table_zero)) as [_ [A B]].
  split.
  - exact (proj2 (A eq_refl eq_refl)).
  - eexists. split; [reflexivity|]. apply (proj1 (B _ eq_refl)).
Defined.
